(** * Flame: the profiler lifecycle controller, sourcemap resolution and
      profile loading, embedded from the JavaScript sources.

    The development follows the preload script (the controller: running
    flags, toggle, the two stop paths, auto-start and the exit handlers,
    the patched [mappingInfo] with its name extraction) and [lib/index.js]
    ([parseProfile]).  External collaborators (the sampling engine, the file
    system, the clock, the renderers, the source-map consumer, zlib, the
    protobuf decoder) appear as recorded calls whose outcome is supplied by
    an oracle, or as interfaces.  Console output is left out. *)

From Stdlib Require Import ZArith Lia Bool Ascii String.
From stdpp Require Import base option list strings gmap.

Open Scope Z_scope.

(** ** JavaScript string helpers used by the sources *)

Module JsString.

(** Code unit of a character; lines are sequences of code units below 256. *)
Definition code (a : ascii) : N := N_of_ascii a.

Definition in_range (lo hi : N) (a : ascii) : bool :=
  ((lo <=? code a) && (code a <=? hi))%N.

Definition is_char (c : ascii) (a : ascii) : bool := (code a =? code c)%N.

Fixpoint map_chars (f : ascii -> ascii) (s : string) : string :=
  match s with
  | EmptyString => EmptyString
  | String a r => String (f a) (map_chars f r)
  end.

(** [s.replace(/[:.]/g, '-')] *)
Definition replace_colon_dot (s : string) : string :=
  map_chars (fun a => if is_char ":" a || is_char "." a then "-"%char else a) s.

(** [String.prototype.startsWith] *)
Fixpoint startsWith (p s : string) : bool :=
  match p, s with
  | EmptyString, _ => true
  | String a p', String b s' => is_char a b && startsWith p' s'
  | String _ _, EmptyString => false
  end.

Fixpoint drop_chars (n : nat) (s : string) : string :=
  match n, s with
  | O, _ => s
  | S n', String _ r => drop_chars n' r
  | S _, EmptyString => EmptyString
  end.

(** [s.replace(pat, rep)] with a string pattern: the first occurrence only. *)
Fixpoint replace_first (pat rep s : string) : string :=
  if startsWith pat s then rep +:+ drop_chars (String.length pat) s
  else match s with
       | EmptyString => EmptyString
       | String a r => String a (replace_first pat rep r)
       end.

(** [s.split(sep)] for a one-character separator. *)
Fixpoint split_acc (sep : ascii) (cur : string) (s : string) : list string :=
  match s with
  | EmptyString => [String.rev cur]
  | String a r =>
      if is_char sep a then String.rev cur :: split_acc sep EmptyString r
      else split_acc sep (String a cur) r
  end.

Definition split (sep : ascii) (s : string) : list string :=
  split_acc sep EmptyString s.

(** The white space of [String.prototype.trim] and of the regex class [\s],
    restricted to code units below 256. *)
Definition is_space (a : ascii) : bool :=
  in_range 9 13 a || (code a =? 32)%N || (code a =? 160)%N.

(** [s.trim()] is the empty string exactly when every character is white
    space; the sources only test [trim()] for truthiness. *)
Fixpoint all_space (s : string) : bool :=
  match s with
  | EmptyString => true
  | String a r => is_space a && all_space r
  end.

Definition trim_truthy (s : string) : bool := negb (all_space s).

Definition truthy (s : string) : bool :=
  match s with EmptyString => false | _ => true end.

Definition is_digit (a : ascii) : bool := in_range 48 57 a.

Fixpoint skip_space (s : string) : string :=
  match s with
  | String a r => if is_space a then skip_space r else s
  | EmptyString => s
  end.

Fixpoint digits_acc (seen : bool) (acc : Z) (s : string) : option Z :=
  match s with
  | String a r =>
      if is_digit a then digits_acc true (10 * acc + Z.of_N (code a) - 48) r
      else if seen then Some acc else None
  | EmptyString => if seen then Some acc else None
  end.

(** A JavaScript number as far as [parseInt] produces one: NaN, a finite
    double of integer value, or an infinity.  The two zeros are one value
    here: the sources compare the result with 0 and hand it to [setTimeout],
    and neither tells them apart. *)
Inductive JsNumber :=
| NaN
| Finite (n : Z)
| Infinity (negative : bool).

(** The double nearest to a natural number: 53 bits of mantissa, ties to the
    even mantissa; [None] when the rounded value is beyond the largest
    double. *)
Definition roundToDouble (n : Z) : option Z :=
  let e := Z.log2 n - 52 in
  if e <=? 0 then Some n
  else
    let q := Z.shiftr n e in
    let r := Z.land n (Z.ones e) in
    let half := Z.shiftl 1 (e - 1) in
    let q' := if (half <? r) || ((r =? half) && Z.odd q) then q + 1 else q in
    let v := Z.shiftl q' e in
    if v <? Z.shiftl 1 1024 then Some v else None.

(** The Number value of a mathematical integer. *)
Definition toNumber (n : Z) : JsNumber :=
  match roundToDouble (Z.abs n) with
  | Some v => Finite (Z.sgn n * v)
  | None => Infinity (n <? 0)
  end.

Definition ofMathInt (v : option Z) : JsNumber :=
  match v with
  | Some n => toNumber n
  | None => NaN
  end.

(** [parseInt(s, 10)] as ECMAScript defines it: leading white space, an
    optional sign, then the longest run of decimal digits, read as a
    mathematical integer and rounded to a double; NaN without a digit. *)
Definition parseInt10 (s : string) : JsNumber :=
  match skip_space s with
  | String a r =>
      if is_char "-" a then ofMathInt (Z.opp <$> digits_acc false 0 r)
      else if is_char "+" a then ofMathInt (digits_acc false 0 r)
      else ofMathInt (digits_acc false 0 (String a r))
  | EmptyString => NaN
  end.

End JsString.

(** ** The controller: module-level state and the calls it makes *)

Module Controller.
Import JsString.

(** How a call into an external collaborator ends. *)
Inductive outcome := Returns | Throws.

(** The calls the controller makes into its collaborators, in the order it
    makes them.  [CpuStart sm] is [cpuProfiler.start(options)] where the
    options carry the source mapper exactly when [sm] holds. *)
Inductive Call :=
| NewDate
| CpuStart (withSourceMapper : bool)
| HeapStart (intervalBytes stackDepth : Z)
| CpuStop
| CpuEncode
| HeapProfile (withSourceMapper : bool)
| HeapStop
| HeapEncode
| WriteFileSync (filename : string)
| GenerateFlamegraph (pprofPath outputPath : string)
| GenerateMarkdown (pprofPath outputPath format : string).

(** The module-level variables of the preload script, the log of external
    calls and the list of files that [fs.writeFileSync] has written. *)
Record State := mkState {
  isCpuProfilerRunning : bool;
  isHeapProfilerRunning : bool;
  sourceMapper : bool;          (* [sourceMapper !== null] *)
  mdFormat : string;            (* [process.env.FLAME_MD_FORMAT || 'summary'] *)
  calls : list Call;
  written : list string
}.

Definition set_cpu (b : bool) (s : State) : State :=
  mkState b (isHeapProfilerRunning s) (sourceMapper s) (mdFormat s) (calls s) (written s).

Definition set_heap (b : bool) (s : State) : State :=
  mkState (isCpuProfilerRunning s) b (sourceMapper s) (mdFormat s) (calls s) (written s).

Definition set_sourceMapper (b : bool) (s : State) : State :=
  mkState (isCpuProfilerRunning s) (isHeapProfilerRunning s) b (mdFormat s) (calls s) (written s).

Definition log_call (c : Call) (s : State) : State :=
  mkState (isCpuProfilerRunning s) (isHeapProfilerRunning s) (sourceMapper s) (mdFormat s)
          (calls s ++ [c]) (written s).

Definition add_file (name : string) (s : State) : State :=
  mkState (isCpuProfilerRunning s) (isHeapProfilerRunning s) (sourceMapper s) (mdFormat s)
          (calls s) (written s ++ [name]).

(** Statements either complete normally or throw. *)
Inductive Completion (A : Type) :=
| Normal (a : A)
| Thrown.
Arguments Normal {A} a.
Arguments Thrown {A}.

Definition Js (A : Type) : Type := State -> State * Completion A.

#[global] Instance Js_ret : MRet Js := fun A a s => (s, Normal a).

Definition bind {A B} (m : Js A) (k : A -> Js B) : Js B := fun s =>
  match m s with
  | (s', Normal a) => k a s'
  | (s', Thrown) => (s', Thrown)
  end.

#[global] Instance Js_bind : MBind Js := fun A B k m => bind m k.

Notation "x <- m ;; k" := (bind m (fun x => k))
  (at level 100, m at next level, k at level 200, right associativity).

Definition gets {A} (f : State -> A) : Js A := fun s => (s, Normal (f s)).

Definition modify (f : State -> State) : Js unit := fun s => (f s, Normal tt).

(** A call into a collaborator: logged, then it returns or throws. *)
Definition extern (c : Call) (o : outcome) : Js unit := fun s =>
  (log_call c s, match o with Returns => Normal tt | Throws => Thrown end).

(** [try { body } catch { handler }] *)
Definition try_catch {A} (body handler : Js A) : Js A := fun s =>
  match body s with
  | (s', Normal a) => (s', Normal a)
  | (s', Thrown) => handler s'
  end.

(** [fs.writeFileSync(name, data)]: the file exists once the call returns. *)
Definition writeFileSync (name : string) (o : outcome) : Js unit :=
  extern (WriteFileSync name) o ;; modify (add_file name).

Definition is_NewDate (c : Call) : bool :=
  match c with NewDate => true | _ => false end.

(** How many times the clock has been read. *)
Definition dates (l : list Call) : nat := length (List.filter is_NewDate l).

(** What the collaborators do during one stop.  [clock k] is the ISO string
    that the [k]-th reading of the clock of this process returns. *)
Record StopWorld := mkStopWorld {
  clock : nat -> string;
  cpuStop : outcome;
  cpuEncode : outcome;
  cpuWrite : outcome;
  heapProfile : outcome;
  heapStop : outcome;
  heapEncode : outcome;
  heapWrite : outcome;
  cpuHtml : outcome;            (* how [generateFlamegraph] settles *)
  cpuMd : outcome;              (* how [generateMarkdown] settles *)
  heapHtml : outcome;
  heapMd : outcome
}.

(** [new Date().toISOString()] *)
Definition newDateISO (w : StopWorld) : Js string := fun s =>
  (log_call NewDate s, Normal (clock w (dates (calls s)))).

Definition cpuFilenameOf (timestamp : string) : string :=
  "cpu-profile-" +:+ timestamp +:+ ".pb".

Definition heapFilenameOf (timestamp : string) : string :=
  "heap-profile-" +:+ timestamp +:+ ".pb".

(** The body of [if (isCpuProfilerRunning) { ... }], up to the flag reset;
    both stop functions have the same lines. *)
Definition stopCpu (w : StopWorld) (timestamp : string) (filenames : list string)
  : Js (list string) :=
  extern CpuStop (cpuStop w) ;;
  extern CpuEncode (cpuEncode w) ;;
  let cpuFilename := cpuFilenameOf timestamp in
  writeFileSync cpuFilename (cpuWrite w) ;;
  modify (set_cpu false) ;;
  mret (filenames ++ [cpuFilename]).

(** The body of [if (isHeapProfilerRunning) { ... }], up to the flag reset. *)
Definition stopHeap (w : StopWorld) (timestamp : string) (filenames : list string)
  : Js (list string) :=
  sm <- gets sourceMapper ;;
  extern (HeapProfile sm) (heapProfile w) ;;
  extern HeapStop (heapStop w) ;;
  extern HeapEncode (heapEncode w) ;;
  let heapFilename := heapFilenameOf timestamp in
  writeFileSync heapFilename (heapWrite w) ;;
  modify (set_heap false) ;;
  mret (filenames ++ [heapFilename]).

(** The shared [catch (error)] block of both stop functions. *)
Definition stopFailed {A} (r : A) : Js A :=
  modify (set_cpu false) ;; modify (set_heap false) ;; mret r.

(** [stopProfilerQuick()]; [None] is [null]. *)
Definition stopProfilerQuick (w : StopWorld) : Js (option (list string)) :=
  cpu <- gets isCpuProfilerRunning ;;
  heap <- gets isHeapProfilerRunning ;;
  if negb cpu && negb heap then mret None
  else
    iso <- newDateISO w ;;
    let timestamp := replace_colon_dot iso in
    try_catch
      (cpu <- gets isCpuProfilerRunning ;;
       filenames <- (if cpu then stopCpu w timestamp [] else mret []) ;;
       heap <- gets isHeapProfilerRunning ;;
       filenames <- (if heap then stopHeap w timestamp filenames else mret filenames) ;;
       mret (Some filenames))
      (stopFailed None).

(** *** [stopProfilerAndSave]: an async function, cut at its awaits *)

(** The awaits of [stopProfilerAndSave], in program order. *)
Inductive Await :=
| AwaitCpuHtml
| AwaitCpuMd
| AwaitHeapHtml
| AwaitHeapMd.

(** The locals of one activation. *)
Record Frame := mkFrame {
  generateHtml : bool;
  timestamp : string;
  filenames : list string;
  world : StopWorld
}.

Definition with_filenames (l : list string) (f : Frame) : Frame :=
  mkFrame (generateHtml f) (timestamp f) l (world f).

(** The promise has resolved with a value ([None] is [null]), or the
    activation is suspended at an await. *)
Inductive Progress :=
| Resolved (r : option (list string))
| Suspended (at_ : Await) (f : Frame).

Definition htmlOf (pb : string) : string := replace_first ".pb" ".html" pb.
Definition mdOf (pb : string) : string := replace_first ".pb" ".md" pb.

(** From [if (isHeapProfilerRunning)] to the next await or the return. *)
Definition heapSegment (f : Frame) : Js Progress :=
  heap <- gets isHeapProfilerRunning ;;
  if heap then
    names <- stopHeap (world f) (timestamp f) (filenames f) ;;
    if generateHtml f then
      extern (GenerateFlamegraph (heapFilenameOf (timestamp f))
                                 (htmlOf (heapFilenameOf (timestamp f)))) Returns ;;
      mret (Suspended AwaitHeapHtml (with_filenames names f))
    else mret (Resolved (Some names))
  else mret (Resolved (Some (filenames f))).

(** From [if (isCpuProfilerRunning)] to the next await or the return. *)
Definition cpuSegment (f : Frame) : Js Progress :=
  cpu <- gets isCpuProfilerRunning ;;
  if cpu then
    names <- stopCpu (world f) (timestamp f) (filenames f) ;;
    if generateHtml f then
      extern (GenerateFlamegraph (cpuFilenameOf (timestamp f))
                                 (htmlOf (cpuFilenameOf (timestamp f)))) Returns ;;
      mret (Suspended AwaitCpuHtml (with_filenames names f))
    else heapSegment (with_filenames names f)
  else heapSegment f.

(** After a flamegraph await: the inner [try]/[catch] only logs, whatever the
    outcome, and the markdown generation is started and awaited. *)
Definition markdownSegment (pb : string) (next : Await) (f : Frame) (settled : outcome)
  : Js Progress :=
  fmt <- gets mdFormat ;;
  extern (GenerateMarkdown pb (mdOf pb) fmt) Returns ;;
  mret (Suspended next f).

(** The outer [try]/[catch] around every synchronous segment. *)
Definition guarded (seg : Js Progress) : State -> State * Progress := fun s =>
  match try_catch seg (stopFailed (Resolved None)) s with
  | (s', Normal p) => (s', p)
  | (s', Thrown) => (s', Resolved None)
  end.

(** The call itself: runs up to the first await or to the return. *)
Definition stopProfilerAndSave_call (generateHtml : bool) (w : StopWorld)
  : State -> State * Progress := fun s =>
  if negb (isCpuProfilerRunning s) && negb (isHeapProfilerRunning s) then (s, Resolved None)
  else
    match newDateISO w s with
    | (s1, Normal iso) =>
        guarded (cpuSegment (mkFrame generateHtml (replace_colon_dot iso) [] w)) s1
    | (s1, Thrown) => (s1, Resolved None)
    end.

(** The awaited promise settles and the activation continues. *)
Definition stopProfilerAndSave_resume (at_ : Await) (f : Frame) (settled : outcome)
  : State -> State * Progress :=
  match at_ with
  | AwaitCpuHtml =>
      guarded (markdownSegment (cpuFilenameOf (timestamp f)) AwaitCpuMd f settled)
  | AwaitCpuMd => guarded (heapSegment f)
  | AwaitHeapHtml =>
      guarded (markdownSegment (heapFilenameOf (timestamp f)) AwaitHeapMd f settled)
  | AwaitHeapMd => fun s => (s, Resolved (Some (filenames f)))
  end.

(** How the promise awaited at a point settles, according to the world. *)
Definition settles (at_ : Await) (w : StopWorld) : outcome :=
  match at_ with
  | AwaitCpuHtml => cpuHtml w
  | AwaitCpuMd => cpuMd w
  | AwaitHeapHtml => heapHtml w
  | AwaitHeapMd => heapMd w
  end.

(** Runs a suspended activation further, with nothing else in between. *)
Fixpoint drive (fuel : nat) (p : State * Progress) : State * Progress :=
  match fuel, p with
  | S n, (s, Suspended at_ f) =>
      drive n (stopProfilerAndSave_resume at_ f (settles at_ (world f)) s)
  | _, _ => p
  end.

(** [await stopProfilerAndSave(generateHtml)] with no other handler running
    during its awaits: there are at most four awaits. *)
Definition stopProfilerAndSave (generateHtml : bool) (w : StopWorld)
  : State -> State * Progress := fun s =>
  drive 4 (stopProfilerAndSave_call generateHtml w s).

(** What the samplers do when they are started. *)
Record StartWorld := mkStartWorld {
  cpuStart : outcome;
  heapStart : outcome
}.

Record ToggleWorld := mkToggleWorld {
  onStart : StartWorld;
  onStop : StopWorld
}.

(** [toggleProfiler()].  The promise of [stopProfilerAndSave(false)] is dropped
    by the source as well; with [generateHtml = false] it has no await. *)
Definition toggleProfiler (w : ToggleWorld) : Js unit :=
  cpu <- gets isCpuProfilerRunning ;;
  heap <- gets isHeapProfilerRunning ;;
  if negb cpu && negb heap then
    sm <- gets sourceMapper ;;
    extern (CpuStart sm) (cpuStart (onStart w)) ;;
    extern (HeapStart (512 * 1024) 64) (heapStart (onStart w)) ;;
    modify (set_cpu true) ;;
    modify (set_heap true)
  else
    fun s => (fst (stopProfilerAndSave_call false (onStop w) s), Normal tt).

(** [generateHtmlAsync(filenames)]: for every file both renderers are
    started and not awaited. *)
Definition generateHtmlAsync (filenames : list string) : Js unit :=
  fmt <- gets mdFormat ;;
  modify (fun s =>
    foldl (fun s filename =>
             log_call (GenerateMarkdown filename (mdOf filename) fmt)
               (log_call (GenerateFlamegraph filename (htmlOf filename)) s))
          s filenames).

(** Sequences of manual toggles, each with the world it runs in. *)
Definition toggles (ws : list ToggleWorld) (s : State) : State :=
  foldl (fun s w => fst (toggleProfiler w s)) s ws.

(** A toggle is a stop event when it finds a sub-profiler running. *)
Definition is_stop_event (s : State) : bool :=
  isCpuProfilerRunning s || isHeapProfilerRunning s.

(** The number of start-then-stop pairs that a sequence of toggles
    completes: the toggles that find the profilers running and stop them. *)
Fixpoint completed_pairs (ws : list ToggleWorld) (s : State) : nat :=
  match ws with
  | [] => 0
  | w :: ws' =>
      (if is_stop_event s then 1 else 0)%nat
      + completed_pairs ws' (fst (toggleProfiler w s))
  end.

Definition is_cpu_file (name : string) : bool := startsWith "cpu-profile-" name.
Definition is_heap_file (name : string) : bool := startsWith "heap-profile-" name.

(** The successful [fs.writeFileSync] calls for a profile of each kind. *)
Definition cpu_writes (s : State) : nat := length (List.filter is_cpu_file (written s)).
Definition heap_writes (s : State) : nat := length (List.filter is_heap_file (written s)).

(** The profile files of each kind that exist after these writes:
    [fs.writeFileSync] replaces a file of the same name, so a name written
    twice is one file; nothing in the script deletes a file. *)
Definition cpu_files (s : State) : nat :=
  length (remove_dups (List.filter is_cpu_file (written s))).
Definition heap_files (s : State) : nat :=
  length (remove_dups (List.filter is_heap_file (written s))).

(** The state in which the preload script leaves the module variables
    before any profiler has been started. *)
Definition idle (fmt : string) : State := mkState false false false fmt [] [].

(** *** Vocabulary of the statements *)

(** The CPU part of a stop fails when one of its three calls throws. *)
Definition cpu_failure (w : StopWorld) : Prop :=
  cpuStop w = Throws \/ cpuEncode w = Throws \/ cpuWrite w = Throws.

(** No call of a stop throws. *)
Definition stop_succeeds (w : StopWorld) : Prop :=
  cpuStop w = Returns /\ cpuEncode w = Returns /\ cpuWrite w = Returns /\
  heapProfile w = Returns /\ heapStop w = Returns /\ heapEncode w = Returns /\
  heapWrite w = Returns.

Definition is_heap_call (c : Call) : bool :=
  match c with
  | HeapProfile _ | HeapStop | HeapEncode => true
  | WriteFileSync n => is_heap_file n
  | _ => false
  end.

Definition is_render_call (c : Call) : bool :=
  match c with
  | GenerateFlamegraph _ _ | GenerateMarkdown _ _ _ => true
  | _ => false
  end.

Definition is_start_call (c : Call) : bool :=
  match c with
  | CpuStart _ | HeapStart _ _ => true
  | _ => false
  end.

(** The calls made and the files written between two states. *)
Definition calls_since (s s' : State) (l : list Call) : Prop := calls s' = calls s ++ l.
Definition written_since (s s' : State) (l : list string) : Prop := written s' = written s ++ l.

(** The timestamp that a stop event beginning in [s] computes. *)
Definition timestampAt (w : StopWorld) (s : State) : string :=
  replace_colon_dot (clock w (dates (calls s))).

(** The two names of one stop. *)
Definition pair_of (ts : string) : list string := [cpuFilenameOf ts; heapFilenameOf ts].

(** The timestamps of the stop events of a sequence of toggles, in order. *)
Fixpoint stop_timestamps (ws : list ToggleWorld) (s : State) : list string :=
  match ws with
  | [] => []
  | w :: ws' =>
      (if is_stop_event s then [timestampAt (onStop w) s] else [])
      ++ stop_timestamps ws' (fst (toggleProfiler w s))
  end.

(** *** Sample worlds and states *)

(** A world in which nothing throws and the clock advances one second per
    reading. *)
Definition ticking (k : nat) : string :=
  match k with
  | O => "2026-03-01T10:20:30.456Z"
  | 1%nat => "2026-03-01T10:20:31.456Z"
  | _ => "2026-03-01T10:20:32.456Z"
  end.

Definition calm : StopWorld :=
  mkStopWorld ticking Returns Returns Returns Returns Returns Returns Returns
              Returns Returns Returns Returns.

(** As [calm], but encoding the CPU profile throws. *)
Definition cpuEncodeThrows : StopWorld :=
  mkStopWorld ticking Returns Throws Returns Returns Returns Returns Returns
              Returns Returns Returns Returns.

Definition goodStart : StartWorld := mkStartWorld Returns Returns.

Definition calmToggle : ToggleWorld := mkToggleWorld goodStart calm.
Definition failingToggle : ToggleWorld := mkToggleWorld goodStart cpuEncodeThrows.

(** As [calm], but every reading of the clock falls into the same
    millisecond. *)
Definition frozen : StopWorld :=
  mkStopWorld (fun _ => "2026-03-01T10:20:30.456Z"%string)
              Returns Returns Returns Returns Returns Returns Returns
              Returns Returns Returns Returns.

Definition frozenToggle : ToggleWorld := mkToggleWorld goodStart frozen.

(** [cpuProfiler.start] returns and [heapProfiler.start] throws. *)
Definition heapStartThrows : ToggleWorld :=
  mkToggleWorld (mkStartWorld Returns Throws) calm.

(** Both sub-profilers running, nothing logged yet. *)
Definition bothRunning : State := mkState true true false "summary" [] [].

(** What a toggle adds to the number of completed pairs. *)
Definition stop_count (s : State) : nat := if is_stop_event s then 1%nat else 0%nat.

Definition flags_equal (s : State) : Prop :=
  isCpuProfilerRunning s = isHeapProfilerRunning s.

Definition both_stopped (s : State) : Prop :=
  isCpuProfilerRunning s = false /\ isHeapProfilerRunning s = false.

End Controller.

(** ** The process: preload, the event loop and the exit handlers *)

Module Process.
Import JsString Controller.

(** The environment the supervisor passes to the child. *)
Record Env := mkEnv {
  FLAME_AUTO_START : option string;
  FLAME_DELAY : option string;
  FLAME_SOURCEMAP_DIRS : option string;
  FLAME_NODE_MODULES_SOURCE_MAPS : option string;
  FLAME_MD_FORMAT : option string;
  platform : string;            (* [process.platform] *)
  delimiter : ascii             (* [path.delimiter] *)
}.

(** [process.env.X || dflt] *)
Definition or_default (v : option string) (dflt : string) : string :=
  match v with
  | Some s => if truthy s then s else dflt
  | None => dflt
  end.

(** [nodeModulesSourceMaps.split(',').filter(m => m.trim())] *)
Definition mods (e : Env) : list string :=
  match FLAME_NODE_MODULES_SOURCE_MAPS e with
  | Some s => if truthy s then List.filter trim_truthy (split "," s) else []
  | None => []
  end.

(** [sourcemapDirs ? sourcemapDirs.split(path.delimiter).filter(d => d.trim()) : []] *)
Definition dirs (e : Env) : list string :=
  match FLAME_SOURCEMAP_DIRS e with
  | Some s => if truthy s then List.filter trim_truthy (split (delimiter e) s) else []
  | None => []
  end.

(** [nodeModulesMapperPromise !== null] *)
Definition hasNodeModulesMapperPromise (e : Env) : bool :=
  match mods e with [] => false | _ => true end.

(** [sourceMapperPromise !== null]: the promise exists when
    [dirs.length > 0 || nodeModulesMapperPromise]. *)
Definition hasSourceMapperPromise (e : Env) : bool :=
  match dirs e with [] => hasNodeModulesMapperPromise e | _ => true end.

(** [sourceMapperPromise]: absent, created and not yet settled, settled. *)
Inductive MapperPromise := NoPromise | PendingPromise | SettledPromise.

(** What runs when the promise of [stopProfilerAndSave(true)] settles. *)
Inductive Continuation :=
| ThenReturn                     (* the [beforeExit] handler just returns *)
| ThenOriginalExit (code : Z).   (* [.then(() => originalExit.call(this, code))] *)

(** A suspended activation of [stopProfilerAndSave(true)]. *)
Record Activation := mkActivation {
  awaiting : Await;
  frame : Frame;
  andThen : Continuation
}.

(** The callbacks that the auto-start block schedules. *)
Inductive Timer :=
| Immediate                      (* [setImmediate(() => setTimeout(startProfiling, 0))] *)
| Timeout (ms : Z)               (* [setTimeout(startProfiling, ms)] *)
| TimeoutInfinity.               (* [setTimeout(startProfiling, Infinity)] *)



Inductive Trigger := ByBeforeExit | ByExitCall | BySIGINT | BySIGTERM.

Record Proc := mkProc {
  st : State;
  autoStart : bool;
  posix : bool;                      (* [process.platform !== 'win32'] *)
  exitHandlerCalled : bool;
  mapperPromise : MapperPromise;
  awaitingMapper : nat;              (* [startProfiling] suspended at [await sourceMapperPromise] *)
  timers : list Timer;
  activations : list Activation;
  exited : option Z;                 (* [originalExit(code)] or a fatal signal has ended the process *)
  stopSequences : list Trigger;      (* which exit triggers have run the stop sequence, in order *)
  autoStarts : nat                   (* how often [startProfiling] has called [toggleProfiler] *)
}.

Definition with_st (s : State) (p : Proc) : Proc :=
  mkProc s (autoStart p) (posix p) (exitHandlerCalled p) (mapperPromise p) (awaitingMapper p)
         (timers p) (activations p) (exited p) (stopSequences p) (autoStarts p).

Definition with_mapper (m : MapperPromise) (n : nat) (p : Proc) : Proc :=
  mkProc (st p) (autoStart p) (posix p) (exitHandlerCalled p) m n
         (timers p) (activations p) (exited p) (stopSequences p) (autoStarts p).

Definition with_timers (l : list Timer) (p : Proc) : Proc :=
  mkProc (st p) (autoStart p) (posix p) (exitHandlerCalled p) (mapperPromise p) (awaitingMapper p)
         l (activations p) (exited p) (stopSequences p) (autoStarts p).

Definition with_activations (l : list Activation) (p : Proc) : Proc :=
  mkProc (st p) (autoStart p) (posix p) (exitHandlerCalled p) (mapperPromise p) (awaitingMapper p)
         (timers p) l (exited p) (stopSequences p) (autoStarts p).

Definition with_exited (code : Z) (p : Proc) : Proc :=
  mkProc (st p) (autoStart p) (posix p) (exitHandlerCalled p) (mapperPromise p) (awaitingMapper p)
         (timers p) (activations p) (Some code) (stopSequences p) (autoStarts p).

(** [exitHandlerCalled = true], entering the stop sequence for a trigger. *)
Definition latch (t : Trigger) (p : Proc) : Proc :=
  mkProc (st p) (autoStart p) (posix p) true (mapperPromise p) (awaitingMapper p)
         (timers p) (activations p) (exited p) (stopSequences p ++ [t]) (autoStarts p).

Definition count_autoStart (p : Proc) : Proc :=
  mkProc (st p) (autoStart p) (posix p) (exitHandlerCalled p) (mapperPromise p) (awaitingMapper p)
         (timers p) (activations p) (exited p) (stopSequences p) (S (autoStarts p)).

(** The guard shared by the four exit handlers:
    [(isCpuProfilerRunning || isHeapProfilerRunning) && !exitHandlerCalled]. *)
Definition exitGuard (p : Proc) : bool :=
  (isCpuProfilerRunning (st p) || isHeapProfilerRunning (st p)) && negb (exitHandlerCalled p).

(** The rest of [startProfiling] after the optional await.  An exception of
    [toggleProfiler] rejects the promise of [startProfiling]; what the host
    does with it is not decided here and the process goes on. *)
Definition autoToggle (w : ToggleWorld) (p : Proc) : Proc :=
  count_autoStart (with_st (fst (toggleProfiler w (st p))) p).

(** [startProfiling()]: awaits [sourceMapperPromise] when there is one; the
    continuation of an await on a settled promise runs before any other
    handler. *)
Definition startProfiling (w : ToggleWorld) (p : Proc) : Proc :=
  match mapperPromise p with
  | NoPromise => autoToggle w p
  | PendingPromise => with_mapper PendingPromise (S (awaitingMapper p)) p
  | SettledPromise => autoToggle w p
  end.

(** [originalExit.call(this, code)] *)
Definition originalExit (code : Z) (p : Proc) : Proc := with_exited code p.

(** Starts [stopProfilerAndSave(true)] and attaches what follows it. *)
Definition startStopAndSave (w : StopWorld) (k : Continuation) (p : Proc) : Proc :=
  match stopProfilerAndSave_call true w (st p) with
  | (s', Resolved _) =>
      match k with
      | ThenReturn => with_st s' p
      | ThenOriginalExit code => originalExit code (with_st s' p)
      end
  | (s', Suspended a f) =>
      with_activations (activations p ++ [mkActivation a f k]) (with_st s' p)
  end.

(** The patched [process.exit(code)]. *)
Definition patchedExit (code : Z) (w : StopWorld) (p : Proc) : Proc :=
  if exitGuard p then startStopAndSave w (ThenOriginalExit code) (latch ByExitCall p)
  else originalExit code p.

(** The [beforeExit] handler. *)
Definition onBeforeExit (w : StopWorld) (p : Proc) : Proc :=
  if exitGuard p then startStopAndSave w ThenReturn (latch ByBeforeExit p)
  else p.

(** The SIGINT and SIGTERM handlers; their last statement, [process.exit(0)],
    is the patched function. *)
Definition onSignal (t : Trigger) (w : StopWorld) (p : Proc) : Proc :=
  let p1 :=
    if exitGuard p then
      let p' := latch t p in
      match stopProfilerQuick w (st p') with
      | (s', Normal (Some filenames)) =>
          with_st (fst (generateHtmlAsync filenames s')) p'
      | (s', _) => with_st s' p'
      end
    else p in
  patchedExit 0 w p1.

(** The awaited promise of the [i]-th suspended activation settles. *)
Definition settle (i : nat) (p : Proc) : Proc :=
  match activations p !! i with
  | None => p
  | Some a =>
      let rest := delete i (activations p) in
      match stopProfilerAndSave_resume (awaiting a) (frame a)
              (settles (awaiting a) (world (frame a))) (st p) with
      | (s', Resolved _) =>
          match andThen a with
          | ThenReturn => with_activations rest (with_st s' p)
          | ThenOriginalExit code => originalExit code (with_activations rest (with_st s' p))
          end
      | (s', Suspended a' f') =>
          with_activations (<[i := mkActivation a' f' (andThen a)]> (activations p))
                           (with_st s' p)
      end
  end.

(** [sourceMapperPromise] settles: [sourceMapper] is the mapper, or stays
    [null] when the initialization failed; every suspended [startProfiling]
    continues. *)
Definition mapperSettles (ok : bool) (w : ToggleWorld) (p : Proc) : Proc :=
  match mapperPromise p with
  | PendingPromise =>
      let p1 := with_st (set_sourceMapper ok (st p)) (with_mapper SettledPromise 0 p) in
      Nat.iter (awaitingMapper p) (autoToggle w) p1
  | _ => p
  end.

(** The [i]-th scheduled callback runs. *)
Definition timerFires (i : nat) (w : ToggleWorld) (p : Proc) : Proc :=
  match timers p !! i with
  | None => p
  | Some Immediate => with_timers (<[i := Timeout 0]> (timers p)) p
  | Some (Timeout _) => startProfiling w (with_timers (delete i (timers p)) p)
  | Some TimeoutInfinity => startProfiling w (with_timers (delete i (timers p)) p)
  end.

Inductive Event :=
| SIGUSR2 (w : ToggleWorld)
| BeforeExit (w : StopWorld)
| ExitCall (code : Z) (w : StopWorld)
| SIGINT (w : StopWorld)
| SIGTERM (w : StopWorld)
| Settle (i : nat)
| MapperSettles (ok : bool) (w : ToggleWorld)
| TimerFires (i : nat) (w : ToggleWorld).

(** One turn of the event loop.  The SIGUSR2 handler is registered on every
    platform but win32.  Without the auto-start block the exit triggers keep
    their default behaviour: the terminating signals end the process,
    [process.exit] is the original one. *)
Definition step (p : Proc) (e : Event) : Proc :=
  match exited p with
  | Some _ => p
  | None =>
      match e with
      | SIGUSR2 w =>
          if posix p then with_st (fst (toggleProfiler w (st p))) p
          else p
      | BeforeExit w => if autoStart p then onBeforeExit w p else p
      | ExitCall code w =>
          if autoStart p then patchedExit code w p else originalExit code p
      | SIGINT w => if autoStart p then onSignal BySIGINT w p else with_exited 130 p
      | SIGTERM w => if autoStart p then onSignal BySIGTERM w p else with_exited 143 p
      | Settle i => settle i p
      | MapperSettles ok w => mapperSettles ok w p
      | TimerFires i w => timerFires i w p
      end
  end.

Definition run (evs : list Event) (p : Proc) : Proc := foldl step p evs.

(** The synchronous body of the preload script. *)
Definition preload (e : Env) (w : ToggleWorld) : Proc :=
  let auto := bool_decide (FLAME_AUTO_START e = Some "true") in
  let p0 :=
    mkProc (idle (or_default (FLAME_MD_FORMAT e) "summary"))
           auto
           (negb (bool_decide (platform e = "win32")))
           false
           (if hasSourceMapperPromise e then PendingPromise else NoPromise)
           0 [] [] None [] 0 in
  if auto then
    let delayValue := or_default (FLAME_DELAY e) "until-started" in
    if bool_decide (delayValue = "none") then startProfiling w p0
    else if bool_decide (delayValue = "until-started") then with_timers [Immediate] p0
    else
      match parseInt10 delayValue with
      | Finite delayMs =>
          if 0 <=? delayMs then with_timers [Timeout delayMs] p0
          else startProfiling w p0
      | Infinity false => with_timers [TimeoutInfinity] p0
      | Infinity true => startProfiling w p0
      | NaN => startProfiling w p0
      end
  else p0.

(** *** Vocabulary of the statements *)

(** The exit trigger an event is, if any. *)
Definition trigger_of (e : Event) : option Trigger :=
  match e with
  | BeforeExit _ => Some ByBeforeExit
  | ExitCall _ _ => Some ByExitCall
  | SIGINT _ => Some BySIGINT
  | SIGTERM _ => Some BySIGTERM
  | _ => None
  end.


(** At most one auto-start is scheduled, suspended or done. *)
Definition auto_inv (p : Proc) : Prop :=
  (autoStarts p + awaitingMapper p + length (timers p) <= 1)%nat.

Definition same_latch (p q : Proc) : Prop :=
  exitHandlerCalled q = exitHandlerCalled p /\ stopSequences q = stopSequences p.

Definition same_auto (p q : Proc) : Prop :=
  autoStarts q = autoStarts p /\ awaitingMapper q = awaitingMapper p /\
  timers q = timers p /\ mapperPromise q = mapperPromise p.

(** *** Sample environments and schedules *)

(** Auto-start with the default delay, with no delay, and with no delay
    and a sourcemap directory. *)
Definition defaultDelay : Env := mkEnv (Some "true") None None None None "linux" ":".
Definition noDelay : Env := mkEnv (Some "true") (Some "none") None None None "linux" ":".
Definition noDelayWithMaps : Env :=
  mkEnv (Some "true") (Some "none") (Some "dist") None None "linux" ":".

(** The loop drains and the graceful stop begins; while it awaits the CPU
    flamegraph two SIGUSR2 arrive; then its awaits settle one by one. *)
Definition interleaved : list Event :=
  [BeforeExit calm; SIGUSR2 calmToggle; SIGUSR2 calmToggle;
   Settle 0; Settle 0; Settle 0; Settle 0].

End Process.

(** ** Name extraction: the three regular expressions of
       [extractFunctionName] *)

Module Regex.
Import JsString.

(** The fragment of JavaScript regular expressions that the sources use.
    The quantifiers [*] and [+] are only applied to one-character classes. *)
Inductive regex :=
| Cls (p : ascii -> bool)      (* a character class *)
| Lit (s : string)             (* a literal word *)
| Cat (r1 r2 : regex)
| Star (p : ascii -> bool)     (* greedy [c*] *)
| Plus (p : ascii -> bool)     (* greedy [c+] *)
| Opt (r : regex)              (* greedy [(?: r )?] *)
| Group (r : regex)            (* the capturing group *)
| Bol.                         (* [^] without the multiline flag *)

(** Where the matcher stands: the index and the rest of the input. *)
Definition cont (R : Type) : Type := nat -> string -> option string -> option R.

(** Greedy repetition with backtracking: the longest run first. *)
Fixpoint star {R} (p : ascii -> bool) (i : nat) (s : string) (c : option string)
  (k : cont R) : option R :=
  match s with
  | String a r =>
      if p a then
        match star p (S i) r c k with
        | Some x => Some x
        | None => k i s c
        end
      else k i s c
  | EmptyString => k i s c
  end.

Fixpoint strip (l s : string) : option string :=
  match l, s with
  | EmptyString, _ => Some s
  | String a l', String b s' => if is_char a b then strip l' s' else None
  | String _ _, EmptyString => None
  end.

Fixpoint take_chars (n : nat) (s : string) : string :=
  match n, s with
  | S n', String a r => String a (take_chars n' r)
  | _, _ => EmptyString
  end.

(** Backtracking matcher in continuation-passing style: [k] is what remains
    to be matched after [r]; the first alternative that lets the whole match
    succeed wins. *)
Fixpoint matches {R} (r : regex) (i : nat) (s : string) (c : option string)
  (k : cont R) : option R :=
  match r with
  | Cls p =>
      match s with
      | String a s' => if p a then k (S i) s' c else None
      | EmptyString => None
      end
  | Lit l =>
      match strip l s with
      | Some s' => k (i + String.length l)%nat s' c
      | None => None
      end
  | Cat r1 r2 => matches r1 i s c (fun i' s' c' => matches r2 i' s' c' k)
  | Star p => star p i s c k
  | Plus p =>
      match s with
      | String a s' => if p a then star p (S i) s' c k else None
      | EmptyString => None
      end
  | Opt r' =>
      match matches r' i s c k with
      | Some x => Some x
      | None => k i s c
      end
  | Group r' => matches r' i s c (fun i' s' _ => k i' s' (Some (take_chars (i' - i) s)))
  | Bol => if (i =? 0)%nat then k i s c else None
  end.

(** The whole expression has matched: the result is the text of group 1. *)
Definition final : cont (option string) := fun _ _ c => Some c.

(** [line.match(re)] without the global flag: the leftmost start at which
    the expression matches. *)
Fixpoint search (r : regex) (i : nat) (s : string) : option (option string) :=
  match matches r i s None final with
  | Some c => Some c
  | None =>
      match s with
      | EmptyString => None
      | String _ s' => search r (S i) s'
      end
  end.

Definition js_match (r : regex) (line : string) : option (option string) :=
  search r 0 line.

(** [[a-zA-Z_$]] *)
Definition ident_start (a : ascii) : bool :=
  in_range 97 122 a || in_range 65 90 a || is_char "_" a || is_char "$" a.

(** [[a-zA-Z0-9_$]] *)
Definition ident_char (a : ascii) : bool :=
  in_range 97 122 a || in_range 65 90 a || in_range 48 57 a || is_char "_" a || is_char "$" a.

(** The capturing group [( IDENT )] where IDENT is [[a-zA-Z_$]] followed by
    any number of [[a-zA-Z0-9_$]]. *)
Definition ident : regex := Group (Cat (Cls ident_start) (Star ident_char)).

Definition lparen : regex := Cls (is_char "(").

(** [funcMatch]: [/(?:async\s+)?function\s+(IDENT)\s*\(/] *)
Definition funcRe : regex :=
  Cat (Opt (Cat (Lit "async") (Plus is_space)))
  (Cat (Lit "function")
  (Cat (Plus is_space)
  (Cat ident
  (Cat (Star is_space) lparen)))).

(** [arrowMatch]: [/(IDENT)\s*[=:]\s*(?:async\s* )?\(/] (the optional group
    is the word async and any white space) *)
Definition arrowRe : regex :=
  Cat ident
  (Cat (Star is_space)
  (Cat (Cls (fun a => is_char "=" a || is_char ":" a))
  (Cat (Star is_space)
  (Cat (Opt (Cat (Lit "async") (Star is_space)))
  lparen)))).

(** [methodMatch]: [/^\s*(?:async\s+)?(IDENT)\s*\(/] *)
Definition methodRe : regex :=
  Cat Bol
  (Cat (Star is_space)
  (Cat (Opt (Cat (Lit "async") (Plus is_space)))
  (Cat ident
  (Cat (Star is_space) lparen)))).

(** [if (m) return m[1]]: group 1 takes part in every match. *)
Definition group1 (m : option (option string)) : option string :=
  match m with
  | Some (Some name) => Some name
  | _ => None
  end.

(** [extractFunctionName(sourceLine)] of the preload script; [None] is
    [null]. *)
Definition extractFunctionName (sourceLine : string) : option string :=
  if negb (truthy sourceLine) then None
  else
    match group1 (js_match funcRe sourceLine) with
    | Some name => Some name
    | None =>
        match group1 (js_match arrowRe sourceLine) with
        | Some name => Some name
        | None => group1 (js_match methodRe sourceLine)
        end
    end.

(** *** The copy of the helper that the test suite exercises *)

(** [arrowMatch] of the test: [/(IDENT)\s*=\s*(?:async\s* )?\(/] *)
Definition arrowRe_test : regex :=
  Cat ident
  (Cat (Star is_space)
  (Cat (Cls (is_char "="))
  (Cat (Star is_space)
  (Cat (Opt (Cat (Lit "async") (Star is_space)))
  lparen)))).

(** [propFuncMatch] of the test: [/(IDENT)\s*:\s*(?:async\s+)?function\s*\(/] *)
Definition propFuncRe_test : regex :=
  Cat ident
  (Cat (Star is_space)
  (Cat (Cls (is_char ":"))
  (Cat (Star is_space)
  (Cat (Opt (Cat (Lit "async") (Plus is_space)))
  (Cat (Lit "function")
  (Cat (Star is_space) lparen)))))).

(** [['if', 'else', 'for', 'while', 'switch', 'catch', 'with']] *)
Definition control_flow_keywords : list string :=
  ["if"; "else"; "for"; "while"; "switch"; "catch"; "with"]%string.

(** The helper as the sourcemap test re-creates it, with the exclusion of
    control-flow keywords. *)
Definition extractFunctionName_test (sourceLine : string) : option string :=
  if negb (truthy sourceLine) then None
  else
    match group1 (js_match funcRe sourceLine) with
    | Some name => Some name
    | None =>
        match group1 (js_match arrowRe_test sourceLine) with
        | Some name => Some name
        | None =>
            match group1 (js_match propFuncRe_test sourceLine) with
            | Some name => Some name
            | None =>
                match group1 (js_match methodRe sourceLine) with
                | Some name =>
                    if bool_decide (name ∈ control_flow_keywords) then None
                    else Some name
                | None => None
                end
            end
        end
    end.

(** *** Vocabulary of the statements *)

(** Every character satisfies the class. *)
Fixpoint all_chars (p : ascii -> bool) (s : string) : bool :=
  match s with
  | EmptyString => true
  | String a r => p a && all_chars p r
  end.

Definition not_f (a : ascii) : bool := negb (is_char "f" a).

(** An identifier as the patterns read it. *)
Definition is_identifier (s : string) : bool :=
  match s with
  | EmptyString => false
  | String a r => ident_start a && all_chars ident_char r
  end.

(** White space, and at least one character of it. *)
Definition is_blank (s : string) : bool :=
  match s with
  | EmptyString => false
  | String _ _ => all_chars is_space s
  end.

(** What follows the optional [async] in [funcMatch]. *)
Definition declRe : regex :=
  Cat (Lit "function") (Cat (Plus is_space) (Cat ident (Cat (Star is_space) lparen))).

(** The text of a declaration from the keyword on. *)
Definition declaration (ws1 name ws2 rest : string) : string :=
  "function" +:+ ws1 +:+ name +:+ ws2 +:+ "(" +:+ rest.

(** A greedy run of [p] stops in front of [v]. *)
Definition stops (p : ascii -> bool) (v : string) : Prop :=
  match v with
  | EmptyString => True
  | String a _ => p a = false
  end.

(** The only outcomes of an attempt that starts in front of a declaration of
    [name]. *)
Definition none_or_name (name : string) (r : option (option string)) : Prop :=
  r = None \/ r = Some (Some name).

End Regex.

(** ** Sourcemap resolution: the patched [mappingInfo] *)

Module SourceMap.
Import JsString Controller.

(** [SourceMapConsumer.GREATEST_LOWER_BOUND] (the default) and
    [SourceMapConsumer.LEAST_UPPER_BOUND]. *)
Inductive Bias := GREATEST_LOWER_BOUND | LEAST_UPPER_BOUND.

(** The object [originalPositionFor] returns; [None] is [null]. *)
Record Position := mkPosition {
  source : option string;
  line : option Z;
  column : option Z;
  name : option string
}.

(** A profile location; [None] is [undefined]. *)
Record Location := mkLocation {
  file : string;
  loc_line : option Z;
  loc_column : option Z;
  loc_name : option string
}.

(** The source-map consumer, as the script uses it.  A lookup that finds
    nothing returns a position whose [source] is [null]; a lookup may also
    throw, as the library does for a line below 1. *)
Class Consumer (C : Type) := {
  (* [originalPositionFor({ line, column, bias })] *)
  originalPositionFor : C -> option Z -> Z -> option Bias -> Completion Position;
  (* [sourceContentFor(source, true)]: the content, [null], or an exception *)
  sourceContentFor : C -> string -> Completion (option string)
}.

(** [path.normalize] and [path.resolve] with two arguments. *)
Class Path := {
  normalize : string -> string;
  resolve : string -> string -> string
}.

(** An entry of [mapper.infoMap]. *)
Record Entry (C : Type) := mkEntry {
  mapFileDir : string;
  mapConsumer : C
}.
Arguments mkEntry {C} _ _.
Arguments mapFileDir {C} _.
Arguments mapConsumer {C} _.

(** [sourceContentCache]: the lines of a source, by source name. *)
Abbreviation Cache := (gmap string (list string)).

Definition truthy_opt (o : option string) : bool :=
  match o with Some s => truthy s | None => false end.

Definition truthy_num (o : option Z) : bool :=
  match o with Some n => negb (n =? 0) | None => false end.

(** [lines[n]] of a JavaScript array. *)
Definition js_index (lines : list string) (n : Z) : option string :=
  if n <? 0 then None else lines !! Z.to_nat n.

Section WithConsumer.
Context {C : Type} `{Consumer C} `{Path}.

(** [location.column > 0 ? location.column - 1 : 0] *)
Definition generatedColumn (location : Location) : Z :=
  match loc_column location with
  | Some c => if 0 <? c then c - 1 else 0
  | None => 0
  end.

(** The statements inside the [try] of the name recovery: the lines of the
    source are taken from the cache or read and cached; the result is the
    new cache and the extracted name, if any. *)
Definition recoverName (consumer : C) (cache : Cache) (src : string) (ln : Z)
  : Completion (Cache * option string) :=
  let fetched :=
    match cache !! src with
    | Some lines => Normal (cache, Some lines)
    | None =>
        match sourceContentFor consumer src with
        | Thrown => Thrown
        | Normal content =>
            if truthy_opt content then
              let lines := split "010"%char (default EmptyString content) in
              Normal (<[src := lines]> cache, Some lines)
            else Normal (cache, None)
        end
    end in
  match fetched with
  | Thrown => Thrown
  | Normal (cache', None) => Normal (cache', None)
  | Normal (cache', Some lines) =>
      match js_index lines (ln - 1) with
      | Some text =>
          if truthy text then
            match Regex.extractFunctionName text with
            | Some extractedName =>
                if truthy extractedName then Normal (cache', Some extractedName)
                else Normal (cache', None)
            | None => Normal (cache', None)
            end
          else Normal (cache', None)
      | None => Normal (cache', None)
      end
  end.

(** [mapper.mappingInfo(location)] as the preload script overrides it;
    [getMappingInfo] of the mapper is the lookup in [infoMap]. *)
Definition mappingInfo (infoMap : gmap string (Entry C)) (cache : Cache)
  (location : Location) : Cache * Completion Location :=
  let inputPath := normalize (file location) in
  match infoMap !! inputPath with
  | None => (cache, Normal location)
  | Some entry =>
      let gline := loc_line location in
      let gcol := generatedColumn location in
      let consumer := mapConsumer entry in
      let looked :=
        match originalPositionFor consumer gline gcol None with
        | Thrown => Thrown
        | Normal pos =>
            match source pos with
            | None => originalPositionFor consumer gline gcol (Some LEAST_UPPER_BOUND)
            | Some _ => Normal pos
            end
        end in
      match looked with
      | Thrown => (cache, Thrown)        (* no [try] encloses the two lookups *)
      | Normal pos =>
          match source pos with
          | None => (cache, Normal location)
          | Some src =>
              let resolvedName :=
                if truthy_opt (name pos) then name pos else loc_name location in
              let '(cache', resolvedName) :=
                if negb (truthy_opt (name pos)) && truthy src && truthy_num (line pos) then
                  match recoverName consumer cache src (default 0 (line pos)) with
                  | Normal (cache', Some extractedName) => (cache', Some extractedName)
                  | Normal (cache', None) => (cache', resolvedName)
                  | Thrown => (cache, resolvedName)     (* [catch (e) {}] *)
                  end
                else (cache, resolvedName) in
              (cache',
               Normal (mkLocation (resolve (mapFileDir entry) src)
                                  (if truthy_num (line pos) then line pos else None)
                                  ((fun c => c + 1) <$> column pos)
                                  resolvedName))
          end
      end
  end.

End WithConsumer.

(** *** A consumer over an explicit list of mappings

    The consumer belongs to the source-map library, outside the script.  This
    instance follows its documented lookup, as the sourcemap test of the
    repository exercises it; it serves as a reference implementation of the
    interface above. *)

(** One decoded segment of the [mappings] field. *)
Record Mapping := mkMapping {
  generatedLine : Z;
  generatedColumn_ : Z;
  originalSource : option string;
  originalLine : option Z;
  originalColumn : option Z;
  originalName : option string
}.

Record ListConsumer := mkListConsumer {
  mappings : list Mapping;
  sourcesContent : gmap string string
}.

(** Whether [m] is a better answer than [best] for the column under the
    bias: the greatest column at or before it, or the least column at or
    after it. *)
Definition improves (b : Bias) (col : Z) (m : Mapping) (best : option Mapping) : bool :=
  match b with
  | GREATEST_LOWER_BOUND =>
      (generatedColumn_ m <=? col) &&
      match best with
      | Some m' => generatedColumn_ m' <? generatedColumn_ m
      | None => true
      end
  | LEAST_UPPER_BOUND =>
      (col <=? generatedColumn_ m) &&
      match best with
      | Some m' => generatedColumn_ m <? generatedColumn_ m'
      | None => true
      end
  end.

Fixpoint findMapping (b : Bias) (ln col : Z) (l : list Mapping) (best : option Mapping)
  : option Mapping :=
  match l with
  | [] => best
  | m :: l' =>
      if (generatedLine m =? ln) && improves b col m best
      then findMapping b ln col l' (Some m)
      else findMapping b ln col l' best
  end.

Definition nullPosition : Position := mkPosition None None None None.

(** The documented contract of [originalPositionFor]: an error for a line
    below 1 or a column below 0; otherwise the mapping of the same generated
    line that is closest to the column under the bias, or nulls. *)
Definition list_originalPositionFor (c : ListConsumer) (ln : option Z) (col : Z)
  (bias : option Bias) : Completion Position :=
  if match ln with Some l => l <? 1 | None => false end then Thrown
  else if col <? 0 then Thrown
  else
    match ln with
    | None => Normal nullPosition
    | Some ln =>
        match findMapping (default GREATEST_LOWER_BOUND bias) ln col (mappings c) None with
        | Some m => Normal (mkPosition (originalSource m) (originalLine m) (originalColumn m)
                                       (originalName m))
        | None => Normal nullPosition
        end
    end.

#[global] Instance ListConsumer_Consumer : Consumer ListConsumer := {
  originalPositionFor := list_originalPositionFor;
  sourceContentFor c src := Normal (sourcesContent c !! src)
}.

(** Paths as plain strings: joining a directory and a relative name. *)
Definition plainPath : Path := {|
  normalize p := p;
  resolve dir rel := dir +:+ "/" +:+ rel
|}.

(** *** Vocabulary of the statements *)

(** The location [mappingInfo] builds from a position with a source. *)
Definition resolved_from {C} `{Path} (entry : Entry C) (pos : Position)
  (r : Cache * Completion Location) : Prop :=
  exists cache' loc',
    r = (cache', Normal loc') /\
    Some (file loc') = resolve (mapFileDir entry) <$> source pos /\
    loc_line loc' = (if truthy_num (line pos) then line pos else None) /\
    loc_column loc' = (fun c => c + 1) <$> column pos /\
    (truthy_opt (name pos) = true -> loc_name loc' = name pos).

(** A mapping answers a lookup under LEAST_UPPER_BOUND when it lies on the
    generated line at or after the column. *)
Definition at_or_after (ln col : Z) (m : Mapping) : Prop :=
  generatedLine m = ln /\ col <= generatedColumn_ m.

Definition position_of (m : Mapping) : Position :=
  mkPosition (originalSource m) (originalLine m) (originalColumn m) (originalName m).

(** *** Sample maps *)

Definition nl : string := String "010"%char EmptyString.

(** The synthetic map of the tests: one mapping at column 350 of line 1. *)
Definition turbopackMap : ListConsumer :=
  mkListConsumer
    [mkMapping 1 350 (Some "original.ts") (Some 1) (Some 0) (Some "myFunction")]
    {["original.ts" :=
        "function myFunction(arg1, arg2) {" +:+ nl +:+
        "  return arg1 + arg2;" +:+ nl +:+ "}" +:+ nl]}.

(** A map without names whose source content is kept. *)
Definition namelessMap : ListConsumer :=
  mkListConsumer
    [mkMapping 1 400 (Some "../src/utils.ts") (Some 1) (Some 0) None]
    {["../src/utils.ts" :=
        "function getCustomFormFields(state) {" +:+ nl +:+
        "  return state.fields;" +:+ nl +:+ "}"]}.

Definition sampleInfoMap : gmap string (Entry ListConsumer) :=
  {["/app/dist/generated.js" := mkEntry "/app/dist" turbopackMap;
    "/app/dist/bundle.js" := mkEntry "/app/dist" namelessMap]}.

Definition inGenerated : Location :=
  mkLocation "/app/dist/generated.js" (Some 1) (Some 1) (Some "eY").

Definition inBundle : Location :=
  mkLocation "/app/dist/bundle.js" (Some 1) (Some 12) (Some "eY").

(** A location of the mapped file that carries line 0. *)
Definition atLineZero : Location :=
  mkLocation "/app/dist/generated.js" (Some 0) (Some 1) (Some "eY").

End SourceMap.

(** ** The library: loading a profile *)

Module Lib.

(** A promise settles with a value or with an error message. *)
Inductive Settled (A : Type) :=
| Fulfilled (a : A)
| Rejected (message : string).
Arguments Fulfilled {A} a.
Arguments Rejected {A} message.

(** [zlib.gunzipSync]; it throws on input that is not a gzip stream. *)
Class Zlib := { gunzipSync : list Z -> Settled (list Z) }.

(** [Profile.decode] of pprof-format. *)
Class PprofFormat (Profile : Type) := { decode : list Z -> Settled Profile }.

(** [data[0] === 0x1f && data[1] === 0x8b] *)
Definition isGzipped (data : list Z) : bool :=
  bool_decide (data !! 0%nat = Some 0x1f) && bool_decide (data !! 1%nat = Some 0x8b).

(** [parseProfile(filePath)] over a file system that maps paths to the
    bytes of the files. *)
Definition parseProfile {Profile} `{Zlib} `{PprofFormat Profile}
  (fs : gmap string (list Z)) (filePath : string) : Settled Profile :=
  match fs !! filePath with
  | None => Rejected ("Profile file not found: " +:+ filePath)
  | Some data =>
      if isGzipped data then
        match gunzipSync data with
        | Fulfilled data' => decode data'
        | Rejected e => Rejected e
        end
      else decode data
  end.

(** *** A sample codec *)





End Lib.

(** ** Vocabulary for the renderings of a stop *)

Module Rendering.
Import JsString Controller.

(** The renderer calls for a list of profile files: for every file the
    flamegraph, then the markdown analysis in the configured format. *)
Definition renderings (fmt : string) (names : list string) : list Call :=
  flat_map (fun n => [GenerateFlamegraph n (htmlOf n); GenerateMarkdown n (mdOf n) fmt])
           names.

(** A call into the samplers, the clock or the file system. *)
Definition is_sampler_call (c : Call) : bool := negb (is_render_call c).

Definition not_dot (a : ascii) : bool := negb (is_char "." a).

Definition not_colon_dot (a : ascii) : bool := negb (is_char ":" a || is_char "." a).

(** The heap part of a stop fails when one of its four calls throws. *)
Definition heap_failure (w : StopWorld) : Prop :=
  heapProfile w = Throws \/ heapStop w = Throws \/ heapEncode w = Throws \/
  heapWrite w = Throws.

(** As [calm], but writing the heap profile throws. *)
Definition heapWriteThrows : StopWorld :=
  mkStopWorld ticking Returns Returns Returns Returns Returns Returns Throws
              Returns Returns Returns Returns.

End Rendering.

(** ** Vocabulary for the life of the process *)

Module Lifecycle.
Import JsString Controller Process.

(** How many awaits a suspended [stopProfilerAndSave(true)] has in front of
    it at most, the one it is suspended at included. *)
Definition remaining (a : Await) : nat :=
  match a with
  | AwaitCpuHtml => 4
  | AwaitCpuMd => 3
  | AwaitHeapHtml => 2
  | AwaitHeapMd => 1
  end.

Definition is_toggle_signal (e : Event) : bool :=
  match e with SIGUSR2 _ => true | _ => false end.



(** No stop is in flight while the latch is open. *)
Definition pending_inv (p : Proc) : Prop :=
  exitHandlerCalled p = false -> activations p = [].

(** Nothing has been started, scheduled or written, and the auto-start
    block has not run. *)
Definition never_started (p : Proc) : Prop :=
  calls (st p) = [] /\ written (st p) = [] /\ both_stopped (st p) /\
  timers p = [] /\ awaitingMapper p = 0%nat /\ activations p = [] /\
  autoStarts p = 0%nat /\ autoStart p = false.

Definition with_delay (d : option string) (e : Env) : Env :=
  mkEnv (FLAME_AUTO_START e) d (FLAME_SOURCEMAP_DIRS e) (FLAME_NODE_MODULES_SOURCE_MAPS e)
        (FLAME_MD_FORMAT e) (platform e) (delimiter e).

(** A delay that the preload script reports as invalid: not one of the two
    words, and [parseInt] gives NaN or a negative number. *)
Definition invalid_delay (d : string) : Prop :=
  truthy d = true /\ d <> "none"%string /\ d <> "until-started"%string /\
  match parseInt10 d with
  | NaN => True
  | Finite ms => ms < 0
  | Infinity negative => negative = true
  end.

(** Only white space and separators. *)
Definition blank_or_sep (sep : ascii) (s : string) : bool :=
  Regex.all_chars (fun a => is_space a || is_char sep a) s.

(** The text of a variable that may be unset. *)
Definition text_of (v : option string) : string := default EmptyString v.

(** *** Sample processes and environments *)

(** A process whose graceful stop, begun by [beforeExit], awaits the CPU
    flamegraph; the heap profiler is still running. *)
Definition stoppingGracefully : Proc :=
  step (preload noDelay calmToggle) (BeforeExit calm).

Definition manualEnv : Env := mkEnv None None None None None "linux" ":".
Definition soonEnv : Env := mkEnv (Some "true") (Some "soon") None None None "linux" ":".

End Lifecycle.

(** ** Vocabulary for the extracted names *)

Module Names.
Import JsString Regex.

(** Every capturing group of the expression is the identifier group. *)
Fixpoint captures_ident (r : regex) : Prop :=
  match r with
  | Cat r1 r2 => captures_ident r1 /\ captures_ident r2
  | Opt r' => captures_ident r'
  | Group r' => r' = Cat (Cls ident_start) (Star ident_char)
  | _ => True
  end.

(** The expression ends with a class that only admits the opening
    parenthesis. *)
Fixpoint ends_with_lparen (r : regex) : Prop :=
  match r with
  | Cat _ r2 => ends_with_lparen r2
  | Cls p => forall a, p a = true -> is_char "(" a = true
  | _ => False
  end.

(** What group 1 holds: nothing yet, or an identifier that occurs in the
    line. *)
Definition captured_from (whole : string) (c : option string) : Prop :=
  match c with
  | Some n => is_identifier n = true /\ exists pre post, whole = pre +:+ n +:+ post
  | None => True
  end.

Definition not_lparen (a : ascii) : bool := negb (is_char "(" a).

End Names.

(** ** The lines that the second and third pattern are written for *)

Module Shapes.
Import JsString Regex.

(** [[=:]] *)
Definition eq_or_colon (a : ascii) : bool := is_char "=" a || is_char ":" a.

Definition not_eq_or_colon (a : ascii) : bool := negb (eq_or_colon a).

(** The text is empty or ends outside an identifier. *)
Fixpoint ends_outside_ident (s : string) : bool :=
  match s with
  | EmptyString => true
  | String a EmptyString => negb (ident_char a)
  | String _ r => ends_outside_ident r
  end.

(** A call-like line: indentation, a name, white space, a parenthesis. *)
Definition shorthand (ws name ws2 rest : string) : string :=
  ws +:+ name +:+ ws2 +:+ "(" +:+ rest.

(** An assignment-like line: some text, a name, white space, [=] or [:],
    white space, a parenthesis. *)
Definition assignment (pre name ws1 : string) (e : ascii) (ws2 rest : string) : string :=
  pre +:+ name +:+ ws1 +:+ String e (ws2 +:+ "(" +:+ rest).

End Shapes.

(** ** The library: spawning the profiled process *)

Module Supervisor.
Import JsString Controller Process.

(** The [options] argument of [startProfiling]; [None] is a property that
    the object does not have. *)
Record Options := mkOptions {
  opt_autoStart : bool;                      (* [options.autoStart] is truthy *)
  opt_nodeOptions : option (list string);
  opt_env : option (gmap string string);
  opt_stdio : option string
}.

(** What [spawn] is called with. *)
Record Spawned := mkSpawned {
  command : string;
  argv : list string;
  stdio : string;
  env : gmap string string
}.

(** [startProfiling(script, args, options)] of the library.  In an object
    literal a later property or spread replaces an earlier property of the
    same name; [m1 ∪ m2] prefers [m1]. *)
Definition startProfiling (preloadPath : string) (processEnv : gmap string string)
  (script : string) (args : list string) (options : Options) : Spawned :=
  let env :=
    <["FLAME_AUTO_START"%string := if opt_autoStart options then "true" else "false"]>
      (default ∅ (opt_env options) ∪ processEnv) in
  let nodeArgs :=
    default [] (opt_nodeOptions options) ++ ["-r"; preloadPath; script]%string ++ args in
  mkSpawned "node" nodeArgs
            (default "inherit"%string (opt_stdio options))
            (default env (opt_env options)).

(** [process.env] of the child as the preload script reads it. *)
Definition envOf (m : gmap string string) (platform : string) (delimiter : ascii) : Env :=
  mkEnv (m !! "FLAME_AUTO_START"%string) (m !! "FLAME_DELAY"%string)
        (m !! "FLAME_SOURCEMAP_DIRS"%string) (m !! "FLAME_NODE_MODULES_SOURCE_MAPS"%string)
        (m !! "FLAME_MD_FORMAT"%string) platform delimiter.

(** The child that [startProfiling] spawns, after its preload script. *)
Definition child (preloadPath : string) (processEnv : gmap string string)
  (script : string) (args : list string) (options : Options)
  (platform : string) (delimiter : ascii) (w : ToggleWorld) : Proc :=
  preload (envOf (env (startProfiling preloadPath processEnv script args options))
                 platform delimiter) w.

(** *** Sample calls *)

Definition shellEnv : gmap string string :=
  {["PATH"%string := "/usr/bin"%string; "FLAME_AUTO_START"%string := "false"%string]}.

Definition autoOptions : Options := mkOptions true None None None.

Definition autoOptionsWithEnv : Options :=
  mkOptions true None (Some {["NODE_ENV"%string := "production"%string]}) None.

End Supervisor.

(** ** Sourcemaps of packages in [node_modules] *)

Module NodeModules.
Import JsString Controller Regex SourceMap.

(** [path.join], [path.dirname], [path.basename(p, ext)] and [path.sep]. *)
Class PathParts := {
  join : list string -> string;
  dirname : string -> string;
  basename : string -> string -> string;
  sep : ascii
}.

(** *** [resolveModulePath] *)

Fixpoint lastIndexOf_from (pat s : string) (i : nat) (best : option nat) : option nat :=
  let best' := if startsWith pat s then Some i else best in
  match s with
  | EmptyString => best'
  | String _ r => lastIndexOf_from pat r (S i) best'
  end.

(** [s.lastIndexOf(pat)]; [None] is [-1]. *)
Definition lastIndexOf (pat s : string) : option nat := lastIndexOf_from pat s 0 None.

Section Resolve.
Context `{PathParts}.

(** [require.resolve(moduleName, { paths: [appPath] })]: the resolved file,
    or an exception. *)
Variable requireResolve : string -> string -> Completion string.

(** [resolveModulePath(appPath, moduleName)]; [None] is [null].  [split]
    returns at least one part; a missing [parts[1]] is [undefined], which
    makes [path.join] throw, and the [catch] returns [null]. *)
Definition resolveModulePath (appPath moduleName : string) : option string :=
  match requireResolve moduleName appPath with
  | Thrown => None
  | Normal resolved =>
      match lastIndexOf "node_modules" resolved with
      | None => None
      | Some nodeModulesIndex =>
          let afterNodeModules :=
            drop_chars (nodeModulesIndex + String.length "node_modules" + 1) resolved in
          let parts := split sep afterNodeModules in
          let root := take_chars nodeModulesIndex resolved in
          if startsWith "@" moduleName then
            match parts with
            | p0 :: p1 :: _ => Some (join [root; "node_modules"%string; p0; p1])
            | _ => None
            end
          else
            match parts with
            | p0 :: _ => Some (join [root; "node_modules"%string; p0])
            | [] => None
            end
      end
  end.

End Resolve.

(** *** [walkForMapFiles] *)

(** The end of the input: the anchor [$] as the last continuation. *)
Definition at_end : cont unit := fun _ s _ =>
  match s with EmptyString => Some tt | String _ _ => None end.

(** [re.test(s)] for an expression that ends with [$]. *)
Fixpoint test_to_end (r : regex) (i : nat) (s : string) : bool :=
  match matches r i s None at_end with
  | Some _ => true
  | None =>
      match s with
      | EmptyString => false
      | String _ s' => test_to_end r (S i) s'
      end
  end.

(** [/\.[cm]?js\.map$/] without its anchor *)
Definition mapFileRe : regex :=
  Cat (Cls (is_char "."))
  (Cat (Opt (Cls (fun a => is_char "c" a || is_char "m" a)))
       (Lit "js.map")).

Definition isMapFile (name : string) : bool := test_to_end mapFileRe 0 name.

#[local] Set Warnings "-register-all".

(** A directory entry: a file, a directory with what [opendir] gives for it
    ([readable] is false when [opendir] throws), or something else. *)
Inductive Dirent :=
| FileEnt (name : string)
| DirEnt (name : string) (readable : bool) (entries : list Dirent)
| OtherEnt (name : string).

Section Walk.
Context `{PathParts}.

(** One turn of the [for await] loop of [walkRecursive(currentDir)]: the
    paths it yields, in order. *)
Fixpoint walkEntry (currentDir : string) (entry : Dirent) : list string :=
  match entry with
  | DirEnt name readable entries =>
      if bool_decide (name = ".git"%string) then []
      else if readable then flat_map (walkEntry (join [currentDir; name])) entries
      else []
  | FileEnt name =>
      if isMapFile name then [join [currentDir; name]] else []
  | OtherEnt _ => []
  end.

(** [walkForMapFiles(dir)] *)
Definition walkForMapFiles (dir : string) (readable : bool) (entries : list Dirent)
  : list string :=
  if readable then flat_map (walkEntry dir) entries else [].

End Walk.

(** *** [processSourceMapFile], [loadNodeModulesSourceMaps] and the merge *)

Section Load.
Context {C : Type} `{Path} `{PathParts}.

(** [readFile] and [new SourceMapConsumer]: the consumer, or [None] when
    either throws. *)
Variable readConsumer : string -> option C.
(** [consumer.file] *)
Variable consumerFile : C -> option string.
(** [fsPromises.access(p)] resolves. *)
Variable access : string -> bool.
(** [opendir] of a package directory: readable or not, and its entries. *)
Variable opendir : string -> bool * list Dirent.
Variable requireResolve : string -> string -> Completion string.
(** [process.cwd()] *)
Variable cwd : string.

Definition generatedPathCandidates (mapPath : string) (consumer : C) : list string :=
  let dir := dirname mapPath in
  (if truthy_opt (consumerFile consumer)
   then [resolve dir (default EmptyString (consumerFile consumer))] else [])
  ++ [resolve dir (basename mapPath ".map")].

(** [processSourceMapFile(mapPath)]; [None] is [null]. *)
Definition processSourceMapFile (mapPath : string) : option (string * Entry C) :=
  match readConsumer mapPath with
  | None => None
  | Some consumer =>
      match List.find access (generatedPathCandidates mapPath consumer) with
      | Some generatedPath => Some (generatedPath, mkEntry (dirname mapPath) consumer)
      | None => None
      end
  end.

(** The inner loop of [loadNodeModulesSourceMaps]. *)
Definition loadMapFiles (entries : gmap string (Entry C)) (mapFiles : list string)
  : gmap string (Entry C) :=
  foldl (fun entries mapFile =>
           match processSourceMapFile mapFile with
           | Some (generatedPath, info) => <[generatedPath := info]> entries
           | None => entries
           end) entries mapFiles.

(** One turn of the outer loop; [if (!modulePath) continue]. *)
Definition loadModule (entries : gmap string (Entry C)) (moduleName : string)
  : gmap string (Entry C) :=
  match resolveModulePath requireResolve cwd moduleName with
  | None => entries
  | Some modulePath =>
      if truthy modulePath then
        loadMapFiles entries
          (walkForMapFiles modulePath (opendir modulePath).1 (opendir modulePath).2)
      else entries
  end.

(** [loadNodeModulesSourceMaps(moduleNames)] *)
Definition loadNodeModulesSourceMaps (moduleNames : list string) : gmap string (Entry C) :=
  foldl loadModule ∅ moduleNames.

(** What holds of an entry that the loader keeps: the generated file is
    accessible, and the entry comes from a map file that could be read. *)
Definition kept (k : string) (e : Entry C) : Prop :=
  access k = true /\
  exists mapPath,
    readConsumer mapPath = Some (mapConsumer e) /\
    mapFileDir e = dirname mapPath /\
    In k (generatedPathCandidates mapPath (mapConsumer e)).

End Load.

(** [for (const [generatedPath, info] of nodeModulesEntries)
      mapper.infoMap.set(generatedPath, info)] *)
Definition mergeNodeModules {C} (infoMap nodeModulesEntries : gmap string (Entry C))
  : gmap string (Entry C) :=
  map_fold (fun generatedPath info m => <[generatedPath := info]> m)
           infoMap nodeModulesEntries.

(** *** Vocabulary of the statements *)

Definition has_suffix (suffix s : string) : Prop := exists pre, s = pre +:+ suffix.

(** The pattern occurs in the text. *)
Fixpoint occurs (pat s : string) : bool :=
  startsWith pat s ||
  match s with
  | EmptyString => false
  | String _ r => occurs pat r
  end.

Definition no_sep `{PathParts} (s : string) : bool :=
  all_chars (fun a => negb (is_char sep a)) s.

(** The entries of unreadable directories and of [.git] directories are
    dropped, at every depth. *)
Fixpoint prune (entry : Dirent) : Dirent :=
  match entry with
  | DirEnt name readable entries =>
      if bool_decide (name = ".git"%string) || negb readable then DirEnt name readable []
      else DirEnt name readable (List.map prune entries)
  | _ => entry
  end.

(** *** A sample installation *)

(** Paths with [/]: joining drops one trailing separator of every part. *)
Definition chomp (s : string) : string :=
  match String.rev s with
  | String a r => if is_char "/" a then String.rev r else s
  | EmptyString => s
  end.

Fixpoint slashJoin (parts : list string) : string :=
  match parts with
  | [] => "."
  | [p] => chomp p
  | p :: rest => chomp p +:+ "/" +:+ slashJoin rest
  end.

Definition slashDirname (p : string) : string :=
  match lastIndexOf "/" p with
  | Some i => take_chars i p
  | None => "."
  end.

Definition slashBasename (p ext : string) : string :=
  let b := match lastIndexOf "/" p with
           | Some i => drop_chars (S i) p
           | None => p
           end in
  if startsWith (String.rev ext) (String.rev b)
  then take_chars (String.length b - String.length ext) b
  else b.

Definition slashParts : PathParts := {|
  join := slashJoin;
  dirname := slashDirname;
  basename := slashBasename;
  sep := "/"
|}.

(** An application in [/app] with the package [next] installed; its
    [dist] directory holds one generated file with its map. *)
Definition sampleResolve (moduleName appPath : string) : Completion string :=
  if bool_decide (moduleName = "next"%string)
  then Normal "/app/node_modules/next/dist/index.js"%string
  else Thrown.

Definition sampleOpendir (dir : string) : bool * list Dirent :=
  if bool_decide (dir = "/app/node_modules/next"%string)
  then (true,
        [DirEnt "dist" true
           [FileEnt "server.js"; FileEnt "server.js.map"; FileEnt "notes.map"];
         DirEnt ".git" true [FileEnt "hook.js.map"]])
  else (false, []).

Definition sampleRead (mapPath : string) : option ListConsumer :=
  if bool_decide (mapPath = "/app/node_modules/next/dist/server.js.map"%string)
  then Some turbopackMap else None.

Definition sampleAccess (p : string) : bool :=
  bool_decide (p = "/app/node_modules/next/dist/server.js"%string).

Definition sampleLoad : gmap string (Entry ListConsumer) :=
  @loadNodeModulesSourceMaps _ plainPath slashParts sampleRead (fun _ => None)
    sampleAccess sampleOpendir sampleResolve "/app" ["next"; "left-pad"]%string.

End NodeModules.

(** * Properties *)

(** ** The stop functions and the toggle *)

Module ControllerFacts.
Import JsString Controller.

Ltac unfold_js :=
  unfold stopProfilerAndSave, stopProfilerAndSave_call, stopProfilerAndSave_resume,
    stopProfilerQuick, guarded, cpuSegment, heapSegment, markdownSegment, stopCpu,
    stopHeap, stopFailed, writeFileSync, newDateISO, try_catch, toggleProfiler,
    extern, modify, gets, bind, mbind, Js_bind, mret, Js_ret in *.

Ltac open_state s := destruct s as [c h sm fmt cs wr].
Ltac open_world w := destruct w as [clk o1 o2 o3 o4 o5 o6 o7 r1 r2 r3 r4].

Ltac split_on o :=
  match goal with
  | |- context [match o with Returns => _ | Throws => _ end] => destruct o; simpl
  | _ => idtac
  end.

(** Case analysis that follows the control flow: the flags first, then each
    external call in program order, and only while it is still reached. *)
Ltac follow o1 o2 o3 o4 o5 o6 o7 :=
  repeat progress (unfold_js; simpl;
                   split_on o1; split_on o2; split_on o3; split_on o4;
                   split_on o5; split_on o6; split_on o7).

Ltac by_cases c h o1 o2 o3 o4 o5 o6 o7 :=
  destruct c, h; follow o1 o2 o3 o4 o5 o6 o7.

Ltac since :=
  unfold calls_since, written_since; simpl;
  rewrite <- ?app_assoc; simpl;
  first [reflexivity | symmetry; apply app_nil_r | idtac].

Lemma is_cpu_file_cpu ts : is_cpu_file (cpuFilenameOf ts) = true.
Proof. reflexivity. Qed.

Lemma is_cpu_file_heap ts : is_cpu_file (heapFilenameOf ts) = false.
Proof. reflexivity. Qed.

Lemma is_heap_file_heap ts : is_heap_file (heapFilenameOf ts) = true.
Proof. reflexivity. Qed.

Lemma is_heap_file_cpu ts : is_heap_file (cpuFilenameOf ts) = false.
Proof. reflexivity. Qed.

Ltac count_files :=
  simpl;
  rewrite ?is_cpu_file_cpu, ?is_cpu_file_heap, ?is_heap_file_heap, ?is_heap_file_cpu;
  simpl; try lia.

Lemma dates_app l1 l2 : dates (l1 ++ l2) = (dates l1 + dates l2)%nat.
Proof. unfold dates. by rewrite List.filter_app, length_app. Qed.

Lemma cpu_writes_app s l :
  length (List.filter is_cpu_file (written s ++ l))
  = (cpu_writes s + length (List.filter is_cpu_file l))%nat.
Proof. unfold cpu_writes. by rewrite List.filter_app, length_app. Qed.

Lemma heap_writes_app s l :
  length (List.filter is_heap_file (written s ++ l))
  = (heap_writes s + length (List.filter is_heap_file l))%nat.
Proof. unfold heap_writes. by rewrite List.filter_app, length_app. Qed.

(** Neither stop function throws or rejects. *)
Lemma stopProfilerQuick_total w s : exists s' r, stopProfilerQuick w s = (s', Normal r).
Proof.
  open_state s; open_world w.
  by_cases c h o1 o2 o3 o4 o5 o6 o7; eauto.
Qed.

(** Four resumptions are enough: the promise always settles. *)
Lemma stopProfilerAndSave_total g w s :
  exists s' r, stopProfilerAndSave g w s = (s', Resolved r).
Proof.
  open_state s; open_world w.
  destruct g; by_cases c h o1 o2 o3 o4 o5 o6 o7; eauto.
Qed.

(** Without rendering there is no await: the call already settles. *)
Lemma call_false_resolved w s :
  exists r, (stopProfilerAndSave_call false w s).2 = Resolved r.
Proof.
  open_state s; open_world w.
  by_cases c h o1 o2 o3 o4 o5 o6 o7; eauto.
Qed.

Lemma call_false_complete w s :
  stopProfilerAndSave false w s = stopProfilerAndSave_call false w s.
Proof.
  destruct (call_false_resolved w s) as [r Hr].
  unfold stopProfilerAndSave.
  destruct (stopProfilerAndSave_call false w s) as [s' p].
  simpl in Hr. subst p. reflexivity.
Qed.

(** What a toggle in the stop branch is. *)
Lemma toggleProfiler_stop w s :
  is_stop_event s = true ->
  toggleProfiler w s = ((stopProfilerAndSave false (onStop w) s).1, Normal tt).
Proof.
  intros Hs. rewrite call_false_complete.
  unfold toggleProfiler, gets, bind. unfold is_stop_event in Hs.
  destruct (isCpuProfilerRunning s), (isHeapProfilerRunning s); try discriminate;
    reflexivity.
Qed.

#[local] Arguments cpuFilenameOf : simpl never.
#[local] Arguments heapFilenameOf : simpl never.
#[local] Arguments htmlOf : simpl never.
#[local] Arguments mdOf : simpl never.
#[local] Arguments replace_colon_dot : simpl never.
#[local] Arguments dates : simpl never.

Ltac no_failure Hf := exfalso; destruct Hf as [?|[?|?]]; discriminate.

(** After a stop both flags are false; a stop that finds nothing running
    changes nothing. *)
Lemma quick_flags w s :
  both_stopped (stopProfilerQuick w s).1 \/
  (is_stop_event s = false /\ stopProfilerQuick w s = (s, Normal None)).
Proof.
  open_state s; open_world w. unfold both_stopped, is_stop_event.
  destruct c, h; follow o1 o2 o3 o4 o5 o6 o7; auto.
Qed.

Lemma save_flags g w s :
  both_stopped (stopProfilerAndSave g w s).1 \/
  (is_stop_event s = false /\ stopProfilerAndSave g w s = (s, Resolved None)).
Proof.
  open_state s; open_world w. unfold both_stopped, is_stop_event.
  destruct g, c, h; follow o1 o2 o3 o4 o5 o6 o7; auto.
Qed.

(** The start branch of the toggle. *)
Lemma toggleProfiler_start w s s' :
  is_stop_event s = false ->
  toggleProfiler w s = (s', Normal tt) ->
  calls_since s s' [CpuStart (sourceMapper s); HeapStart (512 * 1024) 64] /\
  isCpuProfilerRunning s' = true /\ isHeapProfilerRunning s' = true /\
  written s' = written s.
Proof.
  open_state s. destruct w as [[a1 a2] w]. unfold is_stop_event, calls_since. simpl.
  destruct c, h; try discriminate. intros _.
  unfold_js; simpl. destruct a1, a2; simpl; intros [= <-]; simpl.
  rewrite <- app_assoc. auto.
Qed.

Lemma toggleProfiler_start_returns w s :
  is_stop_event s = false ->
  cpuStart (onStart w) = Returns -> heapStart (onStart w) = Returns ->
  (toggleProfiler w s).2 = Normal tt.
Proof.
  open_state s. destruct w as [[a1 a2] w]. unfold is_stop_event. simpl.
  destruct c, h; try discriminate. intros _ -> ->. reflexivity.
Qed.

(** A toggle that cannot start leaves the flags as they are. *)
Lemma toggleProfiler_start_flags w s :
  is_stop_event s = false ->
  (isCpuProfilerRunning (toggleProfiler w s).1 = true /\
   isHeapProfilerRunning (toggleProfiler w s).1 = true) \/
  both_stopped (toggleProfiler w s).1.
Proof.
  open_state s. destruct w as [[a1 a2] w]. unfold is_stop_event, both_stopped. simpl.
  destruct c, h; try discriminate. intros _.
  unfold_js; simpl. destruct a1, a2; simpl; auto.
Qed.

Lemma toggleProfiler_start_files w s :
  is_stop_event s = false -> written (toggleProfiler w s).1 = written s.
Proof.
  open_state s. destruct w as [[a1 a2] w]. unfold is_stop_event. simpl.
  destruct c, h; try discriminate. intros _.
  unfold_js; simpl. destruct a1, a2; reflexivity.
Qed.

(** What a stop without rendering calls and writes. *)
Lemma save_false_effects w s :
  exists l files,
    calls_since s (stopProfilerAndSave false w s).1 l /\
    written_since s (stopProfilerAndSave false w s).1 files /\
    Forall (fun c => is_render_call c = false /\ is_start_call c = false) l /\
    (length (List.filter is_cpu_file files) <= 1)%nat /\
    (length (List.filter is_heap_file files) <= 1)%nat.
Proof.
  open_state s; open_world w.
  destruct c, h; follow o1 o2 o3 o4 o5 o6 o7;
    eexists; eexists; (split; [since|]); (split; [since|]);
    (split; [repeat constructor | split; count_files]).
Qed.

Ltac count_written :=
  unfold cpu_writes, heap_writes; simpl;
  rewrite <- ?app_assoc, ?List.filter_app, ?length_app; count_files.

(** A stop writes at most one file of each kind. *)
Lemma stop_writes_le w s :
  (cpu_writes (stopProfilerAndSave false w s).1 <= cpu_writes s + 1)%nat /\
  (heap_writes (stopProfilerAndSave false w s).1 <= heap_writes s + 1)%nat.
Proof.
  open_state s; open_world w.
  destruct c, h; follow o1 o2 o3 o4 o5 o6 o7; split; count_written.
Qed.

(** When nothing throws and both run, it writes exactly one of each. *)
Lemma stop_writes_eq w s :
  stop_succeeds w ->
  isCpuProfilerRunning s = true -> isHeapProfilerRunning s = true ->
  cpu_writes (stopProfilerAndSave false w s).1 = (cpu_writes s + 1)%nat /\
  heap_writes (stopProfilerAndSave false w s).1 = (heap_writes s + 1)%nat.
Proof.
  open_state s; open_world w. unfold stop_succeeds. simpl.
  intros (-> & -> & -> & -> & -> & -> & ->) -> ->.
  unfold_js; simpl. split; count_written.
Qed.

Lemma toggle_step w s :
  flags_equal s ->
  let s' := (toggleProfiler w s).1 in
  flags_equal s' /\
  (cpu_writes s' <= cpu_writes s + stop_count s)%nat /\
  (heap_writes s' <= heap_writes s + stop_count s)%nat /\
  (stop_succeeds (onStop w) ->
   cpu_writes s' = (cpu_writes s + stop_count s)%nat /\
   heap_writes s' = (heap_writes s + stop_count s)%nat).
Proof.
  intros He. simpl. unfold stop_count.
  destruct (is_stop_event s) eqn:Hs.
  - rewrite (toggleProfiler_stop w s Hs). simpl.
    destruct (stop_writes_le (onStop w) s) as [Hc Hh].
    split; [|split; [exact Hc|split; [exact Hh|]]].
    + destruct (save_flags false (onStop w) s) as [[H1 H2]|[H1 H2]].
      * unfold flags_equal. congruence.
      * congruence.
    + intros Hok. apply stop_writes_eq; trivial.
      all: unfold is_stop_event, flags_equal in *;
        destruct (isCpuProfilerRunning s), (isHeapProfilerRunning s);
        simpl in *; congruence.
  - unfold cpu_writes, heap_writes. rewrite (toggleProfiler_start_files w s Hs).
    split; [|repeat split; lia].
    destruct (toggleProfiler_start_flags w s Hs) as [[H1 H2]|[H1 H2]];
      unfold flags_equal; congruence.
Qed.

(** Induction over the toggles, from any state whose flags agree. *)
Lemma toggles_writes ws : forall s,
  flags_equal s ->
  (cpu_writes (toggles ws s) <= cpu_writes s + completed_pairs ws s)%nat /\
  (heap_writes (toggles ws s) <= heap_writes s + completed_pairs ws s)%nat /\
  (Forall (fun w => stop_succeeds (onStop w)) ws ->
   cpu_writes (toggles ws s) = (cpu_writes s + completed_pairs ws s)%nat /\
   heap_writes (toggles ws s) = (heap_writes s + completed_pairs ws s)%nat).
Proof.
  induction ws as [|w ws IH]; intros s He.
  - simpl. repeat split; lia.
  - destruct (toggle_step w s He) as (He' & Hc & Hh & Heq).
    destruct (IH _ He') as (IHc & IHh & IHeq).
    unfold toggles in *. simpl. fold (stop_count s).
    split; [lia|split; [lia|]].
    intros Hall. inversion Hall as [|? ? Hw Hws]; subst.
    destruct (Heq Hw) as [E1 E2]. destruct (IHeq Hws) as [E3 E4]. lia.
Qed.

(** *** Partial failure *)

(** C1, as amended.  Both sub-profilers are handled inside one [try] block.
    When a sub-profiler is running as the CPU one and stopping, encoding or
    writing the CPU profile throws, the shared [catch] forces both running
    flags to false and the function returns [null]: nothing is written and
    no heap call (profile, stop, encode, write) is made.  This holds for
    [stopProfilerAndSave] and for [stopProfilerQuick]; neither throws. *)
Theorem stop_failure_is_shared g w s :
  isCpuProfilerRunning s = true -> cpu_failure w ->
  (let r := stopProfilerAndSave g w s in
   r.2 = Resolved None /\ both_stopped r.1 /\ written r.1 = written s /\
   exists l, calls_since s r.1 l /\ Forall (fun c => is_heap_call c = false) l) /\
  (let r := stopProfilerQuick w s in
   r.2 = Normal None /\ both_stopped r.1 /\ written r.1 = written s /\
   exists l, calls_since s r.1 l /\ Forall (fun c => is_heap_call c = false) l).
Proof.
  open_state s; open_world w. unfold cpu_failure, both_stopped. simpl.
  intros -> Hf.
  split.
  - destruct g, h; follow o1 o2 o3 o4 o5 o6 o7; try no_failure Hf;
      (repeat split; try reflexivity; eexists; split; [since | repeat constructor]).
  - destruct h; follow o1 o2 o3 o4 o5 o6 o7; try no_failure Hf;
      (repeat split; try reflexivity; eexists; split; [since | repeat constructor]).
Qed.

Lemma stop_failure_is_shared_witness :
  isCpuProfilerRunning bothRunning = true /\ cpu_failure cpuEncodeThrows /\
  (stopProfilerAndSave true cpuEncodeThrows bothRunning).2 = Resolved None /\
  (stopProfilerQuick cpuEncodeThrows bothRunning).2 = Normal None.
Proof.
  assert (H1 : isCpuProfilerRunning bothRunning = true) by reflexivity.
  assert (H2 : cpu_failure cpuEncodeThrows) by (right; left; reflexivity).
  destruct (stop_failure_is_shared true cpuEncodeThrows bothRunning H1 H2)
    as [[Ha _] [Hb _]].
  exact (conj H1 (conj H2 (conj Ha Hb))).
Defined.

(** C1 as stated fails: with both sub-profilers running and an encoder that
    throws on the CPU profile, [stopProfilerAndSave] returns [null], makes no
    heap call and writes no file, so the heap profile is neither written nor
    returned. *)
Lemma cpu_failure_loses_heap_profile :
  stopProfilerAndSave true cpuEncodeThrows bothRunning
  = (mkState false false false "summary" [NewDate; CpuStop; CpuEncode] [], Resolved None) /\
  ~ (exists s' names,
       stopProfilerAndSave true cpuEncodeThrows bothRunning = (s', Resolved (Some names)) /\
       In (heapFilenameOf (timestampAt cpuEncodeThrows bothRunning)) names /\
       In (heapFilenameOf (timestampAt cpuEncodeThrows bothRunning)) (written s')).
Proof.
  assert (E : stopProfilerAndSave true cpuEncodeThrows bothRunning
              = (mkState false false false "summary" [NewDate; CpuStop; CpuEncode] [],
                 Resolved None)) by reflexivity.
  split; [exact E|].
  intros (s' & names & H & _). rewrite E in H. discriminate H.
Qed.

(** When the CPU part succeeds and the heap part throws, the CPU file stays
    written, but the names collected so far are dropped: the result is
    [null], not a partial list. *)
Lemma heap_failure_discards_names w s :
  isCpuProfilerRunning s = true -> isHeapProfilerRunning s = true ->
  cpuStop w = Returns -> cpuEncode w = Returns -> cpuWrite w = Returns ->
  heapEncode w = Throws ->
  (stopProfilerAndSave false w s).2 = Resolved None /\
  written (stopProfilerAndSave false w s).1
  = written s ++ [cpuFilenameOf (timestampAt w s)] /\
  both_stopped (stopProfilerAndSave false w s).1.
Proof.
  open_state s; open_world w. unfold both_stopped, timestampAt. simpl.
  intros -> -> -> -> -> ->. follow o1 o2 o3 o4 o5 o6 o7; repeat split.
Qed.

(** *** One timestamp per stop event *)

(** C3.  Whenever a stop event (one call of [stopProfilerAndSave] or of
    [stopProfilerQuick]) returns its list of names, the clock has been read
    exactly once; with [ts] the timestamp made from that single reading
    (its colons and dots replaced by dashes), the names returned and the
    files written are ['cpu-profile-' + ts + '.pb'] when the CPU profiler
    was running, followed by ['heap-profile-' + ts + '.pb'] when the heap
    profiler was running: both names embed the same [ts]. *)
Theorem stop_event_shares_timestamp g w s s' names :
  stopProfilerAndSave g w s = (s', Resolved (Some names)) \/
  stopProfilerQuick w s = (s', Normal (Some names)) ->
  let ts := replace_colon_dot (clock w (dates (calls s))) in
  names
  = (if isCpuProfilerRunning s then ["cpu-profile-" +:+ ts +:+ ".pb"] else []) ++
    (if isHeapProfilerRunning s then ["heap-profile-" +:+ ts +:+ ".pb"] else []) /\
  written s' = written s ++ names /\
  dates (calls s') = S (dates (calls s)).
Proof.
  cbv zeta.
  change ("cpu-profile-" +:+ replace_colon_dot (clock w (dates (calls s))) +:+ ".pb")
    with (cpuFilenameOf (replace_colon_dot (clock w (dates (calls s))))).
  change ("heap-profile-" +:+ replace_colon_dot (clock w (dates (calls s))) +:+ ".pb")
    with (heapFilenameOf (replace_colon_dot (clock w (dates (calls s))))).
  open_state s; open_world w.
  intros [Hr | Hr]; revert Hr.
  - destruct g, c, h; follow o1 o2 o3 o4 o5 o6 o7; intros [= <- <-]; simpl;
      rewrite <- ?app_assoc, ?dates_app; simpl;
      (split; [reflexivity | split; [reflexivity | unfold dates; simpl; lia]]).
  - destruct c, h; follow o1 o2 o3 o4 o5 o6 o7; intros [= <- <-]; simpl;
      rewrite <- ?app_assoc, ?dates_app; simpl;
      (split; [reflexivity | split; [reflexivity | unfold dates; simpl; lia]]).
Qed.

(** The same holds when other handlers run during the awaits: a suspended
    activation carries the timestamp of its call, and resuming it never reads
    the clock again and writes at most the heap file of that timestamp. *)
Lemma suspended_frame_timestamp g w s s' a f :
  stopProfilerAndSave_call g w s = (s', Suspended a f) ->
  timestamp f = timestampAt w s /\ world f = w /\
  dates (calls s') = S (dates (calls s)).
Proof.
  open_state s; open_world w. unfold timestampAt.
  destruct g, c, h; follow o1 o2 o3 o4 o5 o6 o7; intros [= <- <- <-]; simpl;
    rewrite <- ?app_assoc, ?dates_app; simpl;
    (split; [reflexivity | split; [reflexivity | unfold dates; simpl; lia]]).
Qed.

Lemma resume_keeps_timestamp a f o s :
  dates (calls (stopProfilerAndSave_resume a f o s).1) = dates (calls s) /\
  (written (stopProfilerAndSave_resume a f o s).1 = written s \/
   written (stopProfilerAndSave_resume a f o s).1
   = written s ++ [heapFilenameOf (timestamp f)]) /\
  (forall a' f', (stopProfilerAndSave_resume a f o s).2 = Suspended a' f' ->
                 timestamp f' = timestamp f).
Proof.
  open_state s. destruct f as [g ts fl w]. open_world w.
  destruct a, g, h; follow o1 o2 o3 o4 o5 o6 o7;
    rewrite <- ?app_assoc, ?dates_app;
    (split; [unfold dates; simpl; lia |
             split; [auto | intros a' f' [=]; subst; reflexivity]]).
Qed.

Lemma stop_event_shares_timestamp_witness :
  stopProfilerQuick calm bothRunning
  = ((stopProfilerQuick calm bothRunning).1,
     Normal (Some ["cpu-profile-2026-03-01T10-20-30-456Z.pb";
                   "heap-profile-2026-03-01T10-20-30-456Z.pb"])) /\
  ["cpu-profile-2026-03-01T10-20-30-456Z.pb"; "heap-profile-2026-03-01T10-20-30-456Z.pb"]
  = ["cpu-profile-" +:+ replace_colon_dot (clock calm 0) +:+ ".pb";
     "heap-profile-" +:+ replace_colon_dot (clock calm 0) +:+ ".pb"].
Proof.
  assert (H : stopProfilerQuick calm bothRunning
              = ((stopProfilerQuick calm bothRunning).1,
                 Normal (Some ["cpu-profile-2026-03-01T10-20-30-456Z.pb";
                               "heap-profile-2026-03-01T10-20-30-456Z.pb"])))
    by reflexivity.
  split; [exact H|].
  exact (proj1 (stop_event_shares_timestamp false calm bothRunning _ _ (or_intror H))).
Defined.

(** *** Files and start-stop pairs *)

(** The names are built around the timestamp and determine it. *)
Lemma string_append_length (u v : string) :
  String.length (u +:+ v) = (String.length u + String.length v)%nat.
Proof.
  induction u as [|a u IH]; [reflexivity|].
  change (String a u +:+ v) with (String a (u +:+ v)). simpl. by rewrite IH.
Qed.

Lemma string_append_inj_l (p u v : string) : p +:+ u = p +:+ v -> u = v.
Proof.
  induction p as [|a p IH]; [intros E; exact E|].
  change (String a (p +:+ u) = String a (p +:+ v) -> u = v).
  intros [= E]. exact (IH E).
Qed.

Lemma string_append_inj_r (t : string) : forall u v, u +:+ t = v +:+ t -> u = v.
Proof.
  induction u as [|a u IH]; intros [|b v] E.
  - reflexivity.
  - apply (f_equal String.length) in E. rewrite !string_append_length in E.
    simpl in E. lia.
  - apply (f_equal String.length) in E. rewrite !string_append_length in E.
    simpl in E. lia.
  - change (String a (u +:+ t) = String b (v +:+ t)) in E.
    injection E as -> E. f_equal. exact (IH v E).
Qed.

Lemma cpuFilenameOf_inj u v : cpuFilenameOf u = cpuFilenameOf v -> u = v.
Proof.
  intros E. unfold cpuFilenameOf in E.
  exact (string_append_inj_r _ _ _ (string_append_inj_l _ _ _ E)).
Qed.

Lemma heapFilenameOf_inj u v : heapFilenameOf u = heapFilenameOf v -> u = v.
Proof.
  intros E. unfold heapFilenameOf in E.
  exact (string_append_inj_r _ _ _ (string_append_inj_l _ _ _ E)).
Qed.

Lemma remove_dups_length_le (l : list string) :
  (length (remove_dups l) <= length l)%nat.
Proof.
  induction l as [|x l IH]; [reflexivity|].
  simpl. destruct (decide_rel elem_of x l); simpl; lia.
Qed.

Lemma remove_dups_NoDup (l : list string) : NoDup l -> remove_dups l = l.
Proof.
  induction 1 as [|x l Hx Hl IH]; [reflexivity|].
  simpl. destruct (decide_rel elem_of x l); [contradiction|]. by rewrite IH.
Qed.

(** Files never outnumber the writes that made them. *)
Lemma files_le_writes s :
  (cpu_files s <= cpu_writes s)%nat /\ (heap_files s <= heap_writes s)%nat.
Proof. split; apply remove_dups_length_le. Qed.

Lemma filter_cpu_pairs l :
  List.filter is_cpu_file (flat_map pair_of l) = cpuFilenameOf <$> l.
Proof.
  induction l as [|ts l IH]; [reflexivity|].
  cbn [flat_map pair_of app List.filter fmap list_fmap].
  rewrite is_cpu_file_cpu, is_cpu_file_heap. f_equal. exact IH.
Qed.

Lemma filter_heap_pairs l :
  List.filter is_heap_file (flat_map pair_of l) = heapFilenameOf <$> l.
Proof.
  induction l as [|ts l IH]; [reflexivity|].
  cbn [flat_map pair_of app List.filter fmap list_fmap].
  rewrite is_heap_file_cpu, is_heap_file_heap. f_equal. exact IH.
Qed.

(** A stop in which nothing throws writes the two files of its timestamp. *)
Lemma stop_written_eq w s :
  stop_succeeds w ->
  isCpuProfilerRunning s = true -> isHeapProfilerRunning s = true ->
  written (stopProfilerAndSave false w s).1 = written s ++ pair_of (timestampAt w s).
Proof.
  open_state s; open_world w. unfold stop_succeeds, timestampAt, pair_of. simpl.
  intros (-> & -> & -> & -> & -> & -> & ->) -> ->.
  unfold_js; simpl. rewrite <- app_assoc. reflexivity.
Qed.

(** When no stop fails, the files written are the pairs of the stop
    timestamps, one pair per completed start-then-stop pair. *)
Lemma toggles_written ws : forall s,
  flags_equal s ->
  Forall (fun w => stop_succeeds (onStop w)) ws ->
  written (toggles ws s) = written s ++ flat_map pair_of (stop_timestamps ws s) /\
  completed_pairs ws s = length (stop_timestamps ws s).
Proof.
  induction ws as [|w ws IH]; intros s He Hall.
  - simpl. rewrite app_nil_r. split; reflexivity.
  - inversion Hall as [|? ? Hw Hws]; subst.
    destruct (toggle_step w s He) as (He' & _).
    destruct (IH _ He' Hws) as [IHw IHc].
    unfold toggles in *. cbn [foldl completed_pairs stop_timestamps].
    rewrite IHw, IHc.
    destruct (is_stop_event s) eqn:Hs.
    + rewrite (toggleProfiler_stop w s Hs). cbn [fst].
      assert (Hb : isCpuProfilerRunning s = true /\ isHeapProfilerRunning s = true).
      { unfold is_stop_event, flags_equal in *.
        destruct (isCpuProfilerRunning s), (isHeapProfilerRunning s);
          simpl in *; split; congruence. }
      destruct Hb as [Hb1 Hb2].
      rewrite (stop_written_eq (onStop w) s Hw Hb1 Hb2).
      cbn [flat_map app]. rewrite <- !app_assoc. split; reflexivity.
    + rewrite (toggleProfiler_start_files w s Hs). split; reflexivity.
Qed.

(** C4, as amended.  For every sequence of toggles from the idle state, the
    number of profile files there are afterwards, per sub-profiler, never
    exceeds the number of start-then-stop pairs the sequence completes; it
    equals that number when no stop, encode or write call throws and the
    stops have pairwise different timestamps (a second stop within the same
    millisecond writes the same two names again). *)
Theorem toggles_never_exceed_pairs ws fmt :
  (cpu_files (toggles ws (idle fmt)) <= completed_pairs ws (idle fmt))%nat /\
  (heap_files (toggles ws (idle fmt)) <= completed_pairs ws (idle fmt))%nat /\
  (Forall (fun w => stop_succeeds (onStop w)) ws ->
   NoDup (stop_timestamps ws (idle fmt)) ->
   cpu_files (toggles ws (idle fmt)) = completed_pairs ws (idle fmt) /\
   heap_files (toggles ws (idle fmt)) = completed_pairs ws (idle fmt)).
Proof.
  assert (He : flags_equal (idle fmt)) by reflexivity.
  destruct (toggles_writes ws (idle fmt) He) as (Hc & Hh & _).
  destruct (files_le_writes (toggles ws (idle fmt))) as [Lc Lh].
  change (cpu_writes (idle fmt)) with 0%nat in *.
  change (heap_writes (idle fmt)) with 0%nat in *.
  split; [lia|]. split; [lia|].
  intros Hall Hnd.
  destruct (toggles_written ws (idle fmt) He Hall) as [Hw Hn].
  change (written (idle fmt)) with (@nil string) in Hw. rewrite app_nil_l in Hw.
  unfold cpu_files, heap_files. rewrite Hw, Hn, filter_cpu_pairs, filter_heap_pairs.
  rewrite (remove_dups_NoDup (cpuFilenameOf <$> _)), (remove_dups_NoDup (heapFilenameOf <$> _)).
  - rewrite !length_fmap. split; reflexivity.
  - apply NoDup_fmap_2_strong; [|exact Hnd].
    intros x y _ _ E. exact (heapFilenameOf_inj x y E).
  - apply NoDup_fmap_2_strong; [|exact Hnd].
    intros x y _ _ E. exact (cpuFilenameOf_inj x y E).
Qed.

Lemma toggles_never_exceed_pairs_witness :
  Forall (fun w => stop_succeeds (onStop w)) [calmToggle; calmToggle; calmToggle; calmToggle] /\
  NoDup (stop_timestamps [calmToggle; calmToggle; calmToggle; calmToggle] (idle "summary")) /\
  cpu_files (toggles [calmToggle; calmToggle; calmToggle; calmToggle] (idle "summary"))
  = completed_pairs [calmToggle; calmToggle; calmToggle; calmToggle] (idle "summary") /\
  completed_pairs [calmToggle; calmToggle; calmToggle; calmToggle] (idle "summary") = 2%nat.
Proof.
  assert (H : Forall (fun w => stop_succeeds (onStop w))
                [calmToggle; calmToggle; calmToggle; calmToggle])
    by (repeat constructor).
  assert (Hn : NoDup (stop_timestamps [calmToggle; calmToggle; calmToggle; calmToggle]
                        (idle "summary"))).
  { change (NoDup ["2026-03-01T10-20-30-456Z"%string; "2026-03-01T10-20-31-456Z"%string]).
    apply NoDup_cons. split; [|apply NoDup_singleton].
    intros Hin. apply list_elem_of_singleton in Hin. discriminate Hin. }
  split; [exact H|]. split; [exact Hn|]. split; [|reflexivity].
  exact (proj1 (proj2 (proj2 (toggles_never_exceed_pairs
                                [calmToggle; calmToggle; calmToggle; calmToggle]
                                "summary")) H Hn)).
Defined.

(** Without the condition on the timestamps the two numbers differ: two
    start-then-stop pairs whose stops read the same millisecond make four
    successful writes and leave one file of each kind. *)
Lemma same_timestamp_overwrites :
  completed_pairs [frozenToggle; frozenToggle; frozenToggle; frozenToggle] (idle "summary")
  = 2%nat /\
  cpu_writes (toggles [frozenToggle; frozenToggle; frozenToggle; frozenToggle] (idle "summary"))
  = 2%nat /\
  cpu_files (toggles [frozenToggle; frozenToggle; frozenToggle; frozenToggle] (idle "summary"))
  = 1%nat /\
  heap_files (toggles [frozenToggle; frozenToggle; frozenToggle; frozenToggle] (idle "summary"))
  = 1%nat.
Proof. repeat split; vm_compute; reflexivity. Qed.

(** C4 as stated fails: a start followed by a stop whose CPU encoder throws
    completes one start-then-stop pair and writes no file at all. *)
Lemma failed_stop_writes_no_file :
  completed_pairs [calmToggle; failingToggle] (idle "summary") = 1%nat /\
  written (toggles [calmToggle; failingToggle] (idle "summary")) = [] /\
  cpu_files (toggles [calmToggle; failingToggle] (idle "summary"))
  <> completed_pairs [calmToggle; failingToggle] (idle "summary").
Proof. repeat split; try reflexivity. intros H. discriminate H. Qed.

(** *** The toggle *)

(** A start call that throws ends the toggle there: no flag is set. *)
Lemma toggleProfiler_start_throws w s :
  is_stop_event s = false ->
  (cpuStart (onStart w) = Throws ->
   toggleProfiler w s = (log_call (CpuStart (sourceMapper s)) s, Thrown)) /\
  (cpuStart (onStart w) = Returns -> heapStart (onStart w) = Throws ->
   toggleProfiler w s
   = (log_call (HeapStart (512 * 1024) 64) (log_call (CpuStart (sourceMapper s)) s),
      Thrown)).
Proof.
  open_state s. destruct w as [[a1 a2] w]. unfold is_stop_event. simpl.
  destruct c, h; try discriminate. intros _.
  split; [intros -> | intros -> ->]; reflexivity.
Qed.

(** C5, as amended.  [toggleProfiler] branches on the running flags.  With
    neither flag set it calls [cpuProfiler.start], with the source mapper
    exactly when there is one, and then [heapProfiler.start] with
    512 * 1024 and 64; when both calls return it sets both flags, writes
    nothing and returns.  When [cpuProfiler.start] throws, or when it
    returns and [heapProfiler.start] throws, the toggle throws after that
    call with both flags still false, so the next toggle takes the start
    branch again.  With a flag set the toggle is
    [stopProfilerAndSave(false)]: it makes no rendering call and no start
    call, and writes at most one file per sub-profiler. *)
Theorem toggleProfiler_branches w s :
  (is_stop_event s = false ->
   (forall s', toggleProfiler w s = (s', Normal tt) ->
      calls_since s s' [CpuStart (sourceMapper s); HeapStart (512 * 1024) 64] /\
      isCpuProfilerRunning s' = true /\ isHeapProfilerRunning s' = true /\
      written s' = written s) /\
   (cpuStart (onStart w) = Returns -> heapStart (onStart w) = Returns ->
    (toggleProfiler w s).2 = Normal tt) /\
   (cpuStart (onStart w) = Throws ->
    toggleProfiler w s = (log_call (CpuStart (sourceMapper s)) s, Thrown)) /\
   (cpuStart (onStart w) = Returns -> heapStart (onStart w) = Throws ->
    toggleProfiler w s
    = (log_call (HeapStart (512 * 1024) 64) (log_call (CpuStart (sourceMapper s)) s),
       Thrown))) /\
  (is_stop_event s = true ->
   toggleProfiler w s = ((stopProfilerAndSave false (onStop w) s).1, Normal tt) /\
   exists l files,
     calls_since s (toggleProfiler w s).1 l /\
     written_since s (toggleProfiler w s).1 files /\
     Forall (fun c => is_render_call c = false /\ is_start_call c = false) l /\
     (length (List.filter is_cpu_file files) <= 1)%nat /\
     (length (List.filter is_heap_file files) <= 1)%nat).
Proof.
  split; intros Hs.
  - split; [|split].
    + intros s' Hr. exact (toggleProfiler_start w s s' Hs Hr).
    + exact (toggleProfiler_start_returns w s Hs).
    + exact (toggleProfiler_start_throws w s Hs).
  - split; [exact (toggleProfiler_stop w s Hs)|].
    rewrite (toggleProfiler_stop w s Hs). simpl.
    exact (save_false_effects (onStop w) s).
Qed.

Lemma toggleProfiler_branches_witness :
  is_stop_event (idle "summary") = false /\
  toggleProfiler calmToggle (idle "summary")
  = (mkState true true false "summary" [CpuStart false; HeapStart 524288 64] [], Normal tt) /\
  is_stop_event bothRunning = true /\
  toggleProfiler calmToggle bothRunning
  = ((stopProfilerAndSave false calm bothRunning).1, Normal tt).
Proof.
  assert (H0 : is_stop_event (idle "summary") = false) by reflexivity.
  assert (H1 : is_stop_event bothRunning = true) by reflexivity.
  assert (E : toggleProfiler calmToggle (idle "summary")
              = (mkState true true false "summary" [CpuStart false; HeapStart 524288 64] [],
                 Normal tt)) by reflexivity.
  exact (conj H0 (conj E (conj H1
           (proj1 (proj2 (toggleProfiler_branches calmToggle bothRunning) H1))))).
Defined.

(** C5 as stated fails: from the idle state a toggle whose
    [heapProfiler.start] throws has started the CPU sampler, sets neither
    flag and throws; the next toggle finds both flags false and calls
    [cpuProfiler.start] a second time, with no stop in between. *)
Lemma failed_heap_start_restarts_cpu_sampler :
  is_stop_event (idle "summary") = false /\
  toggleProfiler heapStartThrows (idle "summary")
  = (mkState false false false "summary" [CpuStart false; HeapStart 524288 64] [], Thrown) /\
  calls (toggles [heapStartThrows; calmToggle] (idle "summary"))
  = [CpuStart false; HeapStart 524288 64; CpuStart false; HeapStart 524288 64] /\
  ~ (isCpuProfilerRunning (toggleProfiler heapStartThrows (idle "summary")).1 = true /\
     isHeapProfilerRunning (toggleProfiler heapStartThrows (idle "summary")).1 = true).
Proof. repeat split; try reflexivity. intros [H _]. discriminate H. Qed.

(** *** The flags move together *)

(** C10, as amended.  After [toggleProfiler] (whether it returns or
    throws), after [stopProfilerQuick], and after a [stopProfilerAndSave]
    that runs to completion with no other handler running during its awaits,
    [isCpuProfilerRunning] equals [isHeapProfilerRunning], from every state;
    [stopProfilerAndSave(false)] has no await. *)
Theorem flags_move_together tw w g s :
  flags_equal (toggleProfiler tw s).1 /\
  flags_equal (stopProfilerQuick w s).1 /\
  flags_equal (stopProfilerAndSave g w s).1 /\
  stopProfilerAndSave false w s = stopProfilerAndSave_call false w s.
Proof.
  assert (Hstop : forall s', both_stopped s' -> flags_equal s')
    by (intros s' [H1 H2]; unfold flags_equal; congruence).
  assert (Hidle : forall s', is_stop_event s' = false -> flags_equal s').
  { intros s'. unfold is_stop_event, flags_equal.
    destruct (isCpuProfilerRunning s'), (isHeapProfilerRunning s'); simpl; congruence. }
  repeat split.
  - destruct (is_stop_event s) eqn:Hs.
    + rewrite (toggleProfiler_stop tw s Hs). simpl.
      destruct (save_flags false (onStop tw) s) as [H|[H _]]; [auto | congruence].
    + destruct (toggleProfiler_start_flags tw s Hs) as [[H1 H2]|H]; [|auto].
      unfold flags_equal. congruence.
  - destruct (quick_flags w s) as [H|[H E]]; [auto|]. rewrite E. auto.
  - destruct (save_flags g w s) as [H|[H E]]; [auto|]. rewrite E. auto.
  - apply call_false_complete.
Qed.

End ControllerFacts.

(** ** The event loop *)

Module ProcessFacts.
Import JsString Controller Process.

#[local] Arguments stopProfilerQuick : simpl never.
#[local] Arguments stopProfilerAndSave_call : simpl never.
#[local] Arguments stopProfilerAndSave_resume : simpl never.
#[local] Arguments toggleProfiler : simpl never.
#[local] Arguments generateHtmlAsync : simpl never.

Ltac unfold_proc :=
  unfold onSignal, onBeforeExit, patchedExit, startStopAndSave, settle, mapperSettles,
    timerFires, startProfiling, autoToggle, originalExit, latch, count_autoStart,
    with_st, with_mapper, with_timers, with_activations, with_exited in *.

Ltac frame := unfold_proc; repeat case_match; simpl; auto.

Lemma startStopAndSave_frame w k p :
  same_latch p (startStopAndSave w k p) /\ same_auto p (startStopAndSave w k p).
Proof. unfold same_latch, same_auto. frame. Qed.

Lemma same_auto_trans p q r : same_auto p q -> same_auto q r -> same_auto p r.
Proof. unfold same_auto. intros (?&?&?&?) (?&?&?&?). repeat split; congruence. Qed.

Lemma latch_auto t p : same_auto p (latch t p).
Proof. repeat split. Qed.

Lemma patchedExit_auto c w p : same_auto p (patchedExit c w p).
Proof.
  unfold patchedExit. destruct (exitGuard p); [|repeat split].
  eapply same_auto_trans; [apply latch_auto | apply startStopAndSave_frame].
Qed.

Lemma onBeforeExit_auto w p : same_auto p (onBeforeExit w p).
Proof.
  unfold onBeforeExit. destruct (exitGuard p); [|repeat split].
  eapply same_auto_trans; [apply latch_auto | apply startStopAndSave_frame].
Qed.

Lemma onSignal_auto t w p : same_auto p (onSignal t w p).
Proof.
  unfold onSignal.
  eapply same_auto_trans; [|apply patchedExit_auto].
  destruct (exitGuard p); [|repeat split].
  destruct (stopProfilerQuick w (st (latch t p))) as [s' [[l|]|]]; repeat split.
Qed.

Lemma settle_frame i p : same_latch p (settle i p) /\ same_auto p (settle i p).
Proof. unfold same_latch, same_auto. frame. Qed.

Lemma iter_autoToggle_latch w n p : same_latch p (Nat.iter n (autoToggle w) p).
Proof.
  unfold same_latch. induction n as [|n IH]; simpl; [auto|].
  destruct IH as [H1 H2]. set (q := Nat.iter n (autoToggle w) p) in *.
  unfold autoToggle, count_autoStart, with_st. simpl. auto.
Qed.

Lemma iter_autoToggle_auto w n p :
  autoStarts (Nat.iter n (autoToggle w) p) = (autoStarts p + n)%nat /\
  awaitingMapper (Nat.iter n (autoToggle w) p) = awaitingMapper p /\
  timers (Nat.iter n (autoToggle w) p) = timers p.
Proof.
  induction n as [|n IH]; simpl; [split; [lia | split; reflexivity]|].
  destruct IH as (H1 & H2 & H3).
  set (q := Nat.iter n (autoToggle w) p) in *.
  unfold autoToggle, count_autoStart, with_st. simpl.
  rewrite H1, H2, H3. split; [lia | split; reflexivity].
Qed.

Lemma mapperSettles_latch ok w p : same_latch p (mapperSettles ok w p).
Proof.
  unfold mapperSettles. destruct (mapperPromise p); try (split; reflexivity).
  destruct (iter_autoToggle_latch w (awaitingMapper p)
    (with_st (set_sourceMapper ok (st p)) (with_mapper SettledPromise 0 p))) as [H1 H2].
  split; [rewrite H1 | rewrite H2]; reflexivity.
Qed.

Lemma timerFires_latch i w p : same_latch p (timerFires i w p).
Proof. unfold same_latch. frame. Qed.

Lemma exitGuard_latched p : exitHandlerCalled p = true -> exitGuard p = false.
Proof. unfold exitGuard. intros ->. apply andb_false_r. Qed.


Lemma onSignal_latch t w p :
  (exitGuard p = true ->
   exitHandlerCalled (onSignal t w p) = true /\
   stopSequences (onSignal t w p) = stopSequences p ++ [t]) /\
  (exitGuard p = false -> same_latch p (onSignal t w p)).
Proof.
  unfold onSignal. split; intros Hg; rewrite Hg.
  - unfold patchedExit.
    destruct (stopProfilerQuick w (st (latch t p))) as [s' [[l|]|]];
      (rewrite exitGuard_latched by reflexivity); split; reflexivity.
  - unfold patchedExit. rewrite Hg. split; reflexivity.
Qed.

(** What an exit trigger does to the latch. *)
Lemma trigger_step p e t :
  trigger_of e = Some t -> exited p = None -> autoStart p = true ->
  (exitGuard p = true ->
   exitHandlerCalled (step p e) = true /\ stopSequences (step p e) = stopSequences p ++ [t]) /\
  (exitGuard p = false -> same_latch p (step p e)).
Proof.
  intros Ht Hx Ha. unfold step. rewrite Hx, Ha.
  destruct e as [w|w|xc w|w|w|i|ok w|i w]; try discriminate Ht; injection Ht as <-.
  - unfold onBeforeExit. split; intros Hg; rewrite Hg; [|split; reflexivity].
    destruct (startStopAndSave_frame w ThenReturn (latch ByBeforeExit p)) as [[H1 H2] _].
    rewrite H1, H2. auto.
  - unfold patchedExit. split; intros Hg; rewrite Hg; [|split; reflexivity].
    destruct (startStopAndSave_frame w (ThenOriginalExit xc) (latch ByExitCall p))
      as [[H1 H2] _].
    rewrite H1, H2. auto.
  - apply onSignal_latch.
  - apply onSignal_latch.
Qed.

(** Events that are no exit trigger leave the latch alone. *)
Lemma other_step p e : trigger_of e = None -> same_latch p (step p e).
Proof.
  intros Ht. unfold step. destruct (exited p); [split; reflexivity|].
  destruct e as [w|w|xc w|w|w|i|ok w|i w]; try discriminate Ht.
  - destruct (posix p); split; reflexivity.
  - apply settle_frame.
  - apply mapperSettles_latch.
  - apply timerFires_latch.
Qed.

(** Without the auto-start block no handler touches the latch. *)
Lemma manual_step p e : autoStart p = false -> same_latch p (step p e).
Proof.
  intros Ha. destruct (trigger_of e) eqn:Ht; [|exact (other_step p e Ht)].
  unfold step. rewrite Ha. destruct (exited p); [split; reflexivity|].
  destruct e; try discriminate Ht; split; reflexivity.
Qed.



Lemma run_cons e evs p : run (e :: evs) p = run evs (step p e).
Proof. reflexivity. Qed.






(** *** The exit guard *)




Lemma startProfiling_auto w p :
  (autoStarts (startProfiling w p) + awaitingMapper (startProfiling w p)
   = S (autoStarts p + awaitingMapper p))%nat /\
  timers (startProfiling w p) = timers p.
Proof. frame; lia. Qed.

Lemma step_auto_inv p e : auto_inv p -> auto_inv (step p e).
Proof.
  unfold auto_inv. intros Hi.
  assert (Hsame : same_auto p (step p e) ->
                  (autoStarts (step p e) + awaitingMapper (step p e)
                   + length (timers (step p e)) <= 1)%nat).
  { intros (H1 & H2 & H3 & _). rewrite H1, H2, H3. exact Hi. }
  unfold step in *. destruct (exited p); [exact Hi|].
  destruct e as [w|w|xc w|w|w|i|ok w|i w].
  - apply Hsame. destruct (posix p); repeat split.
  - apply Hsame. destruct (autoStart p); [apply onBeforeExit_auto | repeat split].
  - apply Hsame. destruct (autoStart p); [apply patchedExit_auto | repeat split].
  - apply Hsame. destruct (autoStart p); [apply onSignal_auto | repeat split].
  - apply Hsame. destruct (autoStart p); [apply onSignal_auto | repeat split].
  - apply Hsame. apply settle_frame.
  - unfold mapperSettles. destruct (mapperPromise p); try exact Hi.
    destruct (iter_autoToggle_auto w (awaitingMapper p)
      (with_st (set_sourceMapper ok (st p)) (with_mapper SettledPromise 0 p)))
      as (H1 & H2 & H3).
    rewrite H1, H2, H3. simpl. lia.
  - unfold timerFires. destruct (timers p !! i) as [[|ms|]|] eqn:Hl; [| | |exact Hi].
    + unfold with_timers. simpl. rewrite length_insert. exact Hi.
    + destruct (startProfiling_auto w (with_timers (delete i (timers p)) p)) as [H1 H2].
      rewrite H2. unfold with_timers in *. simpl in *.
      apply lookup_lt_Some in Hl.
      rewrite length_delete by (apply lookup_lt_is_Some_2; exact Hl). lia.
    + destruct (startProfiling_auto w (with_timers (delete i (timers p)) p)) as [H1 H2].
      rewrite H2. unfold with_timers in *. simpl in *.
      apply lookup_lt_Some in Hl.
      rewrite length_delete by (apply lookup_lt_is_Some_2; exact Hl). lia.
Qed.

Lemma run_auto_inv evs : forall p, auto_inv p -> auto_inv (run evs p).
Proof.
  induction evs as [|e evs IH]; intros p Hi; [exact Hi|].
  rewrite run_cons. apply IH, step_auto_inv, Hi.
Qed.

Lemma preload_auto_inv env w : auto_inv (preload env w).
Proof.
  unfold preload, auto_inv.
  repeat case_match; simpl; try lia;
    match goal with
    | |- context [startProfiling ?w ?p] =>
        destruct (startProfiling_auto w p) as [H1 H2]; rewrite H2; simpl in *; lia
    end.
Qed.

(** The preload script under [delay = 'none']. *)
Lemma preload_none env w :
  FLAME_AUTO_START env = Some "true" -> FLAME_DELAY env = Some "none" ->
  preload env w
  = startProfiling w
      (mkProc (idle (or_default (FLAME_MD_FORMAT env) "summary")) true
              (negb (bool_decide (platform env = "win32"))) false
              (if hasSourceMapperPromise env then PendingPromise else NoPromise)
              0 [] [] None [] 0).
Proof. intros Ha Hd. unfold preload. rewrite Ha, Hd. reflexivity. Qed.

(** *** Auto-start without delay *)

(** C9, as amended.  With [FLAME_AUTO_START = 'true'] and
    [FLAME_DELAY = 'none']: when no sourcemap directory or package is
    configured, [toggleProfiler] is called synchronously during preload, so
    both running flags are true when preload ends, before the program's own
    code runs, provided the two start calls return.  When sourcemaps are
    configured, [startProfiling] suspends at [await sourceMapperPromise]: both
    flags are still false and no sampler call has been made when preload
    ends, and the single call of [toggleProfiler] happens when that promise
    settles.  In every case auto-start calls [toggleProfiler] at most
    once. *)
Theorem autoStart_without_delay env w :
  FLAME_AUTO_START env = Some "true" -> FLAME_DELAY env = Some "none" ->
  (hasSourceMapperPromise env = false ->
   autoStarts (preload env w) = 1%nat /\
   (cpuStart (onStart w) = Returns -> heapStart (onStart w) = Returns ->
    isCpuProfilerRunning (st (preload env w)) = true /\
    isHeapProfilerRunning (st (preload env w)) = true)) /\
  (hasSourceMapperPromise env = true ->
   both_stopped (st (preload env w)) /\ calls (st (preload env w)) = [] /\
   autoStarts (preload env w) = 0%nat /\ awaitingMapper (preload env w) = 1%nat /\
   forall ok w',
     autoStarts (step (preload env w) (MapperSettles ok w')) = 1%nat /\
     (cpuStart (onStart w') = Returns -> heapStart (onStart w') = Returns ->
      calls (st (step (preload env w) (MapperSettles ok w')))
      = [CpuStart ok; HeapStart (512 * 1024) 64] /\
      isCpuProfilerRunning (st (step (preload env w) (MapperSettles ok w'))) = true /\
      isHeapProfilerRunning (st (step (preload env w) (MapperSettles ok w'))) = true)) /\
  (forall evs, (autoStarts (run evs (preload env w)) <= 1)%nat).
Proof.
  intros Ha Hd. rewrite (preload_none env w Ha Hd).
  split; [|split].
  - intros ->. split; [reflexivity|].
    destruct w as [[a1 a2] w]. simpl. intros H1 H2. subst a1 a2. split; reflexivity.
  - intros ->. split; [split; reflexivity|]. do 3 (split; [reflexivity|]).
    intros ok w'. split; [reflexivity|].
    destruct w' as [[a1 a2] w']. simpl. intros H1 H2. subst a1 a2. repeat split.
  - intros evs. rewrite <- (preload_none env w Ha Hd).
    pose proof (run_auto_inv evs _ (preload_auto_inv env w)) as Hi.
    unfold auto_inv in Hi. lia.
Qed.

Lemma autoStart_without_delay_witness :
  FLAME_AUTO_START noDelay = Some "true" /\ FLAME_DELAY noDelay = Some "none" /\
  hasSourceMapperPromise noDelay = false /\
  isCpuProfilerRunning (st (preload noDelay calmToggle)) = true /\
  isHeapProfilerRunning (st (preload noDelay calmToggle)) = true.
Proof.
  do 3 (split; [reflexivity|]).
  exact (proj2 (proj1 (autoStart_without_delay noDelay calmToggle eq_refl eq_refl) eq_refl)
           eq_refl eq_refl).
Defined.

(** C9 as stated fails: with a sourcemap directory configured and no delay,
    no sub-profiler is running when the synchronous preload ends. *)
Lemma sourcemaps_defer_autoStart :
  FLAME_AUTO_START noDelayWithMaps = Some "true" /\
  FLAME_DELAY noDelayWithMaps = Some "none" /\
  isCpuProfilerRunning (st (preload noDelayWithMaps calmToggle)) = false /\
  isHeapProfilerRunning (st (preload noDelayWithMaps calmToggle)) = false /\
  ~ (isCpuProfilerRunning (st (preload noDelayWithMaps calmToggle)) = true).
Proof. repeat split; try reflexivity. intros H; discriminate H. Qed.

(** C10 as stated fails: a [stopProfilerAndSave(true)] during whose awaits two
    toggles run stops the heap profiler that the second toggle has started
    and completes with the CPU profiler marked running and the heap profiler
    marked stopped. *)
Lemma interleaved_stop_leaves_one_running :
  activations (run interleaved (preload noDelay calmToggle)) = [] /\
  stopSequences (run interleaved (preload noDelay calmToggle)) = [ByBeforeExit] /\
  isCpuProfilerRunning (st (run interleaved (preload noDelay calmToggle))) = true /\
  isHeapProfilerRunning (st (run interleaved (preload noDelay calmToggle))) = false /\
  ~ flags_equal (st (run interleaved (preload noDelay calmToggle))).
Proof. vm_compute. repeat split. intros H; discriminate H. Qed.

End ProcessFacts.

(** ** Sourcemap resolution *)

Module SourceMapFacts.
Import JsString Controller SourceMap.

Section Resolution.
Context {C : Type} `{Consumer C} `{Path}.

(** The column of the lookups, written out. *)
Lemma generatedColumn_eq location :
  generatedColumn location = Z.max 0 (default 1 (loc_column location) - 1).
Proof.
  unfold generatedColumn. destruct (loc_column location) as [c|]; simpl; [|reflexivity].
  destruct (Z.ltb_spec 0 c); lia.
Qed.

Lemma generatedColumn_nonneg location : 0 <= generatedColumn location.
Proof. rewrite generatedColumn_eq. lia. Qed.

(** The part of [mappingInfo] after the lookups. *)
Lemma mappingInfo_from infoMap cache location entry pos src :
  infoMap !! normalize (file location) = Some entry ->
  source pos = Some src ->
  match originalPositionFor (mapConsumer entry) (loc_line location)
          (generatedColumn location) None with
  | Normal direct =>
      match source direct with
      | None => originalPositionFor (mapConsumer entry) (loc_line location)
                  (generatedColumn location) (Some LEAST_UPPER_BOUND)
      | Some _ => Normal direct
      end
  | Thrown => Thrown
  end = Normal pos ->
  resolved_from entry pos (mappingInfo infoMap cache location).
Proof.
  intros He Hs Hp. unfold mappingInfo, resolved_from.
  rewrite He. cbv zeta. rewrite Hp. rewrite Hs.
  destruct (truthy_opt (name pos)) eqn:Hn; simpl.
  - eexists _, _. split; [reflexivity|]. simpl. repeat split.
  - destruct (truthy src && truthy_num (line pos)).
    + destruct (recoverName _ _ _ _) as [[cache' [n|]]|];
        eexists _, _; (split; [reflexivity|]); simpl; repeat split; discriminate.
    + eexists _, _. split; [reflexivity|]. simpl. repeat split; discriminate.
Qed.

(** [mappingInfo] throws exactly when a lookup it makes throws. *)
Lemma mappingInfo_throws_iff infoMap cache location :
  (exists cache', mappingInfo infoMap cache location = (cache', Thrown)) <->
  exists entry,
    infoMap !! normalize (file location) = Some entry /\
    match originalPositionFor (mapConsumer entry) (loc_line location)
            (generatedColumn location) None with
    | Normal direct =>
        source direct = None /\
        originalPositionFor (mapConsumer entry) (loc_line location)
          (generatedColumn location) (Some LEAST_UPPER_BOUND) = Thrown
    | Thrown => True
    end.
Proof.
  unfold mappingInfo.
  destruct (infoMap !! normalize (file location)) as [entry|]; cbv zeta.
  - destruct (originalPositionFor (mapConsumer entry) (loc_line location)
                (generatedColumn location) None) as [direct|] eqn:Hd.
    + destruct (source direct) as [src|] eqn:Hs.
      * split.
        -- intros [cache' E]. exfalso. rewrite Hs in E. revert E.
           repeat case_match; discriminate.
        -- intros (e & [= <-] & E). rewrite Hd in E. destruct E as [E _]. congruence.
      * destruct (originalPositionFor (mapConsumer entry) (loc_line location)
                    (generatedColumn location) (Some LEAST_UPPER_BOUND)) as [biased|] eqn:Hb.
        -- split.
           ++ intros [cache' E]. exfalso. revert E. repeat case_match; discriminate.
           ++ intros (e & [= <-] & E). rewrite Hd in E. destruct E as [_ E].
              congruence.
        -- split; [|intros _; eexists; reflexivity].
           intros _. exists entry. rewrite Hd. auto.
    + split; [|intros _; eexists; reflexivity].
      intros _. exists entry. rewrite Hd. auto.
  - split; [intros [cache' E]; discriminate E | intros (e & E & _); discriminate E].
Qed.

(** C6, as amended.  A file without a map entry keeps its location.
    Otherwise the position is looked up directly, at the line of the
    location and at its column minus one, or 0 when the column is not
    positive or is missing.  When that lookup has a source the location is
    resolved from it; when it has none, the same line and column are looked
    up again under LEAST_UPPER_BOUND and the location is resolved from that
    later mapping when it has a source; when neither lookup has a source
    the input location is returned unchanged, and the cache with it.
    Neither lookup is inside a [try]: when the consumer throws on one that
    is made, [mappingInfo] throws, and it throws in no other case. *)
Theorem mappingInfo_resolution infoMap cache location :
  (infoMap !! normalize (file location) = None ->
   mappingInfo infoMap cache location = (cache, Normal location)) /\
  (forall entry, infoMap !! normalize (file location) = Some entry ->
     let col := Z.max 0 (default 1 (loc_column location) - 1) in
     let direct := originalPositionFor (mapConsumer entry) (loc_line location) col None in
     let biased := originalPositionFor (mapConsumer entry) (loc_line location) col
                     (Some LEAST_UPPER_BOUND) in
     (direct = Thrown -> mappingInfo infoMap cache location = (cache, Thrown)) /\
     (forall pos, direct = Normal pos ->
        (source pos <> None ->
         resolved_from entry pos (mappingInfo infoMap cache location)) /\
        (source pos = None ->
         (biased = Thrown -> mappingInfo infoMap cache location = (cache, Thrown)) /\
         (forall pos', biased = Normal pos' ->
            (source pos' <> None ->
             resolved_from entry pos' (mappingInfo infoMap cache location)) /\
            (source pos' = None ->
             mappingInfo infoMap cache location = (cache, Normal location)))))).
Proof.
  split.
  - intros He. unfold mappingInfo. rewrite He. reflexivity.
  - intros entry He. rewrite <- generatedColumn_eq. cbv zeta. split.
    + intros Hd. unfold mappingInfo. rewrite He. cbv zeta. rewrite Hd. reflexivity.
    + intros pos Hd. split.
      * intros Hs. destruct (source pos) as [src|] eqn:Hsrc; [|congruence].
        apply (mappingInfo_from _ _ _ entry pos src He Hsrc).
        rewrite Hd, Hsrc. reflexivity.
      * intros Hs. split.
        -- intros Hb. unfold mappingInfo. rewrite He. cbv zeta.
           rewrite Hd, Hs, Hb. reflexivity.
        -- intros pos' Hb. split.
           ++ intros Hs'. destruct (source pos') as [src|] eqn:Hsrc; [|congruence].
              apply (mappingInfo_from _ _ _ entry pos' src He Hsrc).
              rewrite Hd, Hs. exact Hb.
           ++ intros Hs'. unfold mappingInfo. rewrite He. cbv zeta.
              rewrite Hd, Hs, Hb, Hs'. reflexivity.
Qed.

End Resolution.

Lemma findMapping_glb_none ln col l :
  (forall m, In m l -> generatedLine m = ln -> col < generatedColumn_ m) ->
  findMapping GREATEST_LOWER_BOUND ln col l None = None.
Proof.
  induction l as [|m l IH]; intros Hall; [reflexivity|].
  simpl. destruct (generatedLine m =? ln) eqn:Hl; simpl.
  - apply Z.eqb_eq in Hl. pose proof (Hall m (or_introl eq_refl) Hl) as Hlt.
    destruct (generatedColumn_ m <=? col) eqn:Hc; [apply Z.leb_le in Hc; lia|].
    simpl. apply IH. intros m' Hin. apply Hall. right. exact Hin.
  - apply IH. intros m' Hin. apply Hall. right. exact Hin.
Qed.

Lemma findMapping_lub ln col l : forall best,
  (forall b, best = Some b -> at_or_after ln col b) ->
  match findMapping LEAST_UPPER_BOUND ln col l best with
  | Some m =>
      at_or_after ln col m /\ (In m l \/ best = Some m) /\
      (forall m', In m' l -> at_or_after ln col m' -> generatedColumn_ m <= generatedColumn_ m') /\
      (forall b, best = Some b -> generatedColumn_ m <= generatedColumn_ b)
  | None => best = None /\ forall m', In m' l -> ~ at_or_after ln col m'
  end.
Proof.
  induction l as [|m l IH]; intros best Hb; cbn [findMapping].
  - destruct best as [b|].
    + split; [apply Hb; reflexivity|]. split; [right; reflexivity|].
      split; [intros m' []|]. intros b' [= <-]. lia.
    + split; [reflexivity|]. intros m' [].
  - destruct ((generatedLine m =? ln) && improves LEAST_UPPER_BOUND col m best) eqn:Hi.
    + apply andb_true_iff in Hi as [Hl Hi]. apply Z.eqb_eq in Hl.
      simpl in Hi. apply andb_true_iff in Hi as [Hc Hi]. apply Z.leb_le in Hc.
      assert (Hp : forall b, Some m = Some b -> at_or_after ln col b)
        by (intros b [= <-]; split; assumption).
      specialize (IH (Some m) Hp).
      destruct (findMapping LEAST_UPPER_BOUND ln col l (Some m)) as [r|].
      * destruct IH as (Hr & Hin & Hmin & Hbest).
        split; [exact Hr|]. split.
        { destruct Hin as [Hin|[= ->]]; left; [right; exact Hin | left; reflexivity]. }
        split.
        { intros m' [<-|Hin'] Hm'; [apply Hbest; reflexivity | apply Hmin; assumption]. }

        { intros b ->. pose proof (Hbest m eq_refl). apply Z.ltb_lt in Hi. lia. }
      * destruct IH as [IH _]. discriminate IH.
    + specialize (IH best Hb).
      assert (Hm : forall r, at_or_after ln col m ->
                     (forall b, best = Some b -> generatedColumn_ r <= generatedColumn_ b) ->
                     best <> None -> generatedColumn_ r <= generatedColumn_ m).
      { intros r [Hl Hc] Hbest Hne. apply andb_false_iff in Hi as [Hi|Hi].
        - apply Z.eqb_neq in Hi. contradiction.
        - simpl in Hi. apply andb_false_iff in Hi as [Hi|Hi].
          + apply Z.leb_gt in Hi. lia.
          + destruct best as [b|]; [|contradiction].
            apply Z.ltb_ge in Hi. pose proof (Hbest b eq_refl). lia. }
      assert (Hnone : best = None -> ~ at_or_after ln col m).
      { intros -> [Hl Hc]. apply andb_false_iff in Hi as [Hi|Hi].
        - apply Z.eqb_neq in Hi. contradiction.
        - simpl in Hi. rewrite andb_true_r in Hi. apply Z.leb_gt in Hi. lia. }
      destruct (findMapping LEAST_UPPER_BOUND ln col l best) as [r|].
      * destruct IH as (Hr & Hin & Hmin & Hbest).
        split; [exact Hr|]. split; [destruct Hin as [Hin|Hin]; [left; right; exact Hin | right; exact Hin]|].
        split; [|exact Hbest].
        intros m' [<-|Hin'] Hm'; [|apply Hmin; assumption].
        destruct best as [b|].
        -- apply Hm; [exact Hm' | exact Hbest | discriminate].
        -- exfalso. apply (Hnone eq_refl Hm').
      * destruct IH as [-> Hno]. split; [reflexivity|].
        intros m' [<-|Hin']; [apply Hnone; reflexivity | apply Hno; exact Hin'].
Qed.

(** With the list consumer: when the generated line has no mapping at or
    before the column, but has one after it, the strict lookup finds nothing
    and the retry under LEAST_UPPER_BOUND finds the nearest later mapping of
    that line; [mappingInfo] resolves the location from it. *)
Lemma fallback_returns_later_mapping `{Path}
  (infoMap : gmap string (Entry ListConsumer)) cache location entry ln m0 :
  infoMap !! normalize (file location) = Some entry ->
  loc_line location = Some ln -> 1 <= ln ->
  (forall m, In m (mappings (mapConsumer entry)) -> generatedLine m = ln ->
             generatedColumn location < generatedColumn_ m) ->
  In m0 (mappings (mapConsumer entry)) -> generatedLine m0 = ln ->
  originalPositionFor (mapConsumer entry) (Some ln) (generatedColumn location) None
  = Normal nullPosition /\
  exists m,
    In m (mappings (mapConsumer entry)) /\
    at_or_after ln (generatedColumn location) m /\
    (forall m', In m' (mappings (mapConsumer entry)) -> generatedLine m' = ln ->
                generatedColumn_ m <= generatedColumn_ m') /\
    originalPositionFor (mapConsumer entry) (Some ln) (generatedColumn location)
      (Some LEAST_UPPER_BOUND) = Normal (position_of m) /\
    (originalSource m <> None ->
     resolved_from entry (position_of m) (mappingInfo infoMap cache location)).
Proof.
  intros He Hln Hge Hlater Hin0 Hl0.
  pose proof (generatedColumn_nonneg location) as Hcol.
  assert (Hl1 : (ln <? 1) = false) by (apply Z.ltb_ge; lia).
  assert (Hc0 : (generatedColumn location <? 0) = false) by (apply Z.ltb_ge; lia).
  assert (Hglb : originalPositionFor (mapConsumer entry) (Some ln)
                   (generatedColumn location) None = Normal nullPosition).
  { simpl. unfold list_originalPositionFor. rewrite Hl1, Hc0. simpl.
    rewrite (findMapping_glb_none ln _ _ Hlater). reflexivity. }
  split; [exact Hglb|].
  pose proof (findMapping_lub ln (generatedColumn location)
                (mappings (mapConsumer entry)) None) as Hlub.
  destruct (findMapping LEAST_UPPER_BOUND ln (generatedColumn location)
              (mappings (mapConsumer entry)) None) as [m|] eqn:Hf.
  - destruct Hlub as (Hm & Hin & Hmin & _); [discriminate|].
    destruct Hin as [Hin|Hin]; [|discriminate Hin].
    exists m. split; [exact Hin|]. split; [exact Hm|].
    assert (Hpos : originalPositionFor (mapConsumer entry) (Some ln)
                     (generatedColumn location) (Some LEAST_UPPER_BOUND)
                   = Normal (position_of m)).
    { simpl. unfold list_originalPositionFor. rewrite Hl1, Hc0. simpl.
      rewrite Hf. reflexivity. }
    split; [|split; [exact Hpos|]].
    + intros m' Hin' Hl'. apply Hmin; [exact Hin'|].
      split; [exact Hl'|]. pose proof (Hlater m' Hin' Hl'). lia.
    + intros Hsrc. destruct (originalSource m) as [src|] eqn:Hs; [|congruence].
      apply (mappingInfo_from infoMap cache location entry (position_of m) src He);
        [exact Hs|].
      rewrite Hln, Hglb. simpl. exact Hpos.
  - destruct Hlub as [_ Hno]; [discriminate|].
    exfalso. apply (Hno m0 Hin0). split; [exact Hl0|].
    pose proof (Hlater m0 Hin0 Hl0). lia.
Qed.

Example mappingInfo_turbopack :
  (@mappingInfo _ _ plainPath sampleInfoMap ∅ inGenerated).2
  = Normal (mkLocation "/app/dist/original.ts" (Some 1) (Some 1) (Some "myFunction")).
Proof. vm_compute. reflexivity. Qed.

Example mappingInfo_recovers_name :
  (@mappingInfo _ _ plainPath sampleInfoMap ∅ inBundle).2
  = Normal (mkLocation "/app/dist/../src/utils.ts" (Some 1) (Some 1)
                       (Some "getCustomFormFields")).
Proof. vm_compute. reflexivity. Qed.

Lemma mappingInfo_resolution_witness :
  sampleInfoMap !! @normalize plainPath (file inGenerated)
  = Some (mkEntry "/app/dist" turbopackMap) /\
  originalPositionFor turbopackMap (Some 1) 0 None = Normal nullPosition /\
  originalPositionFor turbopackMap (Some 1) 0 (Some LEAST_UPPER_BOUND)
  = Normal (mkPosition (Some "original.ts"%string) (Some 1) (Some 0)
                       (Some "myFunction"%string)) /\
  @resolved_from _ plainPath (mkEntry "/app/dist" turbopackMap)
    (mkPosition (Some "original.ts"%string) (Some 1) (Some 0) (Some "myFunction"%string))
    (@mappingInfo _ _ plainPath sampleInfoMap ∅ inGenerated).
Proof.
  assert (He : sampleInfoMap !! @normalize plainPath (file inGenerated)
               = Some (mkEntry "/app/dist" turbopackMap)) by (vm_compute; reflexivity).
  assert (Hd : originalPositionFor turbopackMap (Some 1) 0 None = Normal nullPosition)
    by reflexivity.
  assert (Hb : originalPositionFor turbopackMap (Some 1) 0 (Some LEAST_UPPER_BOUND)
               = Normal (mkPosition (Some "original.ts"%string) (Some 1) (Some 0)
                                    (Some "myFunction"%string))) by reflexivity.
  split; [exact He|]. split; [exact Hd|]. split; [exact Hb|].
  refine (proj1 (proj2 (proj2 (proj2 (proj2 (@mappingInfo_resolution _ _ plainPath
            sampleInfoMap ∅ inGenerated) (mkEntry "/app/dist" turbopackMap) He)
            nullPosition Hd) eq_refl) _ Hb) _).
  discriminate.
Defined.

(** C6 as stated fails: resolution can throw.  For a location with line 0
    in a file that has a map entry, the direct lookup throws (the consumer
    accepts lines from 1 on) and, as no [try] encloses it, so does
    [mappingInfo]. *)
Lemma mappingInfo_throws_below_line_one :
  sampleInfoMap !! @normalize plainPath (file atLineZero)
  = Some (mkEntry "/app/dist" turbopackMap) /\
  originalPositionFor turbopackMap (loc_line atLineZero) 0 None = Thrown /\
  @mappingInfo _ _ plainPath sampleInfoMap ∅ atLineZero = (∅, Thrown) /\
  ~ (exists cache' loc',
       @mappingInfo _ _ plainPath sampleInfoMap ∅ atLineZero = (cache', Normal loc')).
Proof.
  assert (E : @mappingInfo _ _ plainPath sampleInfoMap ∅ atLineZero = (∅, Thrown))
    by (vm_compute; reflexivity).
  split; [vm_compute; reflexivity|]. split; [reflexivity|]. split; [exact E|].
  intros (cache' & loc' & H). rewrite E in H. discriminate H.
Qed.

End SourceMapFacts.

(** ** Name extraction *)

Module RegexFacts.
Import JsString Regex.

(** The lines of the sourcemap test, on the helper of the preload script. *)
Example extract_declarations :
  map extractFunctionName
    ["function myFunction() {"; "  function innerFunc() {"; "async function fetchData() {";
     "const handler = () => {"; "const process = async () => {"; "  render() {";
     "  async componentDidMount() {"; "const x = 5;"; "return result;"; ""]
  = [Some "myFunction"; Some "innerFunc"; Some "fetchData"; Some "handler"; Some "process";
     Some "render"; Some "componentDidMount"; None; None; None].
Proof. vm_compute. reflexivity. Qed.

(** The same lines on the copy of the test file, which agree with its
    assertions. *)
Example extract_test_copy :
  map extractFunctionName_test
    ["function myFunction() {"; "const handler = () => {"; "  render() {";
     "  performWork: function() {"; "  retryNode: async function(node) {";
     "const x = 5;"; "if (true) {"; "return result;"; ""]
  = [Some "myFunction"; Some "handler"; Some "render"; Some "performWork";
     Some "retryNode"; None; None; None; None].
Proof. vm_compute. reflexivity. Qed.

Lemma star_run {R} p u : forall v i c (k : cont R) x,
  all_chars p u = true -> stops p v ->
  k (i + String.length u)%nat v c = Some x ->
  star p i (u +:+ v) c k = Some x.
Proof.
  induction u as [|a u IH]; intros v i c k x Hall Hstop Hk.
  - simpl in *. rewrite Nat.add_0_r in Hk.
    destruct v as [|b v]; simpl in *; [exact Hk|]. rewrite Hstop. exact Hk.
  - simpl in *. apply andb_true_iff in Hall as [Ha Hall]. rewrite Ha.
    rewrite (IH v (S i) c k x Hall Hstop); [reflexivity|].
    rewrite <- Hk. f_equal. lia.
Qed.

Lemma take_chars_app u v : take_chars (String.length u) (u +:+ v) = u.
Proof. induction u as [|a u IH]; simpl; [destruct v|rewrite IH]; reflexivity. Qed.

Lemma stops_ident_after_name ws2 rest :
  all_chars is_space ws2 = true -> stops ident_char (ws2 +:+ "(" +:+ rest).
Proof.
  destruct ws2 as [|b ws2]; simpl; [reflexivity|].
  intros H. apply andb_true_iff in H as [Hb _].
  unfold is_space, ident_char, in_range, is_char in *.
  destruct b as [[] [] [] [] [] [] [] []]; vm_compute in Hb |- *; congruence.
Qed.

Lemma stops_space_before_name name s :
  is_identifier name = true -> stops is_space (name +:+ s).
Proof.
  destruct name as [|a n]; simpl; [discriminate|].
  intros H. apply andb_true_iff in H as [Ha _].
  destruct a as [[] [] [] [] [] [] [] []]; vm_compute in Ha |- *; congruence.
Qed.

Lemma is_char_refl a : is_char a a = true.
Proof. unfold is_char. apply N.eqb_refl. Qed.

Lemma strip_app l s : strip l (l +:+ s) = Some s.
Proof.
  induction l as [|a l IH]; simpl; [destruct s; reflexivity|].
  rewrite is_char_refl. exact IH.
Qed.

Lemma matches_Lit {R} l s i c (k : cont R) :
  matches (Lit l) i (l +:+ s) c k = k (i + String.length l)%nat s c.
Proof. cbn [matches]. rewrite strip_app. reflexivity. Qed.

Lemma matches_Star {R} p u v i c (k : cont R) x :
  all_chars p u = true -> stops p v ->
  k (i + String.length u)%nat v c = Some x ->
  matches (Star p) i (u +:+ v) c k = Some x.
Proof. apply star_run. Qed.

Lemma matches_Plus {R} p u v i c (k : cont R) x :
  u <> EmptyString -> all_chars p u = true -> stops p v ->
  k (i + String.length u)%nat v c = Some x ->
  matches (Plus p) i (u +:+ v) c k = Some x.
Proof.
  destruct u as [|a u]; [congruence|]. intros _ Hall Hstop Hk.
  simpl in Hall. apply andb_true_iff in Hall as [Ha Hall].
  change (String a u +:+ v) with (String a (u +:+ v)).
  cbn [matches]. rewrite Ha.
  apply star_run; [exact Hall | exact Hstop |].
  rewrite <- Hk. f_equal. simpl. lia.
Qed.

Lemma is_blank_spec ws : is_blank ws = true -> ws <> EmptyString /\ all_chars is_space ws = true.
Proof. destruct ws; [discriminate|]. intros H. split; [discriminate | exact H]. Qed.

(** The group of the identifier pattern is the name. *)
Lemma matches_ident {R} name v i c (k : cont R) x :
  is_identifier name = true -> stops ident_char v ->
  k (i + String.length name)%nat v (Some name) = Some x ->
  matches ident i (name +:+ v) c k = Some x.
Proof.
  destruct name as [|a n]; [discriminate|]. intros Hname Hstop Hk.
  simpl in Hname. apply andb_true_iff in Hname as [Ha Hn].
  change (String a n +:+ v) with (String a (n +:+ v)).
  unfold ident. cbn [matches]. rewrite Ha.
  apply star_run; [exact Hn | exact Hstop |].
  replace (S i + String.length n - i)%nat with (String.length (String a n))
    by (simpl; lia).
  change (String a (n +:+ v)) with (String a n +:+ v).
  rewrite take_chars_app. rewrite <- Hk. f_equal. simpl. lia.
Qed.

(** At the keyword the rest of the pattern matches greedily, without
    backtracking, and the group is the name. *)
Lemma declRe_matches ws1 name ws2 rest i c :
  is_blank ws1 = true -> is_identifier name = true -> all_chars is_space ws2 = true ->
  matches declRe i (declaration ws1 name ws2 rest) c final = Some (Some name).
Proof.
  intros Hws1 Hname Hws2. destruct (is_blank_spec ws1 Hws1) as [Hne Hsp].
  unfold declRe, declaration.
  cbn [matches]. rewrite strip_app.
  apply matches_Plus; [exact Hne | exact Hsp | apply stops_space_before_name; exact Hname |].
  cbn [matches].
  apply matches_ident; [exact Hname | apply stops_ident_after_name; exact Hws2 |].
  apply matches_Star; [exact Hws2 | reflexivity |].
  reflexivity.
Qed.

Section Declaration.
Variables (ws1 name ws2 rest : string).
Hypothesis Hws1 : is_blank ws1 = true.
Hypothesis Hname : is_identifier name = true.
Hypothesis Hws2 : all_chars is_space ws2 = true.

Let T := declaration ws1 name ws2 rest.
Let K : cont (option string) := fun i s c => matches declRe i s c final.

Lemma funcRe_split i s c :
  matches funcRe i s c final
  = match matches (Cat (Lit "async") (Plus is_space)) i s c K with
    | Some x => Some x
    | None => K i s c
    end.
Proof. reflexivity. Qed.

Lemma K_at_keyword i c : K i T c = Some (Some name).
Proof. apply declRe_matches; assumption. Qed.

Lemma K_fails a s i c : not_f a = true -> K i (String a s) c = None.
Proof.
  intros Ha. unfold K, declRe. cbn [matches strip].
  unfold not_f in Ha. apply negb_true_iff in Ha. rewrite Ha. reflexivity.
Qed.

Lemma stops_space_T : stops is_space T.
Proof. reflexivity. Qed.

Lemma funcRe_at_keyword i : matches funcRe i T None final = Some (Some name).
Proof.
  rewrite funcRe_split.
  replace (matches (Cat (Lit "async") (Plus is_space)) i T None K) with (@None (option string))
    by reflexivity.
  apply K_at_keyword.
Qed.

(** Greedy white space in front of the keyword: every shorter run stops at
    a character that is not the letter f. *)
Lemma star_space_before r : forall i c,
  all_chars not_f r = true ->
  none_or_name name (star is_space i (r +:+ T) c K).
Proof.
  induction r as [|b r IH]; intros i c Hr.
  - right. change (EmptyString +:+ T) with T.
    unfold T at 1, declaration. cbn [String.append star].
    replace (is_space "f") with false by reflexivity.
    apply K_at_keyword.
  - simpl in Hr. apply andb_true_iff in Hr as [Hb Hr].
    change (String b r +:+ T) with (String b (r +:+ T)). cbn [star].
    destruct (is_space b).
    + destruct (IH (S i) c Hr) as [-> | ->]; [|right; reflexivity].
      left. apply K_fails, Hb.
    + left. apply K_fails, Hb.
Qed.

Lemma strip_async_before u s1 :
  all_chars not_f u = true ->
  strip "async" (u +:+ T) = Some s1 ->
  exists r, s1 = r +:+ T /\ all_chars not_f r = true.
Proof.
  intros Hu Hs.
  do 5 (destruct u as [|? u];
        [exfalso; unfold T, declaration in Hs; simpl in Hs;
         repeat case_match; discriminate |
         simpl in Hu; apply andb_true_iff in Hu as [_ Hu]]).
  exists u. split; [|exact Hu].
  simpl in Hs. repeat case_match; congruence.
Qed.

Lemma async_before u i c :
  all_chars not_f u = true ->
  none_or_name name (matches (Cat (Lit "async") (Plus is_space)) i (u +:+ T) c K).
Proof.
  intros Hu. cbn [matches].
  destruct (strip "async" (u +:+ T)) as [s1|] eqn:Hs; [|left; reflexivity].
  destruct (strip_async_before u s1 Hu Hs) as (r & -> & Hr).
  destruct r as [|b r].
  - left. reflexivity.
  - simpl in Hr. apply andb_true_iff in Hr as [_ Hr].
    change (String b r +:+ T) with (String b (r +:+ T)). cbn [matches].
    destruct (is_space b); [|left; reflexivity].
    apply star_space_before, Hr.
Qed.

Lemma funcRe_before a pre i :
  all_chars not_f (String a pre) = true ->
  none_or_name name (matches funcRe i (String a pre +:+ T) None final).
Proof.
  intros Hp. rewrite funcRe_split.
  destruct (async_before (String a pre) i None Hp) as [-> | ->]; [|right; reflexivity].
  left. simpl in Hp. apply andb_true_iff in Hp as [Ha _].
  apply K_fails, Ha.
Qed.

Lemma search_unfold r i s :
  search r i s
  = match matches r i s None final with
    | Some c => Some c
    | None => match s with
              | EmptyString => None
              | String _ s' => search r (S i) s'
              end
    end.
Proof. destruct s; reflexivity. Qed.

(** The leftmost match captures the name. *)
Lemma search_declaration pre : forall i,
  all_chars not_f pre = true ->
  search funcRe i (pre +:+ T) = Some (Some name).
Proof.
  induction pre as [|a pre IH]; intros i Hp.
  - change (EmptyString +:+ T) with T.
    rewrite search_unfold, funcRe_at_keyword. reflexivity.
  - rewrite search_unfold.
    destruct (funcRe_before a pre i Hp) as [-> | ->]; [|reflexivity].
    change (String a pre +:+ T) with (String a (pre +:+ T)).
    simpl in Hp. apply andb_true_iff in Hp as [_ Hp]. apply IH, Hp.
Qed.

End Declaration.

(** For every line made of a prefix without the letter f, the keyword
    [function], white space, an identifier, optional white space and an
    opening parenthesis, [extractFunctionName] returns the identifier. *)
Theorem extractFunctionName_declaration pre ws1 name ws2 rest :
  all_chars not_f pre = true -> is_blank ws1 = true -> is_identifier name = true ->
  all_chars is_space ws2 = true ->
  extractFunctionName (pre +:+ declaration ws1 name ws2 rest) = Some name.
Proof.
  intros Hp Hws1 Hname Hws2. unfold extractFunctionName.
  replace (truthy (pre +:+ declaration ws1 name ws2 rest)) with true
    by (destruct pre; reflexivity).
  unfold js_match. rewrite (search_declaration ws1 name ws2 rest Hws1 Hname Hws2 pre 0 Hp).
  reflexivity.
Qed.

(** C7.  For every line made of a prefix without the letter f, the keyword
    [function], white space, an identifier, optional white space and an
    opening parenthesis, the helper returns the identifier; so it returns
    [foo] on [function foo(a, b) {].  On the control-flow line [if (x) {]
    the helper of the preload script returns the keyword [if]: its
    method-shorthand pattern matches and nothing excludes keywords, while the
    copy in the test file, which has the exclusion list, returns no name
    there and on [if (true) {]. *)
Theorem extractFunctionName_returns_keyword :
  (forall pre ws1 name ws2 rest,
     all_chars not_f pre = true -> is_blank ws1 = true -> is_identifier name = true ->
     all_chars is_space ws2 = true ->
     extractFunctionName (pre +:+ declaration ws1 name ws2 rest) = Some name) /\
  extractFunctionName "function foo(a, b) {" = Some "foo" /\
  extractFunctionName "if (x) {" = Some "if" /\
  extractFunctionName "if (true) {" = Some "if" /\
  extractFunctionName_test "if (x) {" = None /\
  extractFunctionName_test "if (true) {" = None.
Proof.
  split; [exact extractFunctionName_declaration|]. vm_compute. repeat split.
Qed.

Lemma extractFunctionName_returns_keyword_witness :
  all_chars not_f "export async " = true /\ is_blank " " = true /\
  is_identifier "foo" = true /\ all_chars is_space " " = true /\
  extractFunctionName "export async function foo (a, b) {" = Some "foo".
Proof.
  do 4 (split; [reflexivity|]).
  exact (proj1 extractFunctionName_returns_keyword
           "export async " " " "foo" " " "a, b) {" eq_refl eq_refl eq_refl eq_refl).
Defined.

End RegexFacts.

(** ** Loading a profile *)

Module LibFacts.
Import Lib.

Section Gzip.
Context {Profile : Type} `{Zlib} `{PprofFormat Profile}.

(** Any compressor whose output is a gzip stream that [gunzipSync] inverts. *)
Variable gzip : list Z -> list Z.
Hypothesis gzip_magic : forall b, exists rest, gzip b = 0x1f :: 0x8b :: rest.
Hypothesis gunzip_gzip : forall b, gunzipSync (gzip b) = Fulfilled b.



End Gzip.


(** A missing file rejects with the message of the source. *)
Lemma parseProfile_missing {Profile} `{Zlib} `{PprofFormat Profile}
  (fs : gmap string (list Z)) filePath :
  fs !! filePath = None ->
  parseProfile fs filePath = Rejected ("Profile file not found: " +:+ filePath).
Proof. intros Hn. unfold parseProfile. rewrite Hn. reflexivity. Qed.

End LibFacts.

(** ** Strings *)

Module StringFacts.
Import JsString Regex.

Lemma append_nil_r s : s +:+ EmptyString = s.
Proof.
  induction s as [|a s IH]; [reflexivity|].
  change (String a s +:+ EmptyString) with (String a (s +:+ EmptyString)).
  by rewrite IH.
Qed.

Lemma append_cons a u v : String a u +:+ v = String a (u +:+ v).
Proof. reflexivity. Qed.

Lemma append_assoc (u v w : string) : (u +:+ v) +:+ w = u +:+ (v +:+ w).
Proof.
  induction u as [|a u IH]; [reflexivity|].
  rewrite !append_cons. by rewrite IH.
Qed.

Lemma length_append (u v : string) :
  String.length (u +:+ v) = (String.length u + String.length v)%nat.
Proof.
  induction u as [|a u IH]; [reflexivity|].
  rewrite append_cons. simpl. by rewrite IH.
Qed.

Lemma all_chars_append p u v :
  all_chars p (u +:+ v) = all_chars p u && all_chars p v.
Proof.
  induction u as [|a u IH]; [reflexivity|].
  rewrite append_cons. simpl. by rewrite IH, andb_assoc.
Qed.

Lemma is_char_eq a b : is_char a b = true -> b = a.
Proof.
  unfold is_char, code. intros E. apply N.eqb_eq in E.
  rewrite <- (ascii_N_embedding b), <- (ascii_N_embedding a). by f_equal.
Qed.

Lemma strip_inv l : forall s s', strip l s = Some s' -> s = l +:+ s'.
Proof.
  induction l as [|a l IH]; intros s s' Hs.
  - simpl in Hs. by injection Hs as ->.
  - destruct s as [|b s]; [discriminate Hs|]. simpl in Hs.
    destruct (is_char a b) eqn:E; [|discriminate Hs].
    apply is_char_eq in E. subst b.
    rewrite append_cons. f_equal. by apply IH.
Qed.

End StringFacts.

(** ** The two stop paths and their renderings *)

Module RenderingFacts.
Import JsString Controller Rendering ControllerFacts StringFacts.

#[local] Arguments cpuFilenameOf : simpl never.
#[local] Arguments heapFilenameOf : simpl never.
#[local] Arguments htmlOf : simpl never.
#[local] Arguments mdOf : simpl never.
#[local] Arguments replace_colon_dot : simpl never.
#[local] Arguments dates : simpl never.

(** X1.  [stopProfilerQuick] and [stopProfilerAndSave(false)] are the same
    operation: from every state and whatever the collaborators do, they
    leave the same state (flags, calls made, files written) and return the
    same value, the one as its result and the other as the value of its
    promise; neither throws or rejects. *)
Theorem quick_stop_is_save_without_rendering w s :
  exists s' r,
    stopProfilerQuick w s = (s', Normal r) /\
    stopProfilerAndSave false w s = (s', Resolved r).
Proof.
  open_state s; open_world w.
  destruct c, h; follow o1 o2 o3 o4 o5 o6 o7; eauto.
Qed.

(** X2.  Stopping is idempotent: after [stopProfilerQuick], or after a
    [stopProfilerAndSave] that has run to completion, whether it succeeded
    or failed, a further stop of either kind returns [null] and changes
    nothing: it reads no clock, makes no call and writes no file. *)
Theorem second_stop_is_noop g g' w w' s :
  let s1 := (stopProfilerQuick w s).1 in
  let s2 := (stopProfilerAndSave g w s).1 in
  stopProfilerQuick w' s1 = (s1, Normal None) /\
  stopProfilerAndSave g' w' s1 = (s1, Resolved None) /\
  stopProfilerQuick w' s2 = (s2, Normal None) /\
  stopProfilerAndSave g' w' s2 = (s2, Resolved None).
Proof.
  assert (Hq : forall t, is_stop_event t = false ->
            stopProfilerQuick w' t = (t, Normal None) /\
            stopProfilerAndSave g' w' t = (t, Resolved None)).
  { intros t Ht. unfold is_stop_event in Ht.
    apply orb_false_iff in Ht as [Hc Hh].
    unfold stopProfilerAndSave, stopProfilerAndSave_call, stopProfilerQuick, gets, bind.
    rewrite Hc, Hh. simpl. split; reflexivity. }
  assert (Hb : forall t, both_stopped t -> is_stop_event t = false).
  { intros t [Hc Hh]. unfold is_stop_event. rewrite Hc, Hh. reflexivity. }
  simpl.
  assert (H1 : is_stop_event (stopProfilerQuick w s).1 = false).
  { destruct (quick_flags w s) as [H|[H E]]; [auto|]. rewrite E. exact H. }
  assert (H2 : is_stop_event (stopProfilerAndSave g w s).1 = false).
  { destruct (save_flags g w s) as [H|[H E]]; [auto|]. rewrite E. exact H. }
  destruct (Hq _ H1), (Hq _ H2). auto.
Qed.

(** X3.  A failure of the heap part does not undo the CPU part.  When both
    sub-profilers run, the three CPU calls return and a heap call (profile,
    stop, encode or write) throws, the CPU profile stays written, but the
    stop returns [null] instead of the name of that file, and both flags
    are false: a [null] result does not mean that nothing was written.
    This holds for [stopProfilerAndSave], with or without rendering, and
    for [stopProfilerQuick]. *)
Theorem heap_failure_keeps_cpu_file g w s :
  isCpuProfilerRunning s = true -> isHeapProfilerRunning s = true ->
  cpuStop w = Returns -> cpuEncode w = Returns -> cpuWrite w = Returns ->
  heap_failure w ->
  (let r := stopProfilerAndSave g w s in
   r.2 = Resolved None /\ both_stopped r.1 /\
   written r.1 = written s ++ [cpuFilenameOf (timestampAt w s)]) /\
  (let r := stopProfilerQuick w s in
   r.2 = Normal None /\ both_stopped r.1 /\
   written r.1 = written s ++ [cpuFilenameOf (timestampAt w s)]).
Proof.
  open_state s; open_world w. unfold both_stopped, timestampAt, heap_failure. simpl.
  intros -> -> -> -> -> Hf.
  split.
  - destruct g; follow o1 o2 o3 o4 o5 o6 o7;
      try (exfalso; destruct Hf as [?|[?|[?|?]]]; discriminate);
      repeat split.
  - follow o1 o2 o3 o4 o5 o6 o7;
      try (exfalso; destruct Hf as [?|[?|[?|?]]]; discriminate);
      repeat split.
Qed.

Lemma heap_failure_keeps_cpu_file_witness :
  (stopProfilerAndSave true heapWriteThrows bothRunning).2 = Resolved None /\
  written (stopProfilerAndSave true heapWriteThrows bothRunning).1
  = [cpuFilenameOf (timestampAt heapWriteThrows bothRunning)].
Proof.
  destruct (heap_failure_keeps_cpu_file true heapWriteThrows bothRunning
              eq_refl eq_refl eq_refl eq_refl eq_refl) as [(H1 & _ & H3) _].
  - right. right. right. reflexivity.
  - split; [exact H1 | exact H3].
Defined.
Lemma replace_first_skip rep a r :
  not_dot a = true ->
  replace_first ".pb" rep (String a r) = String a (replace_first ".pb" rep r).
Proof.
  unfold not_dot. intros Ha. apply negb_true_iff in Ha.
  cbn [replace_first startsWith]. rewrite Ha. reflexivity.
Qed.

Lemma replace_first_extension rep u :
  Regex.all_chars not_dot u = true ->
  replace_first ".pb" rep (u +:+ ".pb") = u +:+ rep.
Proof.
  induction u as [|a u IH]; intros Hu.
  - change (EmptyString +:+ ".pb") with ".pb"%string.
    change (EmptyString +:+ rep) with rep.
    cbn. apply append_nil_r.
  - simpl in Hu. apply andb_true_iff in Hu as [Ha Hu].
    rewrite !append_cons.
    rewrite (replace_first_skip rep a _ Ha), (IH Hu). reflexivity.
Qed.

Lemma replace_colon_dot_safe iso :
  Regex.all_chars not_colon_dot (replace_colon_dot iso) = true.
Proof.
  unfold replace_colon_dot.
  induction iso as [|a r IH]; [reflexivity|].
  cbn [map_chars Regex.all_chars]. rewrite IH, andb_true_r.
  destruct (is_char ":" a || is_char "." a) eqn:E; [reflexivity|].
  unfold not_colon_dot. rewrite E. reflexivity.
Qed.

Lemma no_colon_dot_no_dot u :
  Regex.all_chars not_colon_dot u = true -> Regex.all_chars not_dot u = true.
Proof.
  induction u as [|a u IH]; [reflexivity|]. simpl.
  intros H. apply andb_true_iff in H as [Ha Hu]. rewrite (IH Hu), andb_true_r.
  unfold not_colon_dot, not_dot in *. apply negb_true_iff in Ha.
  apply orb_false_iff in Ha as [_ Ha]. rewrite Ha. reflexivity.
Qed.

Lemma profile_name_extension prefix rep ts :
  Regex.all_chars not_dot prefix = true ->
  Regex.all_chars not_colon_dot ts = true ->
  replace_first ".pb" rep (prefix +:+ ts +:+ ".pb") = prefix +:+ ts +:+ rep.
Proof.
  intros Hp Hts. induction prefix as [|a p IH].
  - change (EmptyString +:+ ts +:+ ".pb") with (ts +:+ ".pb").
    change (EmptyString +:+ ts +:+ rep) with (ts +:+ rep).
    apply replace_first_extension, no_colon_dot_no_dot, Hts.
  - simpl in Hp. apply andb_true_iff in Hp as [Ha Hp].
    rewrite !append_cons.
    rewrite (replace_first_skip rep a _ Ha), (IH Hp). reflexivity.
Qed.

(** X4.  The timestamp of a stop, [toISOString().replace(/[:.]/g, '-')],
    has the length of the ISO string and holds no colon and no dot.  So the
    only [.pb] in a profile name is its extension, and
    [name.replace('.pb', '.html')] and [name.replace('.pb', '.md')], which
    replace the first occurrence, give the profile name with the extension
    exchanged: the flamegraph and the markdown analysis of a profile share
    its stem, for the CPU and for the heap profile. *)
Theorem artifact_names_differ_in_extension iso :
  let ts := replace_colon_dot iso in
  Regex.all_chars not_colon_dot ts = true /\
  String.length ts = String.length iso /\
  htmlOf (cpuFilenameOf ts) = "cpu-profile-" +:+ ts +:+ ".html" /\
  mdOf (cpuFilenameOf ts) = "cpu-profile-" +:+ ts +:+ ".md" /\
  htmlOf (heapFilenameOf ts) = "heap-profile-" +:+ ts +:+ ".html" /\
  mdOf (heapFilenameOf ts) = "heap-profile-" +:+ ts +:+ ".md".
Proof.
  intros ts. pose proof (replace_colon_dot_safe iso) as Hts. fold ts in Hts.
  split; [exact Hts|]. split.
  - unfold ts, replace_colon_dot. clear.
    induction iso as [|a r IH]; [reflexivity|].
    cbn [map_chars String.length]. by rewrite IH.
  - unfold htmlOf, mdOf, cpuFilenameOf, heapFilenameOf.
    repeat split; apply profile_name_extension; trivial.
Qed.

(** X5.  Rendering is purely additive.  From every state and whatever the
    samplers, the file system and the renderers do,
    [stopProfilerAndSave(true)] run to completion resolves with the same
    value, writes the same profile files and leaves the same flags as
    [stopProfilerAndSave(false)]; the calls it makes are those of the
    latter with renderer calls in between.  In particular a renderer that
    fails changes neither the result nor the profiles. *)
Theorem rendering_is_additive w s :
  let a := stopProfilerAndSave true w s in
  let b := stopProfilerAndSave false w s in
  a.2 = b.2 /\ written a.1 = written b.1 /\
  isCpuProfilerRunning a.1 = isCpuProfilerRunning b.1 /\
  isHeapProfilerRunning a.1 = isHeapProfilerRunning b.1 /\
  exists la lb,
    calls_since s a.1 la /\ calls_since s b.1 lb /\
    List.filter is_sampler_call la = lb.
Proof.
  open_state s; open_world w.
  destruct c, h; follow o1 o2 o3 o4 o5 o6 o7;
    do 4 (split; [reflexivity|]);
    eexists; eexists; (split; [since|]); (split; [since|]); reflexivity.
Qed.

(** X6.  The two exit paths ask for the same renderings.  Whenever the
    signal path, [stopProfilerQuick] followed by [generateHtmlAsync] on the
    names it returns, succeeds, the graceful path
    [stopProfilerAndSave(true)] resolves with the same names and writes the
    same files, and both start, for every name in order, the flamegraph
    renderer on the name with [.html] and then the markdown renderer on the
    name with [.md] in the configured format; their other calls are the
    same as well.  The paths differ only in where the renderer calls stand
    among the others. *)
Theorem signal_and_graceful_exit_render_alike w s s1 names :
  stopProfilerQuick w s = (s1, Normal (Some names)) ->
  let q := (generateHtmlAsync names s1).1 in
  exists s2 lq l2,
    stopProfilerAndSave true w s = (s2, Resolved (Some names)) /\
    written s2 = written q /\
    calls_since s q lq /\ calls_since s s2 l2 /\
    List.filter is_render_call lq = renderings (mdFormat s) names /\
    List.filter is_render_call l2 = renderings (mdFormat s) names /\
    List.filter is_sampler_call lq = List.filter is_sampler_call l2.
Proof.
  open_state s; open_world w.
  destruct c, h; follow o1 o2 o3 o4 o5 o6 o7; intros [= <- <-];
    unfold generateHtmlAsync; unfold_js; simpl;
    eexists; eexists; eexists; (split; [reflexivity|]); (split; [reflexivity|]);
    (split; [since|]); (split; [since|]); repeat split.
Qed.

Lemma signal_and_graceful_exit_render_alike_witness :
  exists s2 lq l2,
    stopProfilerAndSave true calm bothRunning
    = (s2, Resolved (Some [cpuFilenameOf (timestampAt calm bothRunning);
                           heapFilenameOf (timestampAt calm bothRunning)])) /\
    written s2
    = written (generateHtmlAsync
                 [cpuFilenameOf (timestampAt calm bothRunning);
                  heapFilenameOf (timestampAt calm bothRunning)]
                 (stopProfilerQuick calm bothRunning).1).1 /\
    calls_since bothRunning
      (generateHtmlAsync
         [cpuFilenameOf (timestampAt calm bothRunning);
          heapFilenameOf (timestampAt calm bothRunning)]
         (stopProfilerQuick calm bothRunning).1).1 lq /\
    calls_since bothRunning s2 l2 /\
    List.filter is_render_call lq
    = renderings "summary" [cpuFilenameOf (timestampAt calm bothRunning);
                            heapFilenameOf (timestampAt calm bothRunning)] /\
    List.filter is_render_call l2
    = renderings "summary" [cpuFilenameOf (timestampAt calm bothRunning);
                            heapFilenameOf (timestampAt calm bothRunning)] /\
    List.filter is_sampler_call lq = List.filter is_sampler_call l2.
Proof.
  exact (signal_and_graceful_exit_render_alike calm bothRunning
           (stopProfilerQuick calm bothRunning).1 _ eq_refl).
Defined.

End RenderingFacts.

(** ** Exit, manual mode and the start delay *)

Module LifecycleFacts.
Import JsString Controller Process Lifecycle ControllerFacts ProcessFacts.

#[local] Arguments stopProfilerQuick : simpl never.
#[local] Arguments stopProfilerAndSave_call : simpl never.
#[local] Arguments stopProfilerAndSave_resume : simpl never.
#[local] Arguments toggleProfiler : simpl never.
#[local] Arguments generateHtmlAsync : simpl never.

Lemma run_exited evs : forall p c, exited p = Some c -> run evs p = p.
Proof.
  induction evs as [|e evs IH]; intros p c Hx; [reflexivity|].
  rewrite run_cons. assert (Hs : step p e = p) by (unfold step; rewrite Hx; reflexivity).
  rewrite Hs. exact (IH p c Hx).
Qed.

Lemma signal_exits t w p : exited (onSignal t w p) = Some 0.
Proof.
  unfold onSignal, patchedExit.
  destruct (exitGuard p) eqn:Hg.
  - destruct (stopProfilerQuick w (st (latch t p))) as [s' [[l|]|]];
      unfold exitGuard; simpl; rewrite andb_false_r; reflexivity.
  - rewrite Hg. reflexivity.
Qed.

(** X7.  Under auto-start the SIGINT and SIGTERM handlers always end the
    process, and with exit code 0: whether or not a profiler is running,
    whether or not the latch is set, and whatever the quick stop does,
    their last statement [process.exit(0)] reaches the original
    [process.exit], because the patched function either finds no profiler
    running or finds the latch that the handler has just set. *)
Theorem signals_exit_with_code_zero w p :
  autoStart p = true -> exited p = None ->
  exited (step p (SIGINT w)) = Some 0 /\ exited (step p (SIGTERM w)) = Some 0.
Proof.
  intros Ha Hx. unfold step. rewrite Hx, Ha. split; apply signal_exits.
Qed.

Lemma signals_exit_with_code_zero_witness :
  exited (step (preload noDelay calmToggle) (SIGINT calm)) = Some 0 /\
  exited (step (preload noDelay calmToggle) (SIGTERM calm)) = Some 0.
Proof.
  exact (signals_exit_with_code_zero calm (preload noDelay calmToggle) eq_refl eq_refl).
Defined.

(** X8.  Once [exitHandlerCalled] is set, an exit trigger saves nothing:
    [beforeExit] leaves the process as it is, [process.exit(code)] and the
    two signals end it at once with [code] and 0, and no flag, call or
    file changes.  A signal that arrives while a graceful stop is awaiting
    a renderer therefore ends the process with the heap profiler still
    running and its profile unwritten. *)
Theorem latched_triggers_save_nothing w c p :
  autoStart p = true -> exited p = None -> exitHandlerCalled p = true ->
  step p (BeforeExit w) = p /\
  step p (ExitCall c w) = with_exited c p /\
  step p (SIGINT w) = with_exited 0 p /\
  step p (SIGTERM w) = with_exited 0 p.
Proof.
  intros Ha Hx Hl.
  assert (Hg : exitGuard p = false) by (unfold exitGuard; rewrite Hl; apply andb_false_r).
  unfold step, onBeforeExit, onSignal, patchedExit. rewrite Hx, Ha, Hg.
  cbv zeta. rewrite Hg. repeat split.
Qed.

Lemma latched_triggers_save_nothing_witness :
  isHeapProfilerRunning (st stoppingGracefully) = true /\
  step stoppingGracefully (SIGINT calm) = with_exited 0 stoppingGracefully /\
  written (st (step stoppingGracefully (SIGINT calm)))
  = [cpuFilenameOf (timestampAt calm (st (preload noDelay calmToggle)))].
Proof.
  split; [reflexivity|].
  pose proof (latched_triggers_save_nothing calm 0 stoppingGracefully
                eq_refl eq_refl eq_refl) as (_ & _ & Hs & _).
  split; [exact Hs|]. rewrite Hs. reflexivity.
Defined.

Lemma resume_progress a f o s s' a' f' :
  stopProfilerAndSave_resume a f o s = (s', Suspended a' f') ->
  (remaining a' < remaining a)%nat.
Proof.
  destruct f as [g ts names w]. open_state s; open_world w.
  destruct a, g, h; follow o1 o2 o3 o4 o5 o6 o7; intros [= <- <- <-]; simpl; lia.
Qed.

Lemma remaining_le a : (1 <= remaining a <= 4)%nat.
Proof. destruct a; simpl; lia. Qed.

(** Settling the last activation either ends the process with its code or
    leaves it suspended at a later await. *)
Lemma settle_last l a f c q :
  activations q = l ++ [mkActivation a f (ThenOriginalExit c)] ->
  exited (settle (length l) q) = Some c \/
  exists a' f',
    (remaining a' < remaining a)%nat /\
    exited (settle (length l) q) = exited q /\
    activations (settle (length l) q) = l ++ [mkActivation a' f' (ThenOriginalExit c)].
Proof.
  intros Hq. unfold settle. rewrite Hq.
  rewrite (list_lookup_middle l [] _ (length l) eq_refl). simpl.
  destruct (stopProfilerAndSave_resume a f (settles a (world f)) (st q))
    as [s' [r|a' f']] eqn:E; simpl.
  - left. reflexivity.
  - right. exists a', f'. split; [exact (resume_progress _ _ _ _ _ _ _ E)|].
    split; [reflexivity|].
    rewrite insert_app_r_alt by lia. rewrite Nat.sub_diag. reflexivity.
Qed.

Lemma settles_reach_exit k : forall a f l c q,
  (remaining a <= k)%nat -> exited q = None ->
  activations q = l ++ [mkActivation a f (ThenOriginalExit c)] ->
  exited (run (replicate k (Settle (length l))) q) = Some c.
Proof.
  induction k as [|k IH]; intros a f l c q Hk Hx Hq.
  - pose proof (remaining_le a). lia.
  - cbn [replicate]. rewrite run_cons.
    assert (Hs : step q (Settle (length l)) = settle (length l) q)
      by (unfold step; rewrite Hx; reflexivity).
    rewrite Hs.
    destruct (settle_last l a f c q Hq) as [He | (a' & f' & Hlt & He & Ha)].
    + rewrite (run_exited _ _ c He). exact He.
    + apply (IH a' f'); [lia | congruence | exact Ha].
Qed.

(** Only the stop sequence suspends an activation, and it sets the latch
    first: in every state the process reaches, nothing is suspended while
    the latch is open. *)
Lemma mapperSettles_pending ok w p :
  exited (mapperSettles ok w p) = exited p /\
  activations (mapperSettles ok w p) = activations p.
Proof.
  unfold mapperSettles. destruct (mapperPromise p); try (split; reflexivity).
  set (q0 := with_st (set_sourceMapper ok (st p)) (with_mapper SettledPromise 0 p)).
  change (exited p) with (exited q0). change (activations p) with (activations q0).
  generalize (awaitingMapper p). clearbody q0.
  intros n. induction n as [|n IH]; simpl; [split; reflexivity|].
  destruct IH as [H1 H2]. split; [rewrite <- H1 | rewrite <- H2]; reflexivity.
Qed.

Lemma timerFires_pending i w p :
  exited (timerFires i w p) = exited p /\
  activations (timerFires i w p) = activations p.
Proof. frame. Qed.

Lemma startProfiling_pending w p :
  exited (startProfiling w p) = exited p /\
  activations (startProfiling w p) = activations p /\
  exitHandlerCalled (startProfiling w p) = exitHandlerCalled p.
Proof. frame. Qed.

Lemma step_pending_inv p e : pending_inv p -> pending_inv (step p e).
Proof.
  intros Hi. unfold pending_inv in *.
  destruct (trigger_of e) as [t|] eqn:Ht.
  - destruct (exited p) eqn:Hx; [unfold step; rewrite Hx; exact Hi|].
    destruct (autoStart p) eqn:Ha.
    + destruct (trigger_step p e t Ht Hx Ha) as [Hfire Hskip].
      destruct (exitGuard p) eqn:Hg.
      * destruct (Hfire eq_refl) as [H1 _]. rewrite H1. discriminate.
      * destruct (Hskip eq_refl) as [H1 _]. rewrite H1. intros Hl.
        specialize (Hi Hl). revert Hi.
        unfold step. rewrite Hx, Ha.
        destruct e as [w|w|xc w|w|w|i|ok w|i w]; try discriminate Ht;
          unfold onBeforeExit, onSignal, patchedExit; rewrite Hg; cbv zeta;
          rewrite ?Hg; simpl; auto.
    + destruct (manual_step p e Ha) as [H1 _]. rewrite H1. intros Hl.
      specialize (Hi Hl). revert Hi.
      unfold step. rewrite Hx, Ha.
      destruct e as [w|w|xc w|w|w|i|ok w|i w]; try discriminate Ht; simpl; auto.
  - destruct (other_step p e Ht) as [H1 _]. rewrite H1. intros Hl.
    specialize (Hi Hl). revert Hi.
    unfold step. destruct (exited p); [auto|].
    destruct e as [w|w|xc w|w|w|i|ok w|i w]; try discriminate Ht.
    + destruct (posix p); simpl; auto.
    + intros Hn. unfold settle. rewrite Hn. simpl. exact Hn.
    + intros Hn. rewrite (proj2 (mapperSettles_pending ok w p)). exact Hn.
    + intros Hn. rewrite (proj2 (timerFires_pending i w p)). exact Hn.
Qed.

Lemma run_pending_inv evs : forall p, pending_inv p -> pending_inv (run evs p).
Proof.
  induction evs as [|e evs IH]; intros p Hi; [exact Hi|].
  rewrite run_cons. apply IH, step_pending_inv, Hi.
Qed.

Lemma preload_pending_inv env w : pending_inv (preload env w).
Proof.
  intros _. unfold preload.
  repeat case_match; try reflexivity;
    match goal with
    | |- context [startProfiling ?w ?p] =>
        rewrite (proj1 (proj2 (startProfiling_pending w p))); reflexivity
    end.
Qed.

Lemma reachable_pending_inv env w evs : pending_inv (run evs (preload env w)).
Proof. apply run_pending_inv, preload_pending_inv. Qed.






(** *** Manual mode *)

Lemma manual_step_never_started p e :
  never_started p ->
  is_toggle_signal e = false \/ posix p = false ->
  never_started (step p e) /\ posix (step p e) = posix p.
Proof.
  intros (Hc & Hw & Hb & Ht & Hm & Ha & Hn & Hauto) Hsig.
  unfold step. destruct (exited p); [unfold never_started; auto 10|].
  destruct e as [w|w|xc w|w|w|i|ok w|i w]; rewrite ?Hauto.
  - destruct Hsig as [Hsig|Hsig]; [discriminate Hsig|]. rewrite Hsig.
    unfold never_started; auto 10.
  - unfold never_started; auto 10.
  - unfold never_started; simpl; auto 10.
  - unfold never_started; simpl; auto 10.
  - unfold never_started; simpl; auto 10.
  - unfold settle. rewrite Ha. simpl. unfold never_started; auto 10.
  - unfold mapperSettles. destruct (mapperPromise p); [unfold never_started; auto 10| |
      unfold never_started; auto 10].
    rewrite Hm. simpl. destruct Hb as [Hb1 Hb2].
    unfold never_started, both_stopped; simpl; auto 10.
  - unfold timerFires. rewrite Ht. simpl. unfold never_started; auto 10.
Qed.

Lemma manual_run_never_started evs : forall p,
  never_started p ->
  Forall (fun e => is_toggle_signal e = false) evs \/ posix p = false ->
  never_started (run evs p).
Proof.
  induction evs as [|e evs IH]; intros p Hp Hsig; [exact Hp|].
  rewrite run_cons.
  assert (He : is_toggle_signal e = false \/ posix p = false).
  { destruct Hsig as [Hall|Hw]; [left; inversion Hall; assumption | right; exact Hw]. }
  destruct (manual_step_never_started p e Hp He) as [Hn Hpos].
  apply IH; [exact Hn|].
  destruct Hsig as [Hall|Hw]; [left; inversion Hall; assumption | right; congruence].
Qed.

(** X10.  Without [FLAME_AUTO_START = 'true'] nothing is started or written
    unless a SIGUSR2 arrives: for every schedule of exit triggers, timers
    and settling promises that holds no SIGUSR2, and on win32, where the
    SIGUSR2 handler is not registered, for every schedule, no sampler call
    has been made, no file has been written, both flags are false and
    [toggleProfiler] has not been called by the auto-start.  The exit
    handlers are not installed in this mode. *)
Theorem manual_mode_starts_on_SIGUSR2_only env w evs :
  FLAME_AUTO_START env <> Some "true"%string ->
  Forall (fun e => is_toggle_signal e = false) evs \/ platform env = "win32"%string ->
  let p := run evs (preload env w) in
  calls (st p) = [] /\ written (st p) = [] /\ both_stopped (st p) /\
  autoStarts p = 0%nat.
Proof.
  intros Hm Hsig p.
  assert (Hp : preload env w
               = mkProc (idle (or_default (FLAME_MD_FORMAT env) "summary")) false
                   (negb (bool_decide (platform env = "win32"%string))) false
                   (if hasSourceMapperPromise env then PendingPromise else NoPromise)
                   0 [] [] None [] 0).
  { unfold preload. rewrite (bool_decide_eq_false_2 _ Hm). reflexivity. }
  assert (Hn : never_started (run evs (preload env w))).
  { apply manual_run_never_started.
    - rewrite Hp. unfold never_started, both_stopped. simpl. auto 10.
    - destruct Hsig as [Hall|Hw]; [left; exact Hall|right].
      rewrite Hp. simpl. rewrite Hw. reflexivity. }
  destruct Hn as (Hc & Hw & Hb & _ & _ & _ & Hn & _). auto.
Qed.

Lemma manual_mode_starts_on_SIGUSR2_only_witness :
  let p := run [BeforeExit calm; TimerFires 0 calmToggle; SIGINT calm]
               (preload manualEnv calmToggle) in
  calls (st p) = [] /\ written (st p) = [] /\ both_stopped (st p) /\
  autoStarts p = 0%nat.
Proof.
  apply (manual_mode_starts_on_SIGUSR2_only manualEnv calmToggle
           [BeforeExit calm; TimerFires 0 calmToggle; SIGINT calm]).
  - discriminate.
  - left. repeat constructor.
Defined.

(** *** The start delay *)

(** X11.  With auto-start and [FLAME_DELAY] unset, empty or
    ['until-started'], and no sourcemaps configured, preload starts nothing
    and schedules one [setImmediate] callback; when that callback runs it
    starts nothing either and schedules [setTimeout(startProfiling, 0)];
    [toggleProfiler] is called, once, when that timer fires, on the state
    that preload left. *)
Theorem default_delay_starts_on_second_turn env w w1 w2 :
  FLAME_AUTO_START env = Some "true"%string ->
  or_default (FLAME_DELAY env) "until-started" = "until-started"%string ->
  hasSourceMapperPromise env = false ->
  let p := preload env w in
  calls (st p) = [] /\ timers p = [Immediate] /\
  calls (st (step p (TimerFires 0 w1))) = [] /\
  timers (step p (TimerFires 0 w1)) = [Timeout 0] /\
  autoStarts (step p (TimerFires 0 w1)) = 0%nat /\
  autoStarts (run [TimerFires 0 w1; TimerFires 0 w2] p) = 1%nat /\
  st (run [TimerFires 0 w1; TimerFires 0 w2] p) = (toggleProfiler w2 (st p)).1.
Proof.
  intros Ha Hd Hm p. unfold p, preload. rewrite Ha, Hd, Hm. simpl.
  repeat split.
Qed.

Lemma default_delay_starts_on_second_turn_witness :
  let p := preload defaultDelay calmToggle in
  calls (st p) = [] /\ timers p = [Immediate] /\
  calls (st (step p (TimerFires 0 calmToggle))) = [] /\
  timers (step p (TimerFires 0 calmToggle)) = [Timeout 0] /\
  autoStarts (step p (TimerFires 0 calmToggle)) = 0%nat /\
  autoStarts (run [TimerFires 0 calmToggle; TimerFires 0 calmToggle] p) = 1%nat /\
  st (run [TimerFires 0 calmToggle; TimerFires 0 calmToggle] p)
  = (toggleProfiler calmToggle (st p)).1.
Proof.
  exact (default_delay_starts_on_second_turn defaultDelay calmToggle calmToggle calmToggle
           eq_refl eq_refl eq_refl).
Defined.

(** X12.  A [FLAME_DELAY] that is neither of the two words and for which
    [parseInt(value, 10)] is NaN or negative does not stop the auto-start:
    preload behaves exactly as with [FLAME_DELAY = 'none'] and calls
    [startProfiling] at once. *)
Theorem invalid_delay_starts_immediately env w d :
  FLAME_AUTO_START env = Some "true"%string -> FLAME_DELAY env = Some d ->
  invalid_delay d ->
  preload env w = preload (with_delay (Some "none"%string) env) w.
Proof.
  intros Ha Hd (Ht & Hn & Hu & Hp).
  unfold preload, with_delay, hasSourceMapperPromise, hasNodeModulesMapperPromise, dirs, mods.
  simpl. rewrite Ha, Hd. simpl. rewrite Ht.
  rewrite (bool_decide_eq_false_2 _ Hn), (bool_decide_eq_false_2 _ Hu).
  destruct (parseInt10 d) as [|ms|[|]]; [reflexivity| |reflexivity|discriminate Hp].
  destruct (Z.leb_spec 0 ms); [lia|reflexivity].
Qed.

Lemma invalid_delay_starts_immediately_witness :
  invalid_delay "soon" /\
  preload soonEnv calmToggle = preload (with_delay (Some "none"%string) soonEnv) calmToggle.
Proof.
  assert (Hi : invalid_delay "soon").
  { unfold invalid_delay. repeat split; discriminate. }
  split; [exact Hi|].
  exact (invalid_delay_starts_immediately soonEnv calmToggle "soon" eq_refl eq_refl Hi).
Defined.

(** A natural number below 2^53 is a double. *)
Lemma roundToDouble_exact n : 0 <= n <= 2 ^ 53 -> roundToDouble n = Some n.
Proof.
  intros Hn. unfold roundToDouble.
  destruct (Z.eq_dec n 0) as [->|Hz]; [reflexivity|].
  assert (Hl : Z.log2 n <= 53).
  { change 53 with (Z.log2 (2 ^ 53)). apply Z.log2_le_mono. lia. }
  destruct (Z.leb_spec (Z.log2 n - 52) 0) as [_|He]; [reflexivity|].
  assert (Hl53 : Z.log2 n = 53) by lia.
  assert (Hp : 2 ^ 53 <= n).
  { rewrite <- Hl53. apply Z.log2_spec. lia. }
  assert (n = 2 ^ 53) by lia. subst n. reflexivity.
Qed.

(** Beyond 2^53 the digits are rounded, and beyond the largest double they
    give an infinity, which is not negative and therefore a delay. *)
Example parseInt10_rounds :
  parseInt10 "9007199254740993" = Finite 9007199254740992 /\
  parseInt10 "9007199254740995" = Finite 9007199254740996 /\
  parseInt10 " -12px" = Finite (-12) /\
  parseInt10 "px" = NaN /\
  toNumber (10 ^ 309) = Infinity false /\
  toNumber (- 10 ^ 309) = Infinity true.
Proof. repeat split; vm_compute; reflexivity. Qed.



#[local] Arguments stopProfilerAndSave : simpl never.

(** X14.  The auto-start is a toggle, not a start.  Under the default
    delay, when a SIGUSR2 has started the profilers before the delayed
    auto-start runs, the single call of [toggleProfiler] that the
    auto-start makes finds them running and stops them: it is
    [stopProfilerAndSave(false)], after it both flags are false, and
    nothing starts the profilers again. *)
Theorem autoStart_stops_a_profiler_started_by_hand env w w1 w2 w3 :
  FLAME_AUTO_START env = Some "true"%string ->
  or_default (FLAME_DELAY env) "until-started" = "until-started"%string ->
  hasSourceMapperPromise env = false ->
  platform env <> "win32"%string ->
  cpuStart (onStart w1) = Returns -> heapStart (onStart w1) = Returns ->
  let p1 := step (preload env w) (SIGUSR2 w1) in
  let q := run [TimerFires 0 w2; TimerFires 0 w3] p1 in
  isCpuProfilerRunning (st p1) = true /\ isHeapProfilerRunning (st p1) = true /\
  autoStarts q = 1%nat /\
  st q = (stopProfilerAndSave false (onStop w3) (st p1)).1 /\
  both_stopped (st q).
Proof.
  intros Ha Hd Hm Hw Hc Hh p1 q.
  assert (Hp1 : st p1 = (toggleProfiler w1 (idle (or_default (FLAME_MD_FORMAT env) "summary"))).1
                /\ timers p1 = [Immediate] /\ mapperPromise p1 = NoPromise /\
                exited p1 = None /\ autoStarts p1 = 0%nat).
  { unfold p1, preload. rewrite Ha, Hd, Hm. simpl.
    rewrite (bool_decide_eq_false_2 _ Hw). simpl. repeat split. }
  destruct Hp1 as (Hst & Ht & Hmp & Hx & Hn).
  assert (Hrun : isCpuProfilerRunning (st p1) = true /\ isHeapProfilerRunning (st p1) = true).
  { rewrite Hst. destruct w1 as [[a1 a2] sw]. simpl in Hc, Hh. subst a1 a2.
    split; reflexivity. }
  destruct Hrun as [Hcr Hhr].
  assert (Hs : is_stop_event (st p1) = true)
    by (unfold is_stop_event; rewrite Hcr; reflexivity).
  assert (Hq : st q = (toggleProfiler w3 (st p1)).1 /\ autoStarts q = 1%nat).
  { assert (H2 : step p1 (TimerFires 0 w2) = with_timers [Timeout 0] p1).
    { unfold step. rewrite Hx. unfold timerFires. rewrite Ht. reflexivity. }
    assert (H3 : step (with_timers [Timeout 0] p1) (TimerFires 0 w3)
                 = autoToggle w3 (with_timers [] (with_timers [Timeout 0] p1))).
    { unfold step. simpl. rewrite Hx. unfold timerFires. simpl.
      unfold startProfiling. simpl. rewrite Hmp. reflexivity. }
    unfold q. rewrite !run_cons, H2, H3. simpl. rewrite Hn. split; reflexivity. }
  destruct Hq as [Hq Hqn].
  split; [exact Hcr|]. split; [exact Hhr|]. split; [exact Hqn|].
  rewrite Hq, (toggleProfiler_stop w3 (st p1) Hs). simpl.
  split; [reflexivity|].
  destruct (save_flags false (onStop w3) (st p1)) as [Hb|[Hf _]]; [exact Hb|congruence].
Qed.

Lemma autoStart_stops_a_profiler_started_by_hand_witness :
  let p1 := step (preload defaultDelay calmToggle) (SIGUSR2 calmToggle) in
  let q := run [TimerFires 0 calmToggle; TimerFires 0 calmToggle] p1 in
  isCpuProfilerRunning (st p1) = true /\ isHeapProfilerRunning (st p1) = true /\
  autoStarts q = 1%nat /\
  st q = (stopProfilerAndSave false (onStop calmToggle) (st p1)).1 /\
  both_stopped (st q).
Proof.
  apply (autoStart_stops_a_profiler_started_by_hand defaultDelay calmToggle calmToggle
           calmToggle calmToggle); try reflexivity.
  discriminate.
Defined.

(** X15.  Whatever the environment (auto-start or manual, any delay, with
    or without sourcemaps) and whatever events follow preload, the
    auto-start calls [toggleProfiler] at most once. *)
Theorem autoStart_happens_at_most_once env w evs :
  (autoStarts (run evs (preload env w)) <= 1)%nat.
Proof.
  pose proof (run_auto_inv evs _ (preload_auto_inv env w)) as Hi.
  unfold auto_inv in Hi. lia.
Qed.

(** *** The sourcemap settings *)

Lemma all_space_rev_app s : forall acc,
  all_space (String.rev_app s acc) = all_space s && all_space acc.
Proof.
  induction s as [|a s IH]; intros acc; [reflexivity|].
  simpl. rewrite IH. simpl. destruct (is_space a), (all_space s); reflexivity.
Qed.

Lemma all_space_rev s : all_space (String.rev s) = all_space s.
Proof. unfold String.rev. rewrite all_space_rev_app. simpl. apply andb_true_r. Qed.

Lemma filter_split_acc sep s : forall cur,
  List.filter trim_truthy (split_acc sep cur s) = []
  <-> all_space cur = true /\ blank_or_sep sep s = true.
Proof.
  unfold blank_or_sep.
  induction s as [|a s IH]; intros cur; simpl.
  - unfold trim_truthy. rewrite all_space_rev.
    destruct (all_space cur); simpl; split; intros Hf; try tauto; try discriminate.
    destruct Hf; discriminate.
  - destruct (is_char sep a) eqn:Ha.
    + simpl. unfold trim_truthy at 1. rewrite all_space_rev, orb_true_r. simpl.
      destruct (all_space cur); simpl.
      * rewrite (IH EmptyString). simpl. tauto.
      * split; [discriminate|]. intros [Hf _]. discriminate Hf.
    + rewrite (IH (String a cur)). simpl. rewrite orb_false_r.
      destruct (is_space a); simpl; [tauto|].
      split; intros [H1 H2]; discriminate.
Qed.

Lemma filter_split sep s :
  List.filter trim_truthy (split sep s) = [] <-> blank_or_sep sep s = true.
Proof. unfold split. rewrite filter_split_acc. simpl. tauto. Qed.

Lemma dirs_blank e :
  dirs e = [] <-> blank_or_sep (delimiter e) (text_of (FLAME_SOURCEMAP_DIRS e)) = true.
Proof.
  unfold dirs, text_of. destruct (FLAME_SOURCEMAP_DIRS e) as [s|]; simpl; [|tauto].
  destruct s as [|a s]; [simpl; tauto|]. apply filter_split.
Qed.

Lemma mods_blank e :
  mods e = [] <-> blank_or_sep "," (text_of (FLAME_NODE_MODULES_SOURCE_MAPS e)) = true.
Proof.
  unfold mods, text_of. destruct (FLAME_NODE_MODULES_SOURCE_MAPS e) as [s|]; simpl; [|tauto].
  destruct s as [|a s]; [simpl; tauto|]. apply filter_split.
Qed.

(** X16.  The sourcemap initialization, whose promise the auto-start
    awaits, is created exactly when a setting names something:
    [sourceMapperPromise] stays [null] if and only if
    [FLAME_SOURCEMAP_DIRS] is unset or made of white space and path
    delimiters only, and [FLAME_NODE_MODULES_SOURCE_MAPS] is unset or made
    of white space and commas only. *)
Theorem sourcemaps_configured_iff_some_entry_not_blank e :
  hasSourceMapperPromise e = false
  <-> blank_or_sep (delimiter e) (text_of (FLAME_SOURCEMAP_DIRS e)) = true /\
      blank_or_sep "," (text_of (FLAME_NODE_MODULES_SOURCE_MAPS e)) = true.
Proof.
  rewrite <- dirs_blank, <- mods_blank.
  unfold hasSourceMapperPromise, hasNodeModulesMapperPromise.
  destruct (dirs e), (mods e); split; intros Hf; try tauto; try discriminate;
    destruct Hf; discriminate.
Qed.

End LifecycleFacts.

(** ** What [extractFunctionName] can return *)

Module NamesFacts.
Import JsString Regex Names RegexFacts StringFacts.

(** A greedy run hands over after some characters of the class. *)
Lemma star_inv {R} p s : forall i c (k : cont R) x,
  star p i s c k = Some x ->
  exists u s', s = u +:+ s' /\ all_chars p u = true /\
               k (i + String.length u)%nat s' c = Some x.
Proof.
  induction s as [|a s IH]; intros i c k x Hs.
  - exists EmptyString, EmptyString. simpl in *. rewrite Nat.add_0_r. auto.
  - simpl in Hs. destruct (p a) eqn:Ha.
    + destruct (star p (S i) s c k) as [y|] eqn:E.
      * injection Hs as ->. destruct (IH _ _ _ _ E) as (u & s' & -> & Hu & Hk).
        exists (String a u), s'. simpl. rewrite Ha, Hu.
        rewrite <- Nat.add_succ_comm. auto.
      * exists EmptyString, (String a s). simpl. rewrite Nat.add_0_r. auto.
    + exists EmptyString, (String a s). simpl. rewrite Nat.add_0_r. auto.
Qed.

(** Whenever an expression lets the match succeed, it has consumed a prefix
    of the input, and group 1 holds an identifier of the line afterwards
    if it held nothing or such an identifier before. *)
Lemma matches_inv {R} r : captures_ident r ->
  forall i s c (k : cont R) x,
  matches r i s c k = Some x ->
  exists u s' c', s = u +:+ s' /\ k (i + String.length u)%nat s' c' = Some x /\
                  (forall whole pre, whole = pre +:+ s ->
                     captured_from whole c -> captured_from whole c').
Proof.
  induction r as [p|l|r1 IH1 r2 IH2|p|p|r' IH|r' IH|]; intros Hwf i s c k x Hm.
  - destruct s as [|a s]; [discriminate Hm|]. simpl in Hm.
    destruct (p a); [|discriminate Hm].
    exists (String a EmptyString), s, c. simpl. rewrite Nat.add_1_r. auto.
  - simpl in Hm. destruct (strip l s) as [s'|] eqn:E; [|discriminate Hm].
    exists l, s', c. split; [by apply strip_inv|auto].
  - destruct Hwf as [Hwf1 Hwf2]. simpl in Hm.
    destruct (IH1 Hwf1 _ _ _ _ _ Hm) as (u1 & s1 & c1 & -> & Hk1 & Hc1).
    destruct (IH2 Hwf2 _ _ _ _ _ Hk1) as (u2 & s2 & c2 & -> & Hk2 & Hc2).
    exists (u1 +:+ u2), s2, c2. rewrite append_assoc, length_append, Nat.add_assoc.
    split; [reflexivity|]. split; [exact Hk2|].
    intros whole pre Hw Hc. apply (Hc2 whole (pre +:+ u1)).
    + rewrite Hw, append_assoc. reflexivity.
    + exact (Hc1 whole pre Hw Hc).
  - simpl in Hm. destruct (star_inv _ _ _ _ _ _ Hm) as (u & s' & -> & _ & Hk).
    exists u, s', c. auto.
  - destruct s as [|a s]; [discriminate Hm|]. simpl in Hm.
    destruct (p a); [|discriminate Hm].
    destruct (star_inv _ _ _ _ _ _ Hm) as (u & s' & -> & _ & Hk).
    exists (String a u), s', c. simpl. rewrite <- Nat.add_succ_comm. auto.
  - simpl in Hwf, Hm. destruct (matches r' i s c k) as [y|] eqn:E.
    + injection Hm as ->. exact (IH Hwf _ _ _ _ _ E).
    + exists EmptyString, s, c. simpl. rewrite Nat.add_0_r. auto.
  - simpl in Hwf. subst r'. simpl in Hm.
    destruct s as [|a s]; [discriminate Hm|].
    destruct (ident_start a) eqn:Ha; [|discriminate Hm].
    destruct (star_inv _ _ _ _ _ _ Hm) as (u & s' & -> & Hu & Hk).
    exists (String a u), s', (Some (String a u)). simpl.
    rewrite <- Nat.add_succ_comm.
    replace (S i + String.length u - i)%nat with (S (String.length u)) in Hk by lia.
    change (take_chars (S (String.length u)) (String a (u +:+ s')))
      with (String a (take_chars (String.length u) (u +:+ s'))) in Hk.
    rewrite take_chars_app in Hk.
    split; [reflexivity|]. split; [exact Hk|]. intros whole pre Hw _.
    split; [rewrite Ha, Hu; reflexivity|]. exists pre, s'. exact Hw.
  - simpl in Hm. destruct (i =? 0)%nat; [|discriminate Hm].
    exists EmptyString, s, c. simpl. rewrite Nat.add_0_r. auto.
Qed.

Lemma search_identifier r line : captures_ident r ->
  forall s i pre name,
  line = pre +:+ s -> search r i s = Some (Some name) ->
  captured_from line (Some name).
Proof.
  intros Hwf. induction s as [|a s IH]; intros i pre name Hl Hs; simpl in Hs;
    destruct (matches r i _ None final) as [c|] eqn:E.
  1,3: injection Hs as Hs; subst c;
       destruct (matches_inv r Hwf _ _ _ _ _ E) as (u & s' & c' & _ & Hk & Hc);
       unfold final in Hk; injection Hk as Hk; subst c'; exact (Hc line pre Hl I).
  - discriminate Hs.
  - apply (IH (S i) (pre +:+ String a EmptyString) name); [|exact Hs].
    rewrite Hl, append_assoc. reflexivity.
Qed.

Lemma funcRe_captures_ident : captures_ident funcRe.
Proof. simpl. tauto. Qed.

Lemma arrowRe_captures_ident : captures_ident arrowRe.
Proof. simpl. tauto. Qed.

Lemma methodRe_captures_ident : captures_ident methodRe.
Proof. simpl. tauto. Qed.

Lemma group1_inv m name : group1 m = Some name -> m = Some (Some name).
Proof. destruct m as [[n|]|]; simpl; congruence. Qed.

Lemma extractFunctionName_captured line name :
  extractFunctionName line = Some name -> captured_from line (Some name).
Proof.
  unfold extractFunctionName, js_match.
  destruct (truthy line); [|discriminate]. simpl.
  destruct (group1 (search funcRe 0 line)) as [n|] eqn:E1.
  { intros [= <-].
    exact (search_identifier _ line funcRe_captures_ident _ _ EmptyString _ eq_refl
             (group1_inv _ _ E1)). }
  destruct (group1 (search arrowRe 0 line)) as [n|] eqn:E2.
  { intros [= <-].
    exact (search_identifier _ line arrowRe_captures_ident _ _ EmptyString _ eq_refl
             (group1_inv _ _ E2)). }
  intros E3.
  exact (search_identifier _ line methodRe_captures_ident _ _ EmptyString _ eq_refl
           (group1_inv _ _ E3)).
Qed.

Lemma identifier_truthy name : is_identifier name = true -> truthy name = true.
Proof. destruct name; [discriminate|reflexivity]. Qed.

(** X17.  Whatever the line, a name that [extractFunctionName] returns is
    an identifier (a letter, [_] or [$], then letters, digits, [_] or [$];
    so never the empty string) and occurs in the line as written. *)
Theorem extractFunctionName_returns_identifier_of_line line name :
  extractFunctionName line = Some name ->
  is_identifier name = true /\ exists pre post, line = pre +:+ name +:+ post.
Proof. exact (extractFunctionName_captured line name). Qed.

Lemma extractFunctionName_returns_identifier_of_line_witness :
  is_identifier "handler" = true /\
  exists pre post, "  handler: async (req) => {"%string = pre +:+ "handler" +:+ post.
Proof.
  exact (extractFunctionName_returns_identifier_of_line
           "  handler: async (req) => {" "handler" eq_refl).
Defined.

(** An expression that ends with the parenthesis class only matches where
    the input holds a parenthesis. *)
Lemma needs_lparen {R} r : captures_ident r -> ends_with_lparen r ->
  forall i s c (k : cont R) x,
  matches r i s c k = Some x -> all_chars not_lparen s = false.
Proof.
  induction r as [p|l|r1 IH1 r2 IH2|p|p|r' IH|r' IH|]; intros Hwf He i s c k x Hm;
    try (destruct He; fail).
  - destruct s as [|a s]; [discriminate Hm|]. simpl in Hm, He |- *.
    destruct (p a) eqn:Ha; [|discriminate Hm].
    unfold not_lparen. rewrite (He a Ha). reflexivity.
  - destruct Hwf as [Hwf1 Hwf2]. simpl in Hm, He.
    destruct (matches_inv r1 Hwf1 _ _ _ _ _ Hm) as (u & s' & c' & -> & Hk & _).
    rewrite all_chars_append, (IH2 Hwf2 He _ _ _ _ _ Hk). apply andb_false_r.
Qed.

Lemma search_needs_lparen r : captures_ident r -> ends_with_lparen r ->
  forall s i, all_chars not_lparen s = true -> search r i s = None.
Proof.
  intros Hwf He. induction s as [|a s IH]; intros i Hs; simpl;
    destruct (matches r i _ None final) as [c|] eqn:E.
  1,3: rewrite (needs_lparen r Hwf He _ _ _ _ _ E) in Hs; discriminate Hs.
  - reflexivity.
  - simpl in Hs. apply andb_true_iff in Hs as [_ Hs]. exact (IH _ Hs).
Qed.

(** X18.  A line without an opening parenthesis yields no name: each of the
    three patterns of [extractFunctionName] ends with [\(], so the function
    returns [null] on it, whatever else the line holds. *)
Theorem extractFunctionName_needs_parenthesis line :
  all_chars not_lparen line = true -> extractFunctionName line = None.
Proof.
  intros Hl. unfold extractFunctionName, js_match.
  destruct (truthy line); [|reflexivity]. simpl.
  rewrite (search_needs_lparen funcRe funcRe_captures_ident) by (simpl; auto).
  rewrite (search_needs_lparen arrowRe arrowRe_captures_ident) by (simpl; auto).
  rewrite (search_needs_lparen methodRe methodRe_captures_ident) by (simpl; auto).
  reflexivity.
Qed.

Lemma extractFunctionName_needs_parenthesis_witness :
  extractFunctionName "const total = items.length;" = None.
Proof.
  exact (extractFunctionName_needs_parenthesis "const total = items.length;" eq_refl).
Defined.

End NamesFacts.

(** ** Names on call-like and assignment-like lines *)

Module ShapesFacts.
Import JsString Regex Names Shapes RegexFacts StringFacts NamesFacts.

Lemma ident_char_not_space a : ident_char a = true -> is_space a = false.
Proof. destruct a as [[] [] [] [] [] [] [] []]; vm_compute; congruence. Qed.

Lemma ident_start_char a : ident_start a = true -> ident_char a = true.
Proof. destruct a as [[] [] [] [] [] [] [] []]; vm_compute; congruence. Qed.

Lemma ident_char_not_eq_or_colon a : ident_char a = true -> eq_or_colon a = false.
Proof. destruct a as [[] [] [] [] [] [] [] []]; vm_compute; congruence. Qed.

Lemma space_not_eq_or_colon a : is_space a = true -> eq_or_colon a = false.
Proof. destruct a as [[] [] [] [] [] [] [] []]; vm_compute; congruence. Qed.

Lemma all_chars_weaken (p q : ascii -> bool) s :
  (forall a, p a = true -> q a = true) -> all_chars p s = true -> all_chars q s = true.
Proof.
  intros Hpq. induction s as [|a s IH]; [reflexivity|]. simpl.
  intros Hs. apply andb_true_iff in Hs as [Ha Hs]. rewrite (Hpq a Ha), (IH Hs). reflexivity.
Qed.

(** The text in front of the first character of a class is unique. *)
Lemma first_of_class (p : ascii -> bool) x1 : forall x2 e1 e2 t1 t2,
  all_chars (fun a => negb (p a)) x1 = true -> all_chars (fun a => negb (p a)) x2 = true ->
  p e1 = true -> p e2 = true ->
  x1 +:+ String e1 t1 = x2 +:+ String e2 t2 ->
  x1 = x2 /\ e1 = e2 /\ t1 = t2.
Proof.
  induction x1 as [|a x1 IH]; intros [|b x2] e1 e2 t1 t2 H1 H2 He1 He2 Heq.
  - injection Heq as -> ->. auto.
  - rewrite append_cons in Heq. injection Heq as -> _.
    simpl in H2. rewrite He1 in H2. discriminate H2.
  - rewrite append_cons in Heq. injection Heq as -> _.
    simpl in H1. rewrite He2 in H1. discriminate H1.
  - rewrite !append_cons in Heq. injection Heq as -> Heq.
    simpl in H1, H2. apply andb_true_iff in H1 as [_ H1]. apply andb_true_iff in H2 as [_ H2].
    destruct (IH _ _ _ _ _ H1 H2 He1 He2 Heq) as (-> & -> & ->). auto.
Qed.


Lemma not_not_class (p : ascii -> bool) s :
  all_chars p s = true -> all_chars (fun a => negb (negb (p a))) s = true.
Proof. apply all_chars_weaken. intros a ->. reflexivity. Qed.

Lemma identifier_chars name : is_identifier name = true -> all_chars ident_char name = true.
Proof.
  destruct name as [|a n]; [discriminate|]. simpl. intros Hn.
  apply andb_true_iff in Hn as [Ha Hn]. rewrite (ident_start_char a Ha), Hn. reflexivity.
Qed.

(** What stands after the name of a call-like line begins outside an
    identifier. *)
Lemma after_name ws2 rest :
  all_chars is_space ws2 = true ->
  exists e t, ws2 +:+ "(" +:+ rest = String e t /\ ident_char e = false.
Proof.
  destruct ws2 as [|b ws2]; intros Hs.
  - exists "("%char, rest. split; reflexivity.
  - exists b, (ws2 +:+ "(" +:+ rest). split; [reflexivity|].
    simpl in Hs. apply andb_true_iff in Hs as [Hb _].
    destruct (ident_char b) eqn:E; [|reflexivity].
    rewrite (ident_char_not_space b E) in Hb. discriminate Hb.
Qed.

(** The optional [async] of the method pattern never takes part in a match
    on a call-like line: after it white space and an identifier would have
    to follow. *)
Lemma async_branch_fails {R} name ws2 rest i c (k : cont R) :
  is_identifier name = true -> all_chars is_space ws2 = true ->
  matches (Cat (Lit "async") (Plus is_space)) i (name +:+ ws2 +:+ "(" +:+ rest) c
    (fun i' s' c' => matches ident i' s' c' k) = None.
Proof.
  intros Hname Hws2.
  destruct (matches _ i _ c _) as [x|] eqn:Hm; [exfalso|reflexivity].
  cbn [matches] in Hm.
  destruct (strip "async" (name +:+ ws2 +:+ "(" +:+ rest)) as [s'|] eqn:Hs;
    [|discriminate Hm].
  apply strip_inv in Hs.
  destruct s' as [|a s'']; [discriminate Hm|].
  destruct (is_space a) eqn:Ha; [|discriminate Hm].
  destruct (star_inv _ _ _ _ _ _ Hm) as (u & t & -> & Hu & Hk).
  unfold ident in Hk. cbn [matches] in Hk.
  destruct t as [|b t']; [discriminate Hk|].
  destruct (ident_start b) eqn:Hb; [|discriminate Hk]. clear Hk Hm.
  destruct (after_name ws2 rest Hws2) as (e & y & Hy & He).
  rewrite Hy in Hs.
  assert (Ha' : ident_char a = false).
  { destruct (ident_char a) eqn:E; [|reflexivity].
    rewrite (ident_char_not_space a E) in Ha. discriminate Ha. }
  destruct (first_of_class (fun a => negb (ident_char a)) name "async" e a y
              (u +:+ String b t')) as (_ & _ & Hrest).
  - apply not_not_class, identifier_chars, Hname.
  - reflexivity.
  - rewrite He. reflexivity.
  - rewrite Ha'. reflexivity.
  - exact Hs.
  - assert (Hy' : ws2 +:+ String "(" rest = String a u +:+ String b t').
    { change (ws2 +:+ "(" +:+ rest) with (ws2 +:+ String "(" rest) in Hy.
      rewrite Hy, append_cons. f_equal; [|exact Hrest].
      assert (Hea : String e y = String a (u +:+ String b t')).
      { destruct (first_of_class (fun a => negb (ident_char a)) name "async" e a y
                    (u +:+ String b t')) as (_ & -> & ->); trivial.
        - apply not_not_class, identifier_chars, Hname.
        - rewrite He. reflexivity.
        - rewrite Ha'. reflexivity. }
      injection Hea as -> _. reflexivity. }
    destruct (first_of_class (fun a => negb (is_space a)) ws2 (String a u) "("%char b
                rest t') as (_ & Hb' & _).
    + apply not_not_class, Hws2.
    + apply not_not_class. simpl. rewrite Ha, Hu. reflexivity.
    + reflexivity.
    + rewrite (ident_char_not_space b (ident_start_char b Hb)). reflexivity.
    + exact Hy'.
    + subst b. discriminate Hb.
Qed.

Lemma matches_Opt_None {R} A B i s c (k : cont R) :
  matches A i s c (fun i' s' c' => matches B i' s' c' k) = None ->
  matches (Cat (Opt A) B) i s c k = matches B i s c k.
Proof. intros Hn. cbn [matches]. rewrite Hn. reflexivity. Qed.

(** At the start of a call-like line the method pattern matches, and its
    group is the name. *)
Lemma methodRe_shorthand ws name ws2 rest :
  all_chars is_space ws = true -> is_identifier name = true ->
  all_chars is_space ws2 = true ->
  matches methodRe 0 (shorthand ws name ws2 rest) None final = Some (Some name).
Proof.
  intros Hws Hname Hws2. unfold methodRe, shorthand.
  change (matches (Cat Bol ?r) 0 ?s ?c ?k) with (matches r 0 s c k).
  change (matches (Cat (Star is_space) ?r) ?i ?s ?c ?k)
    with (matches (Star is_space) i s c (fun i' s' c' => matches r i' s' c' k)).
  apply matches_Star; [exact Hws | apply stops_space_before_name, Hname |].
  rewrite matches_Opt_None
    by exact (async_branch_fails name ws2 rest _ _
                (fun i' s' c' => matches (Cat (Star is_space) lparen) i' s' c' final)
                Hname Hws2).
  change (matches (Cat ident (Cat (Star is_space) lparen)) ?i ?s ?c final)
    with (matches ident i s c
            (fun i' s' c' => matches (Cat (Star is_space) lparen) i' s' c' final)).
  apply matches_ident; [exact Hname | apply stops_ident_after_name, Hws2 |].
  change (matches (Cat (Star is_space) lparen) ?i ?s ?c final)
    with (matches (Star is_space) i s c (fun i' s' c' => matches lparen i' s' c' final)).
  apply matches_Star; [exact Hws2 | reflexivity |].
  reflexivity.
Qed.

(** X19.  The third pattern on call-like lines.  For every line made of
    indentation, an identifier, optional white space and an opening
    parenthesis, on which neither the declaration pattern nor the
    assignment pattern matches, [extractFunctionName] returns the
    identifier, whatever it is: a method name, but just as well [if],
    [for], [while], [switch] or [catch]. *)
Theorem extractFunctionName_method_shorthand ws name ws2 rest :
  all_chars is_space ws = true -> is_identifier name = true ->
  all_chars is_space ws2 = true ->
  js_match funcRe (shorthand ws name ws2 rest) = None ->
  js_match arrowRe (shorthand ws name ws2 rest) = None ->
  extractFunctionName (shorthand ws name ws2 rest) = Some name.
Proof.
  intros Hws Hname Hws2 Hf Ha. unfold extractFunctionName.
  assert (Ht : truthy (shorthand ws name ws2 rest) = true).
  { unfold shorthand. destruct ws; [|reflexivity].
    destruct name; [discriminate Hname|reflexivity]. }
  rewrite Ht, Hf, Ha. simpl.
  unfold js_match.
  assert (Hm := methodRe_shorthand ws name ws2 rest Hws Hname Hws2).
  destruct (shorthand ws name ws2 rest) as [|a s] eqn:E; [discriminate Ht|].
  cbn [search]. rewrite Hm. reflexivity.
Qed.

Lemma extractFunctionName_method_shorthand_witness :
  extractFunctionName "  while (i === n) {" = Some "while"%string.
Proof.
  exact (extractFunctionName_method_shorthand "  " "while" " " "i === n) {"
           eq_refl eq_refl eq_refl eq_refl eq_refl).
Defined.


(** *** Assignments *)

Lemma search_skip r pre : forall i s,
  (forall x y, pre = x +:+ y -> y <> EmptyString ->
     matches r (i + String.length x) (y +:+ s) None final = None) ->
  search r i (pre +:+ s) = search r (i + String.length pre) s.
Proof.
  induction pre as [|a p IH]; intros i s Hno.
  - simpl. rewrite Nat.add_0_r. reflexivity.
  - rewrite append_cons. cbn [search].
    pose proof (Hno EmptyString (String a p) eq_refl) as H0.
    simpl in H0. rewrite Nat.add_0_r in H0. rewrite append_cons in H0.
    rewrite H0 by discriminate.
    rewrite (IH (S i) s).
    + f_equal. simpl. lia.
    + intros x y -> Hy. specialize (Hno (String a x) y eq_refl Hy).
      simpl in Hno. rewrite <- Nat.add_succ_comm in Hno. exact Hno.
Qed.

Lemma ends_outside_ident_suffix x : forall y,
  y <> EmptyString -> ends_outside_ident (x +:+ y) = ends_outside_ident y.
Proof.
  induction x as [|a x IH]; intros y Hy; [reflexivity|].
  rewrite append_cons. cbn [ends_outside_ident].
  destruct (x +:+ y) as [|b t] eqn:E.
  - destruct x; [|discriminate E]. change (y = EmptyString) in E. congruence.
  - rewrite <- E. apply IH, Hy.
Qed.

Lemma ends_outside_ident_last y :
  y <> EmptyString -> ends_outside_ident y = true ->
  exists y' z, y = y' +:+ String z EmptyString /\ ident_char z = false.
Proof.
  induction y as [|a y IH]; intros Hy He; [congruence|].
  destruct y as [|b y].
  - exists EmptyString, a. split; [reflexivity|]. simpl in He.
    apply negb_true_iff in He. exact He.
  - destruct IH as (y' & z & Hy' & Hz); [discriminate|exact He|].
    exists (String a y'), z. rewrite Hy'. split; [reflexivity|exact Hz].
Qed.

(** In identifier characters followed by white space, what follows a
    character outside identifiers is white space. *)
Lemma ident_then_space u : forall v x z n y,
  all_chars ident_char u = true -> all_chars is_space v = true ->
  u +:+ v = x +:+ String z (String n y) -> ident_char z = false ->
  is_space n = true.
Proof.
  induction u as [|a u IH]; intros v x z n y Hu Hv Heq Hz.
  - change (EmptyString +:+ v) with v in Heq. subst v.
    rewrite all_chars_append in Hv. apply andb_true_iff in Hv as [_ Hv].
    simpl in Hv. apply andb_true_iff in Hv as [_ Hv].
    apply andb_true_iff in Hv as [Hn _]. exact Hn.
  - simpl in Hu. apply andb_true_iff in Hu as [Ha Hu].
    destruct x as [|b x].
    + rewrite append_cons in Heq. injection Heq as -> _. congruence.
    + rewrite !append_cons in Heq. injection Heq as _ Heq.
      exact (IH _ _ _ _ _ Hu Hv Heq Hz).
Qed.

Lemma not_eq_or_colon_ident s :
  all_chars ident_char s = true -> all_chars not_eq_or_colon s = true.
Proof.
  apply all_chars_weaken. intros a Ha. unfold not_eq_or_colon.
  rewrite (ident_char_not_eq_or_colon a Ha). reflexivity.
Qed.

Lemma not_eq_or_colon_space s :
  all_chars is_space s = true -> all_chars not_eq_or_colon s = true.
Proof.
  apply all_chars_weaken. intros a Ha. unfold not_eq_or_colon.
  rewrite (space_not_eq_or_colon a Ha). reflexivity.
Qed.

(** The assignment pattern does not match where the text in front of the
    name begins. *)
Lemma arrowRe_before_name y name ws1 e tail j :
  y <> EmptyString -> all_chars not_eq_or_colon y = true ->
  ends_outside_ident y = true -> is_identifier name = true ->
  all_chars is_space ws1 = true -> eq_or_colon e = true ->
  matches arrowRe j (y +:+ name +:+ ws1 +:+ String e tail) None final = None.
Proof.
  intros Hy Hyc Hye Hname Hws1 He.
  destruct (matches arrowRe j _ None final) as [r|] eqn:Hm; [exfalso|reflexivity].
  unfold arrowRe, ident in Hm. cbn [matches] in Hm.
  destruct (y +:+ name +:+ ws1 +:+ String e tail) as [|a s] eqn:Es; [discriminate Hm|].
  destruct (ident_start a) eqn:Ha; [|discriminate Hm].
  destruct (star_inv _ _ _ _ _ _ Hm) as (u1 & s1 & -> & Hu1 & Hk1). clear Hm.
  cbv beta in Hk1.
  destruct (star_inv _ _ _ _ _ _ Hk1) as (u2 & s2 & -> & Hu2 & Hk2). clear Hk1.
  cbv beta in Hk2.
  destruct s2 as [|e' s3]; [discriminate Hk2|].
  destruct (is_char "=" e' || is_char ":" e') eqn:He'; [|discriminate Hk2]. clear Hk2.
  destruct (first_of_class eq_or_colon ((y +:+ name) +:+ ws1)
              (String a (u1 +:+ u2)) e e' tail s3) as (Hx & _ & _).
  - change (fun a => negb (eq_or_colon a)) with not_eq_or_colon.
    rewrite !all_chars_append, Hyc.
    rewrite (not_eq_or_colon_ident _ (identifier_chars _ Hname)).
    rewrite (not_eq_or_colon_space _ Hws1). reflexivity.
  - change (fun a => negb (eq_or_colon a)) with not_eq_or_colon.
    change (String a (u1 +:+ u2)) with (String a u1 +:+ u2).
    rewrite all_chars_append, (not_eq_or_colon_space _ Hu2), andb_true_r.
    apply not_eq_or_colon_ident. simpl. rewrite (ident_start_char a Ha), Hu1. reflexivity.
  - exact He.
  - exact He'.
  - rewrite !append_assoc, Es, append_cons, append_assoc. reflexivity.
  - destruct (ends_outside_ident_last y Hy Hye) as (y' & z & -> & Hz).
    destruct name as [|n name']; [discriminate Hname|].
    simpl in Hname. apply andb_true_iff in Hname as [Hn _].
    assert (Hsp : is_space n = true).
    { apply (ident_then_space (String a u1) u2 y' z n (name' +:+ ws1)).
      - simpl. rewrite (ident_start_char a Ha), Hu1. reflexivity.
      - exact Hu2.
      - rewrite append_cons, <- Hx, !append_assoc. reflexivity.
      - exact Hz. }
    rewrite (ident_char_not_space n (ident_start_char n Hn)) in Hsp. discriminate Hsp.
Qed.


Lemma stops_ident_before_operator ws1 e tail :
  all_chars is_space ws1 = true -> eq_or_colon e = true ->
  stops ident_char (ws1 +:+ String e tail).
Proof.
  intros Hws He. destruct ws1 as [|b ws1]; simpl.
  - destruct (ident_char e) eqn:E; [|reflexivity].
    rewrite (ident_char_not_eq_or_colon e E) in He. discriminate He.
  - simpl in Hws. apply andb_true_iff in Hws as [Hb _].
    destruct (ident_char b) eqn:E; [|reflexivity].
    rewrite (ident_char_not_space b E) in Hb. discriminate Hb.
Qed.

(** At the name of an assignment-like line the assignment pattern matches,
    and its group is the name. *)
Lemma arrowRe_at_name name ws1 e ws2 rest j :
  is_identifier name = true -> all_chars is_space ws1 = true ->
  eq_or_colon e = true -> all_chars is_space ws2 = true ->
  matches arrowRe j (name +:+ ws1 +:+ String e (ws2 +:+ "(" +:+ rest)) None final
  = Some (Some name).
Proof.
  intros Hname Hws1 He Hws2. unfold arrowRe.
  change (matches (Cat ident ?r) ?i ?s ?c ?k)
    with (matches ident i s c (fun i' s' c' => matches r i' s' c' k)).
  apply matches_ident;
    [exact Hname | apply stops_ident_before_operator; assumption |].
  change (matches (Cat (Star is_space) ?r) ?i ?s ?c ?k)
    with (matches (Star is_space) i s c (fun i' s' c' => matches r i' s' c' k)).
  apply matches_Star; [exact Hws1 | |].
  { simpl. destruct (is_space e) eqn:E; [|reflexivity].
    rewrite (space_not_eq_or_colon e E) in He. discriminate He. }
  change (matches (Cat (Cls ?p) ?r) ?i (String e ?s) ?c ?k)
    with (if p e then matches r (S i) s c k else None).
  cbv beta. change (is_char "=" e || is_char ":" e) with (eq_or_colon e). rewrite He.
  change (matches (Cat (Star is_space) ?r) ?i ?s ?c ?k)
    with (matches (Star is_space) i s c (fun i' s' c' => matches r i' s' c' k)).
  apply matches_Star; [exact Hws2 | reflexivity |].
  rewrite matches_Opt_None by reflexivity.
  reflexivity.
Qed.

(** X20.  The second pattern on assignment-like lines.  For every line made
    of some text without [=] and [:] that is empty or ends outside an
    identifier, then an identifier, optional white space, [=] or [:],
    optional white space and an opening parenthesis, and on which the
    declaration pattern does not match, [extractFunctionName] returns the
    identifier: the name of an arrow function that is assigned or given as
    a property. *)
Theorem extractFunctionName_assignment pre name ws1 e ws2 rest :
  all_chars not_eq_or_colon pre = true -> ends_outside_ident pre = true ->
  is_identifier name = true -> all_chars is_space ws1 = true ->
  eq_or_colon e = true -> all_chars is_space ws2 = true ->
  js_match funcRe (assignment pre name ws1 e ws2 rest) = None ->
  extractFunctionName (assignment pre name ws1 e ws2 rest) = Some name.
Proof.
  intros Hpre Hend Hname Hws1 He Hws2 Hf. unfold extractFunctionName.
  assert (Ht : truthy (assignment pre name ws1 e ws2 rest) = true).
  { unfold assignment. destruct pre; [|reflexivity].
    destruct name; [discriminate Hname|reflexivity]. }
  rewrite Ht, Hf. simpl.
  assert (Hs : js_match arrowRe (assignment pre name ws1 e ws2 rest) = Some (Some name)).
  { unfold js_match, assignment. rewrite search_skip.
    - pose proof (arrowRe_at_name name ws1 e ws2 rest (0 + String.length pre)
                    Hname Hws1 He Hws2) as Hm.
      destruct name as [|n name']; [discriminate Hname|].
      rewrite append_cons in Hm |- *. cbn [search]. rewrite Hm. reflexivity.
    - intros x y -> Hy.
      rewrite all_chars_append in Hpre. apply andb_true_iff in Hpre as [_ Hyc].
      rewrite (ends_outside_ident_suffix x y Hy) in Hend.
      apply arrowRe_before_name; assumption. }
  rewrite Hs. reflexivity.
Qed.

Lemma extractFunctionName_assignment_witness :
  extractFunctionName "export const handler = (req, res) => {" = Some "handler"%string /\
  extractFunctionName "  onClick: (event) => {" = Some "onClick"%string.
Proof.
  split.
  - exact (extractFunctionName_assignment "export const " "handler" " " "=" " "
             "req, res) => {" eq_refl eq_refl eq_refl eq_refl eq_refl eq_refl eq_refl).
  - exact (extractFunctionName_assignment "  " "onClick" "" ":" " "
             "event) => {" eq_refl eq_refl eq_refl eq_refl eq_refl eq_refl eq_refl).
Defined.

End ShapesFacts.

(** ** The cache of source lines *)

Module CacheFacts.
Import JsString Controller SourceMap.

Section Cache.
Context {C : Type} `{Consumer C} `{Path}.

(** The name recovery only adds to the cache, and a second run from the
    cache it leaves gives the same answer without changing it. *)
Lemma recoverName_settles consumer (cache : Cache) src ln cache' r :
  recoverName consumer cache src ln = Normal (cache', r) ->
  cache ⊆ cache' /\ recoverName consumer cache' src ln = Normal (cache', r).
Proof.
  unfold recoverName.
  destruct (cache !! src) as [lines|] eqn:Hc.
  - intros Hr.
    assert (cache' = cache) as ->.
    { destruct (js_index lines (ln - 1)) as [text|]; [|congruence].
      destruct (truthy text); [|congruence].
      destruct (Regex.extractFunctionName text) as [n|]; [|congruence].
      destruct (truthy n); congruence. }
    split; [reflexivity|]. rewrite Hc. exact Hr.
  - destruct (sourceContentFor consumer src) as [content|] eqn:Hs; [|discriminate].
    destruct (truthy_opt content) eqn:Ht.
    + intros Hr.
      assert (cache' = <[src := split "010" (default EmptyString content)]> cache) as ->.
      { destruct (js_index _ (ln - 1)) as [text|]; [|congruence].
        destruct (truthy text); [|congruence].
        destruct (Regex.extractFunctionName text) as [n|]; [|congruence].
        destruct (truthy n); congruence. }
      split; [apply insert_subseteq, Hc|].
      rewrite lookup_insert_eq. exact Hr.
    + intros [= <- <-]. split; [reflexivity|]. rewrite Hc. reflexivity.
Qed.

(** X21.  Name recovery from [sourcesContent].  When the file of a location
    has a map entry, the position found for it (directly, or under
    LEAST_UPPER_BOUND when the direct lookup has no source) has a source
    and a line but no name, the source is not cached yet, its content is
    available and [extractFunctionName] finds a name on that line of the
    content, then [mappingInfo] returns the resolved file, the line, the
    column plus one and this name, and it stores the lines of the content
    in the cache under the source. *)
Theorem mappingInfo_recovers_name_from_content
  infoMap cache location entry pos src n content text nm :
  infoMap !! normalize (file location) = Some entry ->
  match originalPositionFor (mapConsumer entry) (loc_line location)
          (generatedColumn location) None with
  | Normal direct =>
      match source direct with
      | None => originalPositionFor (mapConsumer entry) (loc_line location)
                  (generatedColumn location) (Some LEAST_UPPER_BOUND)
      | Some _ => Normal direct
      end
  | Thrown => Thrown
  end = Normal pos ->
  source pos = Some src -> truthy src = true ->
  truthy_opt (name pos) = false -> line pos = Some n -> n <> 0 ->
  cache !! src = None ->
  sourceContentFor (mapConsumer entry) src = Normal (Some content) ->
  js_index (split "010" content) (n - 1) = Some text ->
  Regex.extractFunctionName text = Some nm ->
  mappingInfo infoMap cache location
  = (<[src := split "010" content]> cache,
     Normal (mkLocation (resolve (mapFileDir entry) src) (Some n)
                        ((fun c => c + 1) <$> column pos) (Some nm))).
Proof.
  intros He Hp Hs Hts Hn Hl Hn0 Hc Hcontent Htext Hnm.
  assert (Htt : truthy text = true).
  { destruct text; [discriminate Hnm|reflexivity]. }
  assert (Htc : truthy content = true).
  { destruct content; [|reflexivity]. exfalso.
    unfold js_index in Htext. destruct (n - 1 <? 0); [discriminate|].
    destruct (Z.to_nat (n - 1)) as [|[|k]]; simpl in Htext; try discriminate.
    injection Htext as <-. discriminate Htt. }
  assert (Htn : truthy nm = true).
  { apply NamesFacts.identifier_truthy.
    exact (proj1 (NamesFacts.extractFunctionName_captured text nm Hnm)). }
  assert (Hln : truthy_num (Some n) = true).
  { simpl. apply negb_true_iff, Z.eqb_neq, Hn0. }
  unfold mappingInfo. rewrite He. cbv zeta. rewrite Hp, Hs, Hn, Hts, Hl, Hln. simpl.
  unfold recoverName. rewrite Hc, Hcontent. simpl. rewrite Htc, Htext, Htt, Hnm, Htn.
  reflexivity.
Qed.

(** X22.  The cache of source lines only grows, and it never changes an
    answer: for every map, cache and location, every entry of the cache is
    still there after [mappingInfo], and calling [mappingInfo] again on the
    same location with the cache it has left returns the same location
    and leaves that cache as it is, also when the consumer has thrown or
    had no content. *)
Theorem mappingInfo_cache_grows_and_settles infoMap cache location :
  let r := mappingInfo infoMap cache location in
  cache ⊆ r.1 /\ mappingInfo infoMap r.1 location = r.
Proof.
  cbv zeta. unfold mappingInfo.
  destruct (infoMap !! normalize (file location)) as [entry|]; [|split; reflexivity].
  cbv zeta.
  set (looked := match originalPositionFor (mapConsumer entry) (loc_line location)
                         (generatedColumn location) None with
                 | Normal _ => _ | Thrown => _ end).
  destruct looked as [pos|]; [|split; reflexivity].
  destruct (source pos) as [src|]; [|split; reflexivity].
  destruct (negb (truthy_opt (name pos)) && truthy src && truthy_num (line pos));
    [|split; reflexivity].
  destruct (recoverName (mapConsumer entry) cache src (default 0 (line pos)))
    as [[cache' r]|] eqn:Hr.
  - destruct (recoverName_settles _ _ _ _ _ _ Hr) as [Hsub Hagain].
    destruct r as [n|]; simpl; rewrite Hagain; split; trivial.
  - simpl. rewrite Hr. split; reflexivity.
Qed.

End Cache.

Lemma mappingInfo_recovers_name_from_content_witness :
  @mappingInfo _ _ plainPath sampleInfoMap ∅ inBundle
  = (<["../src/utils.ts"%string :=
        split "010" ("function getCustomFormFields(state) {" +:+ nl +:+
                     "  return state.fields;" +:+ nl +:+ "}")]> ∅,
     Normal (mkLocation "/app/dist/../src/utils.ts" (Some 1) (Some 1)
                        (Some "getCustomFormFields"%string))).
Proof.
  refine (@mappingInfo_recovers_name_from_content _ _ plainPath sampleInfoMap ∅ inBundle
            (mkEntry "/app/dist" namelessMap)
            (mkPosition (Some "../src/utils.ts"%string) (Some 1) (Some 0) None)
            "../src/utils.ts" 1 _ "function getCustomFormFields(state) {"
            "getCustomFormFields" _ _ _ _ _ _ _ _ _ _ _);
    first [reflexivity | discriminate | (vm_compute; reflexivity)].
Defined.

End CacheFacts.

(** ** The environment of the spawned process *)

Module SupervisorFacts.
Import JsString Controller Process Supervisor.

#[local] Arguments toggleProfiler : simpl never.

Lemma preload_autoStart e w :
  autoStart (preload e w) = bool_decide (FLAME_AUTO_START e = Some "true"%string).
Proof.
  unfold preload, Process.startProfiling.
  repeat case_match; reflexivity.
Qed.

(** X23.  The environment that the library gives to the profiled process.
    Without [options.env] the child gets [process.env] with
    [FLAME_AUTO_START] set from [options.autoStart], so the preload script
    auto-starts exactly when [options.autoStart] is truthy.  With
    [options.env] the spread of [options] into the spawn options replaces
    the merged environment: the child gets [options.env] alone, without
    [process.env] and without the [FLAME_AUTO_START] that was computed, and
    the preload script auto-starts only if [options.env] itself says
    so. *)
Theorem startProfiling_environment preloadPath processEnv script args options
  platform delimiter w :
  let s := startProfiling preloadPath processEnv script args options in
  let c := child preloadPath processEnv script args options platform delimiter w in
  (opt_env options = None ->
   autoStart c = opt_autoStart options /\
   forall k, k <> "FLAME_AUTO_START"%string -> env s !! k = processEnv !! k) /\
  (forall e, opt_env options = Some e ->
   env s = e /\
   autoStart c = bool_decide (e !! "FLAME_AUTO_START"%string = Some "true"%string)).
Proof.
  simpl. unfold child. rewrite preload_autoStart. unfold startProfiling, envOf. simpl.
  split.
  - intros ->. simpl. rewrite lookup_insert_eq. split.
    + destruct (opt_autoStart options); reflexivity.
    + intros k Hk. rewrite lookup_insert_ne by congruence.
      rewrite (left_id ∅ (∪)). reflexivity.
  - intros e ->. simpl. split; reflexivity.
Qed.

Lemma startProfiling_environment_witness :
  autoStart (child "preload.js" shellEnv "server.js" [] autoOptions "linux" ":" calmToggle)
  = true /\
  env (startProfiling "preload.js" shellEnv "server.js" [] autoOptionsWithEnv)
  = {["NODE_ENV"%string := "production"%string]} /\
  autoStart (child "preload.js" shellEnv "server.js" [] autoOptionsWithEnv "linux" ":"
               calmToggle) = false.
Proof.
  pose proof (startProfiling_environment "preload.js" shellEnv "server.js" []
                autoOptions "linux" ":" calmToggle) as [H1 _].
  pose proof (startProfiling_environment "preload.js" shellEnv "server.js" []
                autoOptionsWithEnv "linux" ":" calmToggle) as [_ H2].
  destruct (H1 eq_refl) as [Ha _].
  destruct (H2 _ eq_refl) as [He Hb].
  split; [exact Ha|]. split; [exact He|]. rewrite Hb. reflexivity.
Defined.

End SupervisorFacts.

(** ** Sourcemaps of packages *)

Module NodeModulesFacts.
Import JsString Controller Regex SourceMap NodeModules RegexFacts StringFacts.

(** *** The file-name filter *)

#[local] Arguments strip : simpl never.
#[local] Arguments at_end : simpl never.

Lemma at_end_inv i s c x : at_end i s c = Some x -> s = EmptyString.
Proof. destruct s; [reflexivity|discriminate]. Qed.

Lemma mapFileRe_at i s :
  matches mapFileRe i s None at_end = Some tt
  <-> s = ".js.map"%string \/ s = ".cjs.map"%string \/ s = ".mjs.map"%string.
Proof.
  split.
  - intros Hm. destruct s as [|a s]; [discriminate Hm|]. simpl in Hm.
    destruct (is_char "." a) eqn:Ha; [|discriminate Hm].
    apply is_char_eq in Ha. subst a.
    assert (Hlit : forall j t, match strip "js.map" t with
                               | Some s' => at_end j s' None
                               | None => None
                               end = Some tt -> t = "js.map"%string).
    { intros j t Ht. destruct (strip "js.map" t) as [s'|] eqn:E; [|discriminate Ht].
      apply strip_inv in E. apply at_end_inv in Ht. subst. reflexivity. }
    destruct s as [|b s].
    + discriminate Hm.
    + destruct (is_char "c" b || is_char "m" b) eqn:Hb.
      * destruct (strip "js.map" s) as [s'|] eqn:E.
        -- destruct (at_end _ s' None) eqn:E2.
           ++ apply strip_inv in E. apply at_end_inv in E2. subst.
              apply orb_true_iff in Hb as [Hb|Hb]; apply is_char_eq in Hb; subst; auto.
           ++ left. f_equal. exact (Hlit _ _ Hm).
        -- left. f_equal. exact (Hlit _ _ Hm).
      * left. f_equal. exact (Hlit _ _ Hm).
  - intros [-> | [-> | ->]]; reflexivity.
Qed.

Lemma has_suffix_nil suffix : suffix <> EmptyString -> ~ has_suffix suffix EmptyString.
Proof.
  intros Hs [pre Hp].
  destruct pre; [change (EmptyString = suffix) in Hp; congruence|discriminate Hp].
Qed.

Lemma has_suffix_cons suffix a s :
  has_suffix suffix (String a s) <-> String a s = suffix \/ has_suffix suffix s.
Proof.
  split.
  - intros [[|b pre] Hp]; [left; exact Hp|right].
    rewrite append_cons in Hp. injection Hp as -> ->. exists pre. reflexivity.
  - intros [->|[pre ->]]; [exists EmptyString; reflexivity|].
    exists (String a pre). reflexivity.
Qed.

Lemma test_to_end_mapFileRe name : forall i,
  test_to_end mapFileRe i name = true
  <-> has_suffix ".js.map" name \/ has_suffix ".cjs.map" name \/ has_suffix ".mjs.map" name.
Proof.
  induction name as [|a s IH]; intros i.
  - split; [discriminate|].
    intros [Hs|[Hs|Hs]]; exfalso; revert Hs; apply has_suffix_nil; discriminate.
  - cbn [test_to_end]. rewrite !has_suffix_cons.
    destruct (matches mapFileRe i (String a s) None at_end) as [[]|] eqn:E.
    + apply mapFileRe_at in E. tauto.
    + rewrite IH.
      assert (Hno : ~ (String a s = ".js.map"%string \/ String a s = ".cjs.map"%string \/
                       String a s = ".mjs.map"%string)).
      { intros Hs. apply (mapFileRe_at i) in Hs. congruence. }
      tauto.
Qed.

(** X24.  The file-name test of the walk, [/\.[cm]?js\.map$/], accepts a
    name exactly when it ends with [.js.map], [.cjs.map] or [.mjs.map]. *)
Theorem isMapFile_accepts_js_map_suffixes name :
  isMapFile name = true
  <-> has_suffix ".js.map" name \/ has_suffix ".cjs.map" name \/ has_suffix ".mjs.map" name.
Proof. apply test_to_end_mapFileRe. Qed.

(** *** The walk *)

Lemma Dirent_induction (P : Dirent -> Prop) :
  (forall name, P (FileEnt name)) ->
  (forall name readable entries, Forall P entries -> P (DirEnt name readable entries)) ->
  (forall name, P (OtherEnt name)) ->
  forall entry, P entry.
Proof.
  intros Hf Hd Ho. fix IH 1. intros [name|name readable entries|name].
  - apply Hf.
  - apply Hd. induction entries as [|e es IHes]; constructor; [apply IH|exact IHes].
  - apply Ho.
Qed.

Section WalkFacts.
Context `{PathParts}.

Lemma walkEntry_map_files entry : forall dir,
  Forall (fun p => exists d n, p = join [d; n] /\ isMapFile n = true) (walkEntry dir entry).
Proof.
  induction entry as [name|name readable entries IH|name] using Dirent_induction;
    intros dir; simpl.
  - destruct (isMapFile name) eqn:E; repeat constructor. eauto.
  - destruct (bool_decide (name = ".git"%string)); [constructor|].
    destruct readable; [|constructor].
    induction IH as [|e es He Hes IHes]; simpl; [constructor|].
    apply Forall_app. split; [apply He|exact IHes].
  - constructor.
Qed.

Lemma walkEntry_prune entry : forall dir, walkEntry dir (prune entry) = walkEntry dir entry.
Proof.
  induction entry as [name|name readable entries IH|name] using Dirent_induction;
    intros dir; simpl; try reflexivity.
  destruct (bool_decide (name = ".git"%string)) eqn:Hg; simpl.
  - rewrite Hg. reflexivity.
  - destruct readable; simpl; rewrite Hg; [|reflexivity].
    induction IH as [|e es He Hes IHes]; simpl; [reflexivity|].
    rewrite He, IHes. reflexivity.
Qed.

(** X25.  What [walkForMapFiles] yields.  Every path it yields is a
    directory joined with a file name that passes the map-file test.  What
    lies inside a directory named [.git], or inside a directory that cannot
    be opened, has no influence at any depth: the walk yields the same
    paths when these directories are emptied.  A map file that lies
    directly in a readable directory is yielded. *)
Theorem walkForMapFiles_yields_map_files dir readable entries :
  Forall (fun p => exists d n, p = join [d; n] /\ isMapFile n = true)
         (walkForMapFiles dir readable entries) /\
  walkForMapFiles dir readable (List.map prune entries)
  = walkForMapFiles dir readable entries /\
  (forall n, readable = true -> In (FileEnt n) entries -> isMapFile n = true ->
             In (join [dir; n]) (walkForMapFiles dir readable entries)).
Proof.
  unfold walkForMapFiles. destruct readable.
  - split; [|split].
    + induction entries as [|e es IH]; simpl; [constructor|].
      apply Forall_app. split; [apply walkEntry_map_files|exact IH].
    + induction entries as [|e es IH]; simpl; [reflexivity|].
      rewrite walkEntry_prune, IH. reflexivity.
    + intros n _ Hin Hn. apply in_flat_map. exists (FileEnt n).
      split; [exact Hin|]. simpl. rewrite Hn. left. reflexivity.
  - split; [constructor|]. split; [reflexivity|]. intros n Hr. discriminate Hr.
Qed.

End WalkFacts.

(** *** Loading and merging *)

Section LoadFacts.
Context {C : Type} `{Path} `{PathParts}.
Variable readConsumer : string -> option C.
Variable consumerFile : C -> option string.
Variable access : string -> bool.
Variable opendir : string -> bool * list Dirent.
Variable requireResolve : string -> string -> Completion string.
Variable cwd : string.

Lemma processSourceMapFile_kept mapPath k e :
  processSourceMapFile readConsumer consumerFile access mapPath = Some (k, e) ->
  kept readConsumer consumerFile access k e.
Proof.
  unfold processSourceMapFile, kept.
  destruct (readConsumer mapPath) as [consumer|] eqn:Hr; [|discriminate].
  destruct (List.find access _) as [g|] eqn:Hf; [|discriminate].
  intros [= <- <-]. apply find_some in Hf as [Hin Ha].
  split; [exact Ha|]. exists mapPath. auto.
Qed.

Lemma loadMapFiles_kept mapFiles : forall entries,
  (forall k e, entries !! k = Some e -> kept readConsumer consumerFile access k e) ->
  forall k e,
    loadMapFiles readConsumer consumerFile access entries mapFiles !! k = Some e ->
    kept readConsumer consumerFile access k e.
Proof.
  induction mapFiles as [|mapFile mapFiles IH]; intros entries Hgood; [exact Hgood|].
  simpl. apply IH.
  destruct (processSourceMapFile _ _ _ mapFile) as [[g info]|] eqn:Hp; [|exact Hgood].
  intros k e. destruct (decide (k = g)) as [->|Hne].
  - rewrite lookup_insert_eq. intros [= <-].
    exact (processSourceMapFile_kept _ _ _ Hp).
  - rewrite lookup_insert_ne by congruence. apply Hgood.
Qed.

Lemma loadModules_kept moduleNames : forall entries,
  (forall k e, entries !! k = Some e -> kept readConsumer consumerFile access k e) ->
  forall k e,
    foldl (loadModule readConsumer consumerFile access opendir requireResolve cwd)
          entries moduleNames !! k = Some e ->
    kept readConsumer consumerFile access k e.
Proof.
  induction moduleNames as [|m ms IH]; intros entries Hgood; [exact Hgood|].
  simpl. apply IH. unfold loadModule.
  destruct (resolveModulePath requireResolve cwd m) as [modulePath|]; [|exact Hgood].
  destruct (truthy modulePath); [|exact Hgood].
  apply loadMapFiles_kept, Hgood.
Qed.

(** X26.  Every entry that [loadNodeModulesSourceMaps] returns is keyed by a
    generated file that [access] has found: the key is one of the two
    candidates of a map file that could be read (the [file] of the map, or
    the name of the map file without [.map], both resolved against the
    directory of the map file), the entry holds the consumer of that map
    file and its directory.  Maps whose generated file is not found are
    left out. *)
Theorem loadNodeModulesSourceMaps_keeps_accessible_files moduleNames k e :
  loadNodeModulesSourceMaps readConsumer consumerFile access opendir requireResolve cwd
    moduleNames !! k = Some e ->
  access k = true /\
  exists mapPath,
    readConsumer mapPath = Some (mapConsumer e) /\
    mapFileDir e = dirname mapPath /\
    In k (generatedPathCandidates consumerFile mapPath (mapConsumer e)).
Proof.
  unfold loadNodeModulesSourceMaps. apply loadModules_kept.
  intros k' e' Hk. rewrite lookup_empty in Hk. discriminate Hk.
Qed.

End LoadFacts.

Lemma loadNodeModulesSourceMaps_keeps_accessible_files_witness :
  sampleLoad !! "/app/node_modules/next/dist/server.js"%string
  = Some (mkEntry "/app/node_modules/next/dist" turbopackMap) /\
  sampleAccess "/app/node_modules/next/dist/server.js" = true /\
  exists mapPath,
    sampleRead mapPath = Some turbopackMap /\
    "/app/node_modules/next/dist"%string = slashDirname mapPath /\
    In "/app/node_modules/next/dist/server.js"%string
       (@generatedPathCandidates _ plainPath slashParts (fun _ => None) mapPath
          turbopackMap).
Proof.
  assert (Hl : sampleLoad !! "/app/node_modules/next/dist/server.js"%string
               = Some (mkEntry "/app/node_modules/next/dist" turbopackMap))
    by (vm_compute; reflexivity).
  split; [exact Hl|].
  exact (@loadNodeModulesSourceMaps_keeps_accessible_files _ plainPath slashParts
           sampleRead (fun _ => None) sampleAccess sampleOpendir sampleResolve "/app"
           ["next"; "left-pad"]%string _ _ Hl).
Defined.

Lemma mergeNodeModules_union {C} (infoMap nodeModulesEntries : gmap string (Entry C)) :
  mergeNodeModules infoMap nodeModulesEntries = nodeModulesEntries ∪ infoMap.
Proof.
  unfold mergeNodeModules.
  apply (map_fold_weak_ind (fun r m => r = m ∪ infoMap)).
  - symmetry. apply (left_id ∅ (∪)).
  - intros i x m r _ ->. apply insert_union_l.
Qed.

(** X27.  Merging the package maps into the map of the mapper.  After the
    merge a generated path that a package map covers has the package
    entry, also when a directory map covered it before, and every other
    path keeps its entry.  So [mappingInfo] resolves a location of such a
    file as the package maps alone would, and every other location as
    before the merge. *)
Theorem mergeNodeModules_prefers_package_maps {C} `{Consumer C} `{Path}
  (infoMap nodeModulesEntries : gmap string (Entry C)) cache location :
  (forall k,
     mergeNodeModules infoMap nodeModulesEntries !! k
     = match nodeModulesEntries !! k with
       | Some e => Some e
       | None => infoMap !! k
       end) /\
  mappingInfo (mergeNodeModules infoMap nodeModulesEntries) cache location
  = match nodeModulesEntries !! normalize (file location) with
    | Some _ => mappingInfo nodeModulesEntries cache location
    | None => mappingInfo infoMap cache location
    end.
Proof.
  assert (Hl : forall k,
            mergeNodeModules infoMap nodeModulesEntries !! k
            = match nodeModulesEntries !! k with
              | Some e => Some e
              | None => infoMap !! k
              end).
  { intros k. rewrite mergeNodeModules_union, lookup_union.
    destruct (nodeModulesEntries !! k), (infoMap !! k); reflexivity. }
  split; [exact Hl|].
  unfold mappingInfo. rewrite Hl.
  destruct (nodeModulesEntries !! normalize (file location)); reflexivity.
Qed.

(** *** Resolving a package directory *)

Lemma lastIndexOf_from_skip pat u s : forall i best,
  exists b, lastIndexOf_from pat (u +:+ s) i best
            = lastIndexOf_from pat s (i + String.length u) b.
Proof.
  induction u as [|a u IH]; intros i best.
  - exists best. simpl. rewrite Nat.add_0_r. reflexivity.
  - rewrite append_cons. cbn [lastIndexOf_from String.length].
    destruct (IH (S i) (if startsWith pat (String a (u +:+ s)) then Some i else best))
      as [b Hb].
    exists b. rewrite Hb. f_equal. lia.
Qed.

Lemma lastIndexOf_from_absent pat s : forall i best,
  occurs pat s = false -> lastIndexOf_from pat s i best = best.
Proof.
  induction s as [|a s IH]; intros i best Ho; simpl in Ho;
    apply orb_false_iff in Ho as [Hs Ho]; cbn [lastIndexOf_from]; rewrite Hs.
  - reflexivity.
  - apply IH, Ho.
Qed.

(** The last occurrence of the directory name lies where the text after it
    has none. *)
Lemma lastIndexOf_node_modules root tail :
  occurs "node_modules" tail = false ->
  lastIndexOf "node_modules" (root +:+ "node_modules" +:+ tail)
  = Some (String.length root).
Proof.
  intros Ho. unfold lastIndexOf.
  destruct (lastIndexOf_from_skip "node_modules" root ("node_modules" +:+ tail) 0 None)
    as [b ->].
  simpl. change (EmptyString +:+ tail) with tail.
  apply lastIndexOf_from_absent, Ho.
Qed.

Lemma drop_chars_append u s : forall n,
  drop_chars (String.length u + n) (u +:+ s) = drop_chars n s.
Proof. induction u as [|a u IH]; intros n; [reflexivity|]. apply IH. Qed.

Lemma rev_app_rev_app u : forall a b,
  String.rev_app (String.rev_app u a) b = String.rev_app a (u +:+ b).
Proof.
  induction u as [|c u IH]; intros a b; [reflexivity|].
  simpl. rewrite IH. reflexivity.
Qed.

Section ResolveFacts.
Context `{PathParts}.

Lemma split_acc_part u rest : forall cur,
  no_sep u = true ->
  split_acc sep cur (u +:+ String sep rest)
  = String.rev (String.rev_app u cur) :: split_acc sep EmptyString rest.
Proof.
  unfold no_sep.
  induction u as [|a u IH]; intros cur Hu.
  - change (EmptyString +:+ String sep rest) with (String sep rest).
    cbn [split_acc]. rewrite is_char_refl. reflexivity.
  - simpl in Hu. apply andb_true_iff in Hu as [Ha Hu]. apply negb_true_iff in Ha.
    rewrite append_cons. cbn [split_acc]. rewrite Ha. apply IH, Hu.
Qed.

Lemma split_part u rest :
  no_sep u = true -> split sep (u +:+ String sep rest) = u :: split sep rest.
Proof.
  intros Hu. unfold split. rewrite (split_acc_part u rest EmptyString Hu).
  f_equal. unfold String.rev. rewrite rev_app_rev_app. simpl. apply append_nil_r.
Qed.

Variable requireResolve : string -> string -> Completion string.

(** X28.  [resolveModulePath] returns the innermost package directory.
    When the module resolves to a file whose path reads: some root, then
    [node_modules], one character, a first part without separator, a
    separator and a rest in which [node_modules] does not occur again, the
    result is the root joined with [node_modules] and the first part; the
    root may itself lie in other [node_modules] directories.  For a module
    name that starts with [@] the next part of the path is joined as
    well. *)
Theorem resolveModulePath_innermost_package appPath moduleName root c pkg rest :
  requireResolve moduleName appPath
  = Normal (root +:+ "node_modules" +:+ String c (pkg +:+ String sep rest)) ->
  occurs "node_modules" (String c (pkg +:+ String sep rest)) = false ->
  no_sep pkg = true ->
  (startsWith "@" moduleName = false ->
   resolveModulePath requireResolve appPath moduleName
   = Some (join [root; "node_modules"%string; pkg])) /\
  (startsWith "@" moduleName = true ->
   forall name rest', rest = name +:+ String sep rest' -> no_sep name = true ->
   resolveModulePath requireResolve appPath moduleName
   = Some (join [root; "node_modules"%string; pkg; name])).
Proof.
  intros Hr Ho Hp. unfold resolveModulePath. rewrite Hr.
  rewrite (lastIndexOf_node_modules root _ Ho).
  assert (Hdrop : drop_chars (String.length root + String.length "node_modules" + 1)
                    (root +:+ "node_modules" +:+ String c (pkg +:+ String sep rest))
                  = pkg +:+ String sep rest).
  { rewrite <- Nat.add_assoc, drop_chars_append. reflexivity. }
  rewrite Hdrop, take_chars_app, (split_part pkg rest Hp).
  split.
  - intros ->. reflexivity.
  - intros -> name rest' -> Hn. rewrite (split_part name rest' Hn). reflexivity.
Qed.

End ResolveFacts.

Lemma resolveModulePath_innermost_package_witness :
  @resolveModulePath slashParts sampleResolve "/app" "next"
  = Some "/app/node_modules/next"%string.
Proof.
  exact (proj1 (@resolveModulePath_innermost_package slashParts sampleResolve
                  "/app" "next" "/app/" "/" "next" "dist/index.js"
                  eq_refl eq_refl eq_refl) eq_refl).
Defined.

End NodeModulesFacts.
